(** * X-mastarfield: gesture pipeline, mode state machine and blend engine

    A shallow embedding of the TypeScript sources
      - [App.tsx]            (mode state machine, photo upload),
      - [GestureControl.tsx] (landmark normaliser and gesture classifier),
      - [TreeSystem.tsx]     (foliage / spiral formations and shaders),
      - [Ornaments.tsx]      (ornament formations and per-frame blend),
    followed by the properties of the specification proved about them.

    Conventions.
      - A JavaScript [number] is idealised as a real number: rounding of
        IEEE doubles (and of the [Float32Array] buffers) is not modelled.
      - [Date.now()] is an integer number of milliseconds, a [Z].
      - [Math.random()] reads the next value of a random source, a function
        [nat -> R] together with a cursor counting the calls made so far.
      - React state is an explicit record; every event handler runs against
        the committed state and returns the next one. *)

From Stdlib Require Import Reals Lra Lia ZArith List String Bool Arith.
Import ListNotations.

Open Scope R_scope.

(* ================================================================== *)
(** ** JavaScript and three.js numeric primitives *)
(* ================================================================== *)

Module JS.

(** [a < b] and [a > b] on numbers, as the booleans the code branches on *)
Definition lt (a b : R) : bool := if Rlt_dec a b then true else false.
Definition gt (a b : R) : bool := if Rgt_dec a b then true else false.

(** [Math.hypot(a, b)] *)
Definition hypot (a b : R) : R := sqrt (a * a + b * b).

(** [Math.floor(x)], as an integer *)
Definition floor (x : R) : Z := Int_part x.

(** [Math.trunc]-style rounding toward zero, used by the [%] operator *)
Definition trunc (x : R) : Z :=
  if Rlt_dec x 0 then (- Int_part (- x))%Z else Int_part x.

(** [a % b] on numbers (the sign follows the dividend) *)
Definition rem (a b : R) : R := a - b * IZR (trunc (a / b)).

(** [arr[i]] for an integer-valued index: [undefined] out of range *)
Definition index {A : Type} (arr : list A) (i : Z) : option A :=
  if (i <? 0)%Z then None else nth_error arr (Z.to_nat i).

(** Truthiness of a [string | null] value: [null] and [''] are falsy *)
Definition truthy (v : option string) : bool :=
  match v with
  | Some s => negb (String.eqb s EmptyString)
  | None => false
  end.

End JS.

Module MathUtils.

(** [THREE.MathUtils.lerp(x, y, t)] *)
Definition lerp (x y t : R) : R := (1 - t) * x + t * y.

(** [THREE.MathUtils.clamp(value, min, max)] *)
Definition clamp (value lo hi : R) : R := Rmax lo (Rmin hi value).

End MathUtils.

Module GLSL.

(** [mix(x, y, a)] on floats *)
Definition mix (x y a : R) : R := x * (1 - a) + y * a.

End GLSL.

(** [THREE.Vector3] *)
Module Vector3.

Record t : Type := mk { x : R; y : R; z : R }.

(** [new THREE.Vector3().lerpVectors(v1, v2, alpha)] *)
Definition lerpVectors (v1 v2 : t) (alpha : R) : t :=
  mk (x v1 + (x v2 - x v1) * alpha)
     (y v1 + (y v2 - y v1) * alpha)
     (z v1 + (z v2 - z v1) * alpha).

(** [v.length()] *)
Definition length (v : t) : R := sqrt (x v * x v + y v * y v + z v * z v).

(** GLSL [mix] on a [vec3] *)
Definition mix (a b : t) (w : R) : t :=
  mk (GLSL.mix (x a) (x b) w) (GLSL.mix (y a) (y b) w) (GLSL.mix (z a) (z b) w).

Definition zero : t := mk 0 0 0.

(** [v.multiplyScalar(s)] *)
Definition multiplyScalar (v : t) (s : R) : t := mk (x v * s) (y v * s) (z v * s).

(** [v.normalize()], that is [v.divideScalar(v.length() || 1)] *)
Definition normalize (v : t) : t :=
  let l := length v in
  multiplyScalar v (1 / (if Req_dec_T l 0 then 1 else l)).

End Vector3.

(* ================================================================== *)
(** ** [Math.random()] as a state monad over a random source *)
(* ================================================================== *)

(** The outcome of running JavaScript that may dereference [undefined]. *)
Inductive Result (A : Type) : Type :=
| Ok (a : A)
| TypeError.
Arguments Ok {A} a.
Arguments TypeError {A}.

Module Rand.

(** The k-th value [Math.random()] returns since the page was loaded. *)
Definition Source : Type := nat -> R.

(** A computation reads the source, advances the call counter, and
    either returns or throws. *)
Definition M (A : Type) : Type := Source -> nat -> Result (A * nat).

Definition ret {A : Type} (a : A) : M A := fun _ k => Ok (a, k).

Definition bind {A B : Type} (c : M A) (f : A -> M B) : M B :=
  fun src k =>
    match c src k with
    | Ok (a, k') => f a src k'
    | TypeError => TypeError
    end.

Definition throw {A : Type} : M A := fun _ _ => TypeError.

(** [Math.random()] *)
Definition random : M R := fun src k => Ok (src k, S k).

(** [for (let i = 0; i < count; i++) out.push(body(i))], the index
    running upward from [i]. *)
Fixpoint loop {A : Type} (count : nat) (i : nat) (body : nat -> M A) : M (list A) :=
  match count with
  | O => ret []
  | S count' =>
      bind (body i) (fun a =>
      bind (loop count' (S i) body) (fun rest =>
      ret (a :: rest)))
  end.

(** [Math.random()] returns a value in [0, 1). *)
Definition valid (src : Source) : Prop := forall k, 0 <= src k < 1.

End Rand.

Declare Scope rand_scope.
Delimit Scope rand_scope with rand.
Notation "x <- c ;; k" := (Rand.bind c (fun x => k))
  (at level 61, c at next level, right associativity) : rand_scope.

(* ================================================================== *)
(** ** [types.ts] *)
(* ================================================================== *)

Inductive AppMode : Type := TREE | SCATTER | FOCUS | NEW_YEAR.

Inductive Gesture : Type := FIST | OPEN_PALM | PINCH | YEAH | NONE.

Record GestureState : Type := mkGestureState {
  gs_x : R;
  gs_y : R;
  gs_handSize : R;
  gs_isDetected : bool;
  gs_gesture : Gesture
}.

Record UploadedImage : Type := mkUploadedImage {
  img_id : string;
  img_url : string;
  img_position : R * R * R;
  img_name : option string
}.

Definition AppMode_eqb (a b : AppMode) : bool :=
  match a, b with
  | TREE, TREE | SCATTER, SCATTER | FOCUS, FOCUS | NEW_YEAR, NEW_YEAR => true
  | _, _ => false
  end.

(* ================================================================== *)
(** ** [GestureControl.tsx]: landmark normaliser and gesture classifier *)
(* ================================================================== *)

Module GestureControl.

(** A MediaPipe [NormalizedLandmark] *)
Record Landmark : Type := mkLandmark { lx : R; ly : R; lz : R }.

(** A [HandLandmarkerResult]: one landmark array per detected hand *)
Record HandLandmarkerResult : Type := mkResult {
  landmarks : list (list Landmark)
}.

(** The [{ x: 0, y: 0, handSize: 0, isDetected: false, gesture: 'NONE' }]
    summary with which [predictWebcam] initialises its locals. *)
Definition notDetected : GestureState := mkGestureState 0 0 0 false NONE.

(** [landmarks[i]] inside the [landmarks.length >= 21] branch *)
Definition point (lm : list Landmark) (i : nat) : Landmark :=
  nth i lm (mkLandmark 0 0 0).

Definition pinchDist (lm : list Landmark) : R :=
  JS.hypot (lx (point lm 8) - lx (point lm 4)) (ly (point lm 8) - ly (point lm 4)).

(** [Math.hypot(tip.x - wrist.x, tip.y - wrist.y)] *)
Definition distToWrist (lm : list Landmark) (tip : nat) : R :=
  JS.hypot (lx (point lm tip) - lx (point lm 0)) (ly (point lm tip) - ly (point lm 0)).

Definition distIndex (lm : list Landmark) : R := distToWrist lm 8.
Definition distMiddle (lm : list Landmark) : R := distToWrist lm 12.
Definition distRing (lm : list Landmark) : R := distToWrist lm 16.
Definition distPinky (lm : list Landmark) : R := distToWrist lm 20.

Definition avgFingerDist (lm : list Landmark) : R :=
  (distIndex lm + distMiddle lm + distRing lm + distPinky lm) / 4.

(** The if / else-if chain that assigns [gesture] *)
Definition classify (lm : list Landmark) : Gesture :=
  if JS.lt (avgFingerDist lm) 0.23 then FIST
  else if JS.gt (distIndex lm) 0.35 && JS.gt (distMiddle lm) 0.35
          && JS.lt (distRing lm) 0.25 && JS.lt (distPinky lm) 0.25 then YEAH
  else if JS.lt (pinchDist lm) 0.08 then PINCH
  else if JS.gt (avgFingerDist lm) 0.38 then OPEN_PALM
  else NONE.

(** The body of [predictWebcam] from [let gesture = 'NONE'] to the
    [onGestureUpdate] call: the summary built from a detection result. *)
Definition summarize (results : option HandLandmarkerResult) : GestureState :=
  match results with
  | None => notDetected
  | Some res =>
      match landmarks res with
      | [] => notDetected
      | lm :: _ =>
          if (21 <=? List.length lm)%nat then
            let wrist := point lm 0 in
            let middleMCP := point lm 9 in
            mkGestureState
              ((lx middleMCP - 0.5) * -2)
              ((ly middleMCP - 0.5) * 2)
              (JS.hypot (lx middleMCP - lx wrist) (ly middleMCP - ly wrist))
              true
              (classify lm)
          else notDetected
      end
  end.

(** What one animation frame finds before it reaches the classifier. *)
Inductive Frame : Type :=
| NoVideo                       (* video, canvas or stream missing *)
| ModelNotLoaded                (* handLandmarkerRef.current is null *)
| DetectThrew                   (* detectForVideo raised *)
| Detected (results : option HandLandmarkerResult).

(** [predictWebcam]: the summary handed to [onGestureUpdate], if any. *)
Definition predictWebcam (f : Frame) : option GestureState :=
  match f with
  | NoVideo | ModelNotLoaded | DetectThrew => None
  | Detected results => Some (summarize results)
  end.

(** The summary [stopWebcam] sends when the webcam is switched off. *)
Definition stopWebcam : GestureState := notDetected.

End GestureControl.

(* ================================================================== *)
(** ** [App.tsx]: mode state machine and photo upload *)
(* ================================================================== *)

Module App.

Local Open Scope rand_scope.

(** The React state and refs of [App] that the handlers below touch
    (playlist, audio and panel state are left out). *)
Record State : Type := mkState {
  mode : AppMode;
  focusId : option string;
  gestureState : GestureState;
  images : list UploadedImage;
  editingId : option string;
  dialogPos : R * R;
  nameRef : string;
  lastGestureSwitchRef : Z
}.

(** [useState] / [useRef] initial values *)
Definition initial : State :=
  mkState TREE None (mkGestureState 0 0 0 false NONE) [] None (0, 0) EmptyString 0%Z.

(** [setGestureState(state)] *)
Definition setGestureState (g : GestureState) (s : State) : State :=
  mkState (mode s) (focusId s) g (images s) (editingId s)
          (dialogPos s) (nameRef s) (lastGestureSwitchRef s).

(** [setMode(m); setFocusId(f); lastGestureSwitchRef.current = now] *)
Definition switchMode (m : AppMode) (f : option string) (now : Z) (s : State) : State :=
  mkState m f (gestureState s) (images s) (editingId s)
          (dialogPos s) (nameRef s) now.

(** [handleGestureUpdate(state)], with [now] the value [Date.now()]
    returns when it is read. *)
Definition handleGestureUpdate (now : Z) (state : GestureState) (s : State) : Rand.M State :=
  if JS.truthy (editingId s) then Rand.ret s
  else
    let s := setGestureState state s in
    if (now - lastGestureSwitchRef s <? 1000)%Z then Rand.ret s
    else
      match gs_gesture state with
      | FIST =>
          if negb (AppMode_eqb (mode s) TREE)
          then Rand.ret (switchMode TREE None now s)
          else Rand.ret s
      | OPEN_PALM =>
          if negb (AppMode_eqb (mode s) SCATTER)
          then Rand.ret (switchMode SCATTER None now s)
          else Rand.ret s
      | PINCH =>
          if (0 <? List.length (images s))%nat then
            if negb (AppMode_eqb (mode s) FOCUS) then
              r <- Rand.random ;;
              let randomIdx := JS.floor (r * INR (List.length (images s))) in
              match JS.index (images s) randomIdx with
              | Some img => Rand.ret (switchMode FOCUS (Some (img_id img)) now s)
              | None => Rand.throw
              end
            else Rand.ret s
          else Rand.ret s
      | YEAH =>
          if negb (AppMode_eqb (mode s) NEW_YEAR)
          then Rand.ret (switchMode NEW_YEAR None now s)
          else Rand.ret s
      | NONE => Rand.ret s
      end.

(** [generateTreePosition()] *)
Definition generateTreePosition : Rand.M (R * R * R) :=
  let height := 14 in
  let maxRadius := 5.5 in
  r1 <- Rand.random ;;
  let y := r1 * height in
  let normY := y / height in
  let currentRadius := maxRadius * (1 - normY) in
  r2 <- Rand.random ;;
  let angle := r2 * PI * 2 in
  r3 <- Rand.random ;;
  let r := currentRadius * (0.6 + r3 * 0.35) in
  let x := cos angle * r in
  let z := sin angle * r in
  let finalY := y - height / 2 in
  Rand.ret (x, finalY, z).

(** What the browser supplies to one [onChange] event of the file input:
    whether [event.target.files[0]] exists, the object URL made for it,
    the fresh [uuidv4()] and the window size. *)
Record UploadEvent : Type := mkUploadEvent {
  hasFile : bool;
  objectURL : string;
  uuid : string;
  innerWidth : R;
  innerHeight : R
}.

(** [handleFileUpload(event)] *)
Definition handleFileUpload (ev : UploadEvent) (s : State) : Rand.M State :=
  if hasFile ev then
    let url := objectURL ev in
    let newId := uuid ev in
    position <- generateTreePosition ;;
    let newImage := mkUploadedImage newId url position (Some EmptyString) in
    let w := innerWidth ev in
    let h := innerHeight ev in
    let dialogW := if JS.lt w 768 then 250 else 280 in
    let dialogH := if JS.lt w 768 then 140 else 160 in
    Rand.ret (mkState TREE None (gestureState s)
                      (images s ++ [newImage])
                      (Some newId)
                      (w / 2 - dialogW / 2,
                       h - dialogH - (if JS.lt w 768 then 60 else 120))
                      EmptyString
                      (lastGestureSwitchRef s))
  else Rand.ret s.

(** One input event of the mode state machine. *)
Inductive Event : Type :=
| GestureEv (now : Z) (state : GestureState)
| UploadEv (ev : UploadEvent).

Definition step (e : Event) (s : State) : Rand.M State :=
  match e with
  | GestureEv now state => handleGestureUpdate now state s
  | UploadEv ev => handleFileUpload ev s
  end.

(** Feeding a stream of events, oldest first; the result lists the state
    after each event. *)
Fixpoint run (es : list Event) (s : State) : Rand.M (list State) :=
  match es with
  | [] => Rand.ret []
  | e :: es' =>
      s' <- step e s ;;
      rest <- run es' s' ;;
      Rand.ret (s' :: rest)
  end.

End App.

(* ================================================================== *)
(** ** The eased blend weights shared by the per-frame callbacks *)
(* ================================================================== *)

Module Blend.

(** [let ts = 0, tn = 0;
     if (mode === SCATTER || mode === FOCUS) ts = 1;
     if (mode === NEW_YEAR) tn = 1;] *)
Definition targets (mode : AppMode) : R * R :=
  let ts := match mode with SCATTER | FOCUS => 1 | _ => 0 end in
  let tn := match mode with NEW_YEAR => 1 | _ => 0 end in
  (ts, tn).

(** The pair (scatter weight, message weight) *)
Definition Weights : Type := (R * R)%type.

(** [s = lerp(s, ts, alpha); n = lerp(n, tn, alpha)] *)
Definition ease (alpha : R) (mode : AppMode) (w : Weights) : Weights :=
  let (ts, tn) := targets mode in
  (MathUtils.lerp (fst w) ts alpha, MathUtils.lerp (snd w) tn alpha).

(** The weights after each of a run of frames, one mode per frame. *)
Fixpoint easeFrames (alpha : R) (modes : list AppMode) (w : Weights) : list Weights :=
  match modes with
  | [] => []
  | m :: modes' => let w' := ease alpha m w in w' :: easeFrames alpha modes' w'
  end.

Definition inUnit (v : R) : Prop := 0 <= v <= 1.

Definition weightsInUnit (w : Weights) : Prop := inUnit (fst w) /\ inUnit (snd w).

(** What the renderer hands to a [useFrame] callback on one frame,
    with the props the component has on that frame. *)
Record FrameIn : Type := mkFrameIn {
  f_mode : AppMode;
  f_hasInput : bool;
  f_delta : R;          (* seconds since the previous frame *)
  f_elapsed : R         (* state.clock.getElapsedTime() *)
}.

(** Running a callback over a run of frames, listing the state after
    each frame. *)
Fixpoint frames {S : Type} (useFrame : FrameIn -> S -> S)
         (ins : list FrameIn) (s : S) : list S :=
  match ins with
  | [] => []
  | i :: ins' => let s' := useFrame i s in s' :: frames useFrame ins' s'
  end.

End Blend.

(* ================================================================== *)
(** ** [TreeSystem.tsx]: foliage and spiral particles *)
(* ================================================================== *)

Module TreeSystem.

Local Open Scope rand_scope.

(** One iteration of the loop of [generateTreeData]: the entries written
    at index [i] of [positions], [chaosPositions], [sizes], [speeds]. *)
Record Foliage : Type := mkFoliage {
  fo_position : Vector3.t;
  fo_chaos : Vector3.t;
  fo_size : R;
  fo_speed : R
}.

Definition treeDatum (i : nat) : Rand.M Foliage :=
  let height := 15 in
  let maxRadius := 6 in
  r1 <- Rand.random ;;
  let y := r1 * height in
  let normY := y / height in
  let currentRadius := maxRadius * (1 - normY) in
  r2 <- Rand.random ;;
  let angle := r2 * PI * 2 * (1 + normY * 10) in
  r3 <- Rand.random ;;
  let radiusOffset := r3 * currentRadius in
  let x := cos angle * radiusOffset in
  let z := sin angle * radiusOffset in
  r4 <- Rand.random ;;
  let theta := r4 * PI * 2 in
  r5 <- Rand.random ;;
  let phi := acos (r5 * 2 - 1) in
  r6 <- Rand.random ;;
  let r := 20 + r6 * 20 in
  r7 <- Rand.random ;;
  r8 <- Rand.random ;;
  Rand.ret (mkFoliage
              (Vector3.mk x (y - height / 2) z)
              (Vector3.mk (r * sin phi * cos theta)
                          (r * sin phi * sin theta)
                          (r * cos phi))
              (r7 * 0.45 + 0.15)
              (r8 * 0.5 + 0.1)).

(** [generateTreeData(count)]; the four typed arrays are kept together
    as one record per particle. *)
Definition generateTreeData (count : nat) : Rand.M (list Foliage) :=
  Rand.loop count 0 treeDatum.

Record Spiral : Type := mkSpiral {
  sp_pos : Vector3.t;
  sp_chaos : Vector3.t;
  sp_size : R;
  sp_phase : R
}.

(** One iteration of the loop of [generateSpiralData(count)] *)
Definition spiralDatum (count : nat) (i : nat) : Rand.M Spiral :=
  let height := 16 in
  let maxRadius := 6.8 in
  let turns := 8 in
  let spiralIdx := if JS.lt (INR i) (INR count / 2) then 0 else 1 in
  let progress := JS.rem (INR i) (INR count / 2) / (INR count / 2) in
  let y := progress * height - height / 2 in
  let radius := maxRadius * (1 - progress) in
  let angle := progress * turns * PI * 2 + spiralIdx * PI in
  r1 <- Rand.random ;;
  let spread := (r1 - 0.5) * 0.4 in
  r2 <- Rand.random ;;
  r3 <- Rand.random ;;
  r4 <- Rand.random ;;
  r5 <- Rand.random ;;
  r6 <- Rand.random ;;
  r7 <- Rand.random ;;
  Rand.ret (mkSpiral
              (Vector3.mk (cos angle * (radius + spread))
                          (y + (r2 - 0.5) * 0.25)
                          (sin angle * (radius + spread)))
              (Vector3.mk ((r3 - 0.5) * 45) ((r4 - 0.5) * 45) ((r5 - 0.5) * 45))
              (r6 * 0.5 + 0.2)
              (r7 * PI * 2)).

Definition generateSpiralData (count : nat) : Rand.M (list Spiral) :=
  Rand.loop count 0 (spiralDatum count).

(** The uniforms of [FoliageMaterialConfig] / [SpiralMaterialConfig] *)
Record Uniforms : Type := mkUniforms {
  uTime : R;
  uScatter : R;
  uNewYear : R
}.

Definition initialUniforms : Uniforms := mkUniforms 0 0 0.

Definition weights (u : Uniforms) : Blend.Weights := (uScatter u, uNewYear u).






(** The [useFrame] callback of [GoldenSpirals], on its mounted shader *)
Definition GoldenSpirals_useFrame (i : Blend.FrameIn) (u : Uniforms) : Uniforms :=
  let (s, n) := Blend.ease 0.05 (Blend.f_mode i) (weights u) in
  mkUniforms (Blend.f_elapsed i) s n.

(** The [useFrame] callback of [StaticTree]: the uniforms of the mounted
    shader and [timeRef.current] *)
Definition StaticTree_useFrame (i : Blend.FrameIn) (st : Uniforms * R) : Uniforms * R :=
  let (u, timeRef) := st in
  let timeRef := if Blend.f_hasInput i then timeRef else timeRef + Blend.f_delta i in
  let time := timeRef in
  let (s, n) := Blend.ease 0.05 (Blend.f_mode i) (weights u) in
  (mkUniforms time s n, timeRef).

(** [chaosPos] of the [useMemo] of [PolaroidPhoto], for a photo whose
    [image.position] is [h]:
    [c = h.clone().normalize().multiplyScalar(15 + Math.random() * 15);
     c.y += (Math.random() - 0.5) * 10] *)
Definition photoChaosPos (h : Vector3.t) : Rand.M Vector3.t :=
  r1 <- Rand.random ;;
  let c := Vector3.multiplyScalar (Vector3.normalize h) (15 + r1 * 15) in
  r2 <- Rand.random ;;
  Rand.ret (Vector3.mk (Vector3.x c) (Vector3.y c + (r2 - 0.5) * 10) (Vector3.z c)).

End TreeSystem.

(* ================================================================== *)
(** ** [Ornaments.tsx]: instanced ornaments and lights *)
(* ================================================================== *)

Module Ornaments.

Local Open Scope rand_scope.

(** The text raster [generateNewYearPoints] samples: [None] when there is
    no [document] or no 2d context, otherwise the [decorationPool] of
    dark pixels that the scan of the canvas collects. *)
Definition Canvas : Type := option (list (R * R)).

(** [generateNewYearPoints(count, scale, zOffset, zVariation)] *)
Definition generateNewYearPoints (canvas : Canvas) (count : nat)
           (scale zOffset zVariation : R) : Rand.M (list Vector3.t) :=
  match canvas with
  | None => Rand.ret (repeat Vector3.zero count)
  | Some decorationPool =>
      let pool :=
        if (0 <? List.length decorationPool)%nat then decorationPool
        else [(512, 512)] in
      Rand.loop count 0 (fun _ =>
        r1 <- Rand.random ;;
        match JS.index pool (JS.floor (r1 * INR (List.length pool))) with
        | None => Rand.throw
        | Some coord =>
            let nx := (fst coord / 1024 - 0.5) * scale in
            let ny := (snd coord / 1024 - 0.5) * - scale in
            r2 <- Rand.random ;;
            let nz := zOffset + (r2 - 0.5) * zVariation in
            Rand.ret (Vector3.mk nx ny nz)
        end)
  end.

Record Datum : Type := mkDatum {
  treePos : Vector3.t;
  chaosPos : Vector3.t;
  nyPos : Vector3.t;
  rotation : R * R * R;
  id : nat
}.

(** One iteration of the loop of [useOrnamentData] *)
Definition ornamentDatum (scatterRadius : R) (nyPosList : list Vector3.t)
           (i : nat) : Rand.M Datum :=
  let height := 15 in
  let maxRadius := 6.0 in
  r1 <- Rand.random ;;
  let y := r1 * height in
  let radius := maxRadius * (1 - y / height) * 0.8 in
  r2 <- Rand.random ;;
  let angle := r2 * PI * 2 in
  let treePos := Vector3.mk (cos angle * radius) (y - height / 2) (sin angle * radius) in
  r3 <- Rand.random ;;
  let theta := r3 * PI * 2 in
  r4 <- Rand.random ;;
  let phi := acos (r4 * 2 - 1) in
  r5 <- Rand.random ;;
  let r := scatterRadius + r5 * 10 in
  let chaosPos := Vector3.mk (r * sin phi * cos theta)
                             (r * sin phi * sin theta)
                             (r * cos phi) in
  let nyPos := nth i nyPosList Vector3.zero in
  r6 <- Rand.random ;;
  r7 <- Rand.random ;;
  r8 <- Rand.random ;;
  Rand.ret (mkDatum treePos chaosPos nyPos (r6 * PI, r7 * PI, r8 * PI) i).

(** [useOrnamentData(count, scatterRadius, zBase, zVar)] *)
Definition useOrnamentData (canvas : Canvas) (count : nat)
           (scatterRadius zBase zVar : R) : Rand.M (list Datum) :=
  nyPosList <- generateNewYearPoints canvas count 18 zBase zVar ;;
  Rand.loop count 0 (ornamentDatum scatterRadius nyPosList).

(** [sRef], [nRef] and [timeRef] of [Ornaments] *)
Record Refs : Type := mkRefs { sRef : R; nRef : R; timeRef : R }.

Definition initialRefs : Refs := mkRefs 0 0 0.

Definition weights (r : Refs) : Blend.Weights := (sRef r, nRef r).

(** The head of the [useFrame] callback: the clock and the two weights *)
Definition useFrame (i : Blend.FrameIn) (r : Refs) : Refs :=
  let timeRef' := if Blend.f_hasInput i then timeRef r else timeRef r + Blend.f_delta i in
  let (s, n) := Blend.ease 0.05 (Blend.f_mode i) (weights r) in
  mkRefs s n timeRef'.


End Ornaments.

(* ================================================================== *)
(** ** Notions the specification uses to talk about the code *)
(* ================================================================== *)

Module Spec.

(** The landmark array of the first detected hand, if any *)
Definition hand (results : option GestureControl.HandLandmarkerResult)
  : option (list GestureControl.Landmark) :=
  match results with
  | Some res => hd_error (GestureControl.landmarks res)
  | None => None
  end.

(** Euclidean distance of two landmarks in the image plane *)
Definition planeDistance (p q : GestureControl.Landmark) : R :=
  sqrt ((GestureControl.lx p - GestureControl.lx q) ^ 2
        + (GestureControl.ly p - GestureControl.ly q) ^ 2).

(** The YEAH thresholds of the classifier *)
Definition yeahShape (lm : list GestureControl.Landmark) : Prop :=
  GestureControl.distIndex lm > 0.35 /\ GestureControl.distMiddle lm > 0.35 /\
  GestureControl.distRing lm < 0.25 /\ GestureControl.distPinky lm < 0.25.

(** The three fields of the state that a mode transition writes *)
Definition modeFields (s : App.State) : AppMode * option string * Z :=
  (App.mode s, App.focusId s, App.lastGestureSwitchRef s).

(** What an accepted transition looks like: the gesture, the mode entered,
    the focus selection written, and the random draws consumed. *)
Definition acceptedShape (src : Rand.Source) (k : nat) (g : GestureState)
           (s s' : App.State) (k' : nat) : Prop :=
  (gs_gesture g = FIST /\ App.mode s' = TREE /\ App.focusId s' = None /\ k' = k) \/
  (gs_gesture g = OPEN_PALM /\ App.mode s' = SCATTER /\ App.focusId s' = None /\ k' = k) \/
  (gs_gesture g = YEAH /\ App.mode s' = NEW_YEAR /\ App.focusId s' = None /\ k' = k) \/
  (gs_gesture g = PINCH /\ App.mode s' = FOCUS /\ App.images s <> [] /\ k' = S k /\
   exists img,
     JS.index (App.images s) (JS.floor (src k * INR (List.length (App.images s))))
       = Some img /\
     App.focusId s' = Some (img_id img)).

(** The state [s] with mode, focus selection and debounce timestamp
    replaced *)
Definition withModeFields (m : AppMode) (f : option string) (t : Z)
           (s : App.State) : App.State :=
  App.mkState m f (App.gestureState s) (App.images s) (App.editingId s)
              (App.dialogPos s) (App.nameRef s) t.

(** A home position on the photo cone: height in [-7, 7), and distance
    from the axis a fraction in [0.6, 0.95) of the cone radius
    [5.5 * (1 - (y + 7) / 14)] at that height. *)
Definition onPhotoCone (p : R * R * R) : Prop :=
  let '(x, y, z) := p in
  -7 <= y < 7 /\
  exists c, 0.6 <= c < 0.95 /\
            x * x + z * z = (5.5 * (1 - (y + 7) / 14) * c) ^ 2.

(** A point at distance [r] from the origin in direction
    ([theta], [phi]) of spherical coordinates *)
Definition spherical (r theta phi : R) : Vector3.t :=
  Vector3.mk (r * sin phi * cos theta) (r * sin phi * sin theta) (r * cos phi).

(** The norm of a position lies on the shell of radii
    [base .. base + extra]. *)
Definition onShell (base extra : R) (v : Vector3.t) : Prop :=
  base <= Vector3.length v <= base + extra.

(** A position inside the axis-aligned cube of half side [h] *)
Definition inCube (h : R) (v : Vector3.t) : Prop :=
  - h <= Vector3.x v < h /\ - h <= Vector3.y v < h /\ - h <= Vector3.z v < h.

End Spec.

(* ================================================================== *)
(** ** Concrete inputs used by the examples below *)
(* ================================================================== *)

Module Sample.

Import GestureControl.

(** A hand whose index and middle tips are 0.36 from the wrist and whose
    ring and pinky tips are 0.05 from it: both the FIST threshold
    (mean 0.205) and the YEAH thresholds hold. *)
Definition wristPt : Landmark := mkLandmark 0.5 0.5 0.
Definition farTip : Landmark := mkLandmark 0.86 0.5 0.
Definition nearTip : Landmark := mkLandmark 0.55 0.5 0.

Definition fistAndYeah : list Landmark :=
  [ wristPt; wristPt; wristPt; wristPt; wristPt;
    wristPt; wristPt; wristPt; farTip;  wristPt;
    wristPt; wristPt; farTip;  wristPt; wristPt;
    wristPt; nearTip; wristPt; wristPt; wristPt;
    nearTip ].

Definition fistAndYeahResult : option HandLandmarkerResult :=
  Some (mkResult [fistAndYeah]).

(** A random source that always returns 1/2 *)
Definition half : Rand.Source := fun _ => 0.5.

(** A random source that always returns 0 *)
Definition zeros : Rand.Source := fun _ => 0.

(** Gesture summaries of a detected hand *)
Definition palm : GestureState := mkGestureState 0.1 (-0.2) 0.2 true OPEN_PALM.
Definition fist : GestureState := mkGestureState 0.1 (-0.2) 0.2 true FIST.
Definition pinch : GestureState := mkGestureState 0 0 0.2 true PINCH.

(** Three photos on the tree *)
Definition photoA : UploadedImage := mkUploadedImage "a" "blob:a" (1, 2, 0) (Some "A"%string).
Definition photoB : UploadedImage := mkUploadedImage "b" "blob:b" (0, -3, 2) (Some "B"%string).
Definition photoC : UploadedImage := mkUploadedImage "c" "blob:c" (-1, 5, 0) (Some "C"%string).

(** The scattered scene with three photos, last switched at 5000 ms *)
Definition scattered : App.State :=
  App.mkState SCATTER None palm [photoA; photoB; photoC] None (0, 0) EmptyString 5000%Z.

(** The same scene focused on photo C *)
Definition focused : App.State :=
  App.mkState FOCUS (Some "c"%string) pinch [photoA; photoB; photoC] None (0, 0)
              EmptyString 7000%Z.

(** The scattered scene while the caption of photo C is being edited *)
Definition captioning : App.State :=
  App.mkState SCATTER None palm [photoA; photoB; photoC] (Some "c"%string) (100, 200)
              EmptyString 5000%Z.





(** Four frames that flap through the modes *)
Definition flapping : list Blend.FrameIn :=
  [ Blend.mkFrameIn SCATTER false 0.016 0.016;
    Blend.mkFrameIn NEW_YEAR false 0.016 0.032;
    Blend.mkFrameIn TREE false 0.016 0.048;
    Blend.mkFrameIn FOCUS false 0.016 0.064 ].

(** A file picked in a 1280 x 720 window *)
Definition upload : App.UploadEvent :=
  App.mkUploadEvent true "blob:d" "d" 1280 720.

End Sample.

(* ================================================================== *)
(** ** [App.tsx]: playlist, volume fade and caption dialog *)
(* ================================================================== *)

Module Player.

Record Track : Type := mkTrack {
  track_id : string;
  track_name : string;
  track_url : string
}.

(** A [File] picked in the playlist import input, with the [uuidv4()] and
    the object URL made for it *)
Record AudioFile : Type := mkAudioFile {
  file_uuid : string;
  file_name : string;
  file_objectURL : string
}.

(** [playlist] and [currentTrackIndex] *)
Record State : Type := mkState {
  playlist : list Track;
  currentTrackIndex : Z
}.

Definition BACKGROUND_MUSIC_SRC : string :=
  "https://www.dropbox.com/scl/fi/x9um45qqfb00dbf70vttr/Pastlives.mp3?rlkey=55utc8ph38imksvxqqn9vrdtx&st=qivvio3u&raw=1".

Definition initial : State :=
  mkState [mkTrack "default" "Pastlives (Dropbox)" BACKGROUND_MUSIC_SRC] 0.

(** The updater [(prev) => (prev + 1) % playlist.length] of a
    [handleNextTrack] made on a render whose playlist has [len] tracks *)
Definition nextIndex (len prev : Z) : Z := Z.rem (prev + 1) len.

(** The updater [(prev) => (prev - 1 + playlist.length) % playlist.length] *)
Definition prevIndex (len prev : Z) : Z := Z.rem (prev - 1 + len) len.

(** [handleNextTrack()] of the current render *)
Definition handleNextTrack (s : State) : State :=
  mkState (playlist s)
          (nextIndex (Z.of_nat (List.length (playlist s))) (currentTrackIndex s)).

(** [handlePrevTrack()] of the current render *)
Definition handlePrevTrack (s : State) : State :=
  mkState (playlist s)
          (prevIndex (Z.of_nat (List.length (playlist s))) (currentTrackIndex s)).

(** [audio.onended], set once by the mount effect (dependency list [[]]):
    it calls the [handleNextTrack] of the first render, whose
    [playlist.length] is that of the initial playlist. *)
Definition onended (s : State) : State :=
  mkState (playlist s)
          (nextIndex (Z.of_nat (List.length (playlist initial))) (currentTrackIndex s)).

(** [handleMusicUpload(event)] for the picked files *)
Definition handleMusicUpload (files : list AudioFile) (s : State) : State :=
  if (0 <? List.length files)%nat then
    let newTracks :=
      map (fun file => mkTrack (file_uuid file) (file_name file) (file_objectURL file))
          files in
    mkState (playlist s ++ newTracks) (currentTrackIndex s)
  else s.

(** The click handler of the [idx]-th playlist button:
    [setCurrentTrackIndex(idx)] *)
Definition selectTrack (idx : nat) (s : State) : State :=
  mkState (playlist s) (Z.of_nat idx).

Inductive Event : Type :=
| Next
| Prev
| Ended
| Select (idx : nat)
| Import (files : list AudioFile).

Definition step (e : Event) (s : State) : State :=
  match e with
  | Next => handleNextTrack s
  | Prev => handlePrevTrack s
  | Ended => onended s
  | Select idx => selectTrack idx s
  | Import files => handleMusicUpload files s
  end.

(** The panel renders one button per track, so a click can only select
    an index of the playlist shown. *)
Definition offered (e : Event) (s : State) : Prop :=
  match e with
  | Select idx => (idx < List.length (playlist s))%nat
  | _ => True
  end.

(** A run of events, each one offered by the state it meets *)
Inductive runs : State -> list Event -> State -> Prop :=
| runs_nil : forall s, runs s [] s
| runs_cons : forall s e es s',
    offered e s -> runs (step e s) es s' -> runs s (e :: es) s'.

(** [playlist[currentTrackIndex]], which every render dereferences *)
Definition currentTrack (s : State) : option Track :=
  JS.index (playlist s) (currentTrackIndex s).

End Player.

Module Audio.

(** [targetVolume] of the fade effect *)
Definition targetVolume (s : App.State) : R :=
  let isInteracting :=
    JS.truthy (App.editingId s)
    || (AppMode_eqb (App.mode s) FOCUS && JS.truthy (App.focusId s)) in
  if isInteracting then 0.1 else 0.4.

(** [audio.volume] and whether the fade interval is still scheduled *)
Record Fade : Type := mkFade { volume : R; ticking : bool }.

(** One run of the interval callback (every 50 ms) *)
Definition tick (targetVolume : R) (f : Fade) : Fade :=
  if ticking f then
    let current := volume f in
    let diff := targetVolume - current in
    if JS.lt (Rabs diff) 0.01 then mkFade targetVolume false
    else mkFade (current + diff * 0.1) true
  else f.

Fixpoint ticks (n : nat) (targetVolume : R) (f : Fade) : Fade :=
  match n with
  | O => f
  | S n' => ticks n' targetVolume (tick targetVolume f)
  end.

(** The effect body: a new interval is scheduled on the current volume. *)
Definition startFade (volume : R) : Fade := mkFade volume true.

End Audio.

Module Session.

Local Open Scope rand_scope.

(** [id === v] for a string [id] and a [string | null] value [v] *)
Definition sameId (id : string) (v : option string) : bool :=
  match v with
  | Some e => String.eqb id e
  | None => false
  end.

Section Trim.

(** [String.prototype.trim] *)
Variable trim : string -> string.

(** The [onChange] handler of the caption input *)
Definition onNameChange (value : string) (s : App.State) : App.State :=
  App.mkState (App.mode s) (App.focusId s) (App.gestureState s) (App.images s)
              (App.editingId s) (App.dialogPos s) value (App.lastGestureSwitchRef s).

(** [handleNameSubmit()] *)
Definition handleNameSubmit (s : App.State) : App.State :=
  if negb (JS.truthy (App.editingId s)) then s
  else
    let finalName := trim (App.nameRef s) in
    App.mkState (App.mode s) (App.focusId s) (App.gestureState s)
                (map (fun img =>
                        if sameId (img_id img) (App.editingId s)
                        then mkUploadedImage (img_id img) (img_url img)
                                             (img_position img) (Some finalName)
                        else img)
                     (App.images s))
                None (App.dialogPos s) EmptyString (App.lastGestureSwitchRef s).

(** [handleCloseDialog()] *)
Definition handleCloseDialog (s : App.State) : App.State :=
  if negb (JS.truthy (App.editingId s)) then s
  else
    App.mkState (App.mode s) (App.focusId s) (App.gestureState s)
                (filter (fun img => negb (sameId (img_id img) (App.editingId s)))
                        (App.images s))
                None (App.dialogPos s) EmptyString (App.lastGestureSwitchRef s).

(** Everything that can happen to the mode state machine *)
Inductive Event : Type :=
| Gesture (now : Z) (state : GestureState)
| Upload (ev : App.UploadEvent)
| NameChange (value : string)
| Submit
| Close.

Definition step (e : Event) (s : App.State) : Rand.M App.State :=
  match e with
  | Gesture now state => App.handleGestureUpdate now state s
  | Upload ev => App.handleFileUpload ev s
  | NameChange value => Rand.ret (onNameChange value s)
  | Submit => Rand.ret (handleNameSubmit s)
  | Close => Rand.ret (handleCloseDialog s)
  end.

(** The state after a run of events, oldest first *)
Fixpoint exec (es : list Event) (s : App.State) : Rand.M App.State :=
  match es with
  | [] => Rand.ret s
  | e :: es' => s' <- step e s ;; exec es' s'
  end.

End Trim.

(** The invariant of the mode state machine: the caption dialog is open
    only in TREE mode, and a photo is selected exactly in FOCUS mode, where
    it is one of the photos on the tree. *)
Definition consistent (s : App.State) : Prop :=
  (JS.truthy (App.editingId s) = true -> App.mode s = TREE) /\
  (App.mode s = FOCUS ->
   exists img, In img (App.images s) /\ App.focusId s = Some (img_id img)) /\
  (App.mode s <> FOCUS -> App.focusId s = None).

(** No photo on the tree has the id [id]. *)
Definition freshId (id : string) (s : App.State) : Prop :=
  forall img, In img (App.images s) -> img_id img <> id.

End Session.

(* ================================================================== *)
(** ** From a video frame to the mode state machine *)
(* ================================================================== *)

Module Pipeline.

(** One run of [predictWebcam] whose [onGestureUpdate] is
    [handleGestureUpdate] *)
Definition onFrame (now : Z) (f : GestureControl.Frame) (s : App.State)
  : Rand.M App.State :=
  match GestureControl.predictWebcam f with
  | Some state => App.handleGestureUpdate now state s
  | None => Rand.ret s
  end.

(** A frame on which no hand of at least 21 landmarks is seen: detection
    was not reached, or found no hand, or too few points *)
Definition noHand (f : GestureControl.Frame) : Prop :=
  match f with
  | GestureControl.Detected results =>
      match Spec.hand results with
      | Some lm => (List.length lm < 21)%nat
      | None => True
      end
  | _ => True
  end.

(** [stopWebcam()], which reports the not-detected summary *)
Definition onStopWebcam (now : Z) (s : App.State) : Rand.M App.State :=
  App.handleGestureUpdate now GestureControl.stopWebcam s.

End Pipeline.

(* ================================================================== *)
(** ** Moving and mirroring a hand *)
(* ================================================================== *)

Module Hands.

(** The landmark [p] moved by ([dx], [dy], [dz]) *)
Definition translate (dx dy dz : R) (p : GestureControl.Landmark)
  : GestureControl.Landmark :=
  GestureControl.mkLandmark (GestureControl.lx p + dx) (GestureControl.ly p + dy)
                            (GestureControl.lz p + dz).

(** The landmark [p] mirrored left to right in the unit image *)
Definition mirror (p : GestureControl.Landmark) : GestureControl.Landmark :=
  GestureControl.mkLandmark (1 - GestureControl.lx p) (GestureControl.ly p)
                            (GestureControl.lz p).

(** Two landmarks at the same place of the image plane *)
Definition samePlanePoint (p q : GestureControl.Landmark) : Prop :=
  GestureControl.lx p = GestureControl.lx q /\ GestureControl.ly p = GestureControl.ly q.

(** Landmarks with x and y in the unit square, as the detector reports
    points inside the image *)
Definition inImage (lm : list GestureControl.Landmark) : Prop :=
  Forall (fun p => 0 <= GestureControl.lx p <= 1 /\ 0 <= GestureControl.ly p <= 1) lm.

(** The detection result with the single hand [lm] *)
Definition oneHand (lm : list GestureControl.Landmark)
  : option GestureControl.HandLandmarkerResult :=
  Some (GestureControl.mkResult [lm]).

End Hands.

(* ================================================================== *)
(** ** More of three.js *)
(* ================================================================== *)

Module Three.

(** [THREE.MathUtils.mapLinear(x, a1, a2, b1, b2)] *)
Definition mapLinear (x a1 a2 b1 b2 : R) : R :=
  b1 + (x - a1) * (b2 - b1) / (a2 - a1).

(** [new THREE.Vector3().subVectors(a, b)] *)
Definition subVectors (a b : Vector3.t) : Vector3.t :=
  Vector3.mk (Vector3.x a - Vector3.x b) (Vector3.y a - Vector3.y b)
             (Vector3.z a - Vector3.z b).

(** [a.distanceTo(b)] *)
Definition distanceTo (a b : Vector3.t) : R :=
  let dx := Vector3.x a - Vector3.x b in
  let dy := Vector3.y a - Vector3.y b in
  let dz := Vector3.z a - Vector3.z b in
  sqrt (dx * dx + dy * dy + dz * dz).

(** [this.lerp(v, alpha)]: [this.x += (v.x - this.x) * alpha], ... *)
Definition lerp (this v : Vector3.t) (alpha : R) : Vector3.t :=
  Vector3.mk (Vector3.x this + (Vector3.x v - Vector3.x this) * alpha)
             (Vector3.y this + (Vector3.y v - Vector3.y this) * alpha)
             (Vector3.z this + (Vector3.z v - Vector3.z this) * alpha).

End Three.

(* ================================================================== *)
(** ** [Experience.tsx]: camera zoom and scene rotation *)
(* ================================================================== *)

Module Experience.

Definition baseZ : R := 38.

Definition defaultLookAt : Vector3.t := Vector3.mk 0 0 0.

(** [currentZoomZ], [lastMode] and [camera.position] *)
Record Camera : Type := mkCamera {
  currentZoomZ : R;
  lastMode : AppMode;
  position : Vector3.t
}.

(** The refs of the first render (mode TREE) and the camera of the
    [Canvas], at [0, 0, 38] *)
Definition initialCamera : Camera := mkCamera baseZ TREE (Vector3.mk 0 0 38).

(** [targetZ] for a detected hand of size [handSize] (for a number,
    [handSize || 0] is [handSize]) *)
Definition targetZ (handSize : R) : R :=
  Three.mapLinear (MathUtils.clamp handSize 0.08 0.45) 0.08 0.45 65 12.

(** The first statement of the [useFrame] callback of [CameraController]:
    the new [currentZoomZ.current] *)
Definition zoomStep (gestureState : GestureState) (zoom : R) : R :=
  if gs_isDetected gestureState
  then MathUtils.lerp zoom (targetZ (gs_handSize gestureState)) 0.05
  else MathUtils.lerp zoom baseZ 0.05.

(** The [useFrame] callback of [CameraController] *)
Definition CameraController_useFrame (mode : AppMode) (gestureState : GestureState)
           (c : Camera) : Camera :=
  let zoom := zoomStep gestureState (currentZoomZ c) in
  if AppMode_eqb mode NEW_YEAR then
    let isInitialTransition := negb (AppMode_eqb (lastMode c) NEW_YEAR) in
    let lerpFactor := if isInitialTransition then 0.15 else 0.02 in
    let targetPos := Vector3.mk 0 0 zoom in
    let pos :=
      if JS.gt (Three.distanceTo (position c) targetPos) 0.01
      then Three.lerp (position c) targetPos lerpFactor
      else position c in
    let lastMode' :=
      if isInitialTransition && JS.lt (Three.distanceTo pos targetPos) 0.1
      then NEW_YEAR else lastMode c in
    mkCamera zoom lastMode' pos
  else
    let pos :=
      if gs_isDetected gestureState && negb (AppMode_eqb mode FOCUS) then
        let currentDir :=
          Vector3.normalize (Three.subVectors (position c) defaultLookAt) in
        let targetPos := Vector3.multiplyScalar currentDir zoom in
        Three.lerp (position c) targetPos 0.05
      else position c in
    mkCamera zoom mode pos.

(** The zoom ref over a run of frames, one gesture summary per frame *)
Fixpoint zoomFrames (gs : list GestureState) (zoom : R) : list R :=
  match gs with
  | [] => []
  | g :: gs' => let z := zoomStep g zoom in z :: zoomFrames gs' z
  end.

(** [groupRef.current.rotation] of [SceneGroup] *)
Record Rotation : Type := mkRotation { rot_x : R; rot_y : R; rot_z : R }.

(** [shouldFreezeScene] of [Experience] *)
Definition shouldFreezeScene (editingId : option string) (mode : AppMode) : bool :=
  JS.truthy editingId || AppMode_eqb mode FOCUS.

(** The props and pointer position [SceneGroup] sees on one frame *)
Record SceneIn : Type := mkSceneIn {
  sc_mode : AppMode;
  sc_gestureState : GestureState;
  sc_isFrozen : bool;
  sc_mouse_x : R;
  sc_mouse_y : R
}.

(** The [useFrame] callback of [SceneGroup] *)
Definition SceneGroup_useFrame (i : SceneIn) (r : Rotation) : Rotation :=
  if AppMode_eqb (sc_mode i) NEW_YEAR then
    let lerpFactor := 0.1 in
    mkRotation (MathUtils.lerp (rot_x r) 0 lerpFactor)
               (MathUtils.lerp (rot_y r) 0 lerpFactor)
               (MathUtils.lerp (rot_z r) 0 lerpFactor)
  else if negb (sc_isFrozen i) then
    if AppMode_eqb (sc_mode i) TREE then
      let lerpFactor := 0.05 in
      mkRotation (MathUtils.lerp (rot_x r) 0 lerpFactor)
                 (MathUtils.lerp (rot_y r) 0 lerpFactor)
                 (MathUtils.lerp (rot_z r) 0 lerpFactor)
    else
      let targetRotY :=
        if gs_isDetected (sc_gestureState i) then gs_x (sc_gestureState i) * 1.5
        else sc_mouse_x i * 0.3 in
      let targetRotX :=
        if gs_isDetected (sc_gestureState i) then gs_y (sc_gestureState i) * 0.5
        else sc_mouse_y i * 0.1 in
      let lf := 0.05 in
      mkRotation (MathUtils.lerp (rot_x r) targetRotX lf)
                 (MathUtils.lerp (rot_y r) targetRotY lf)
                 (MathUtils.lerp (rot_z r) 0 lf)
  else r.

Fixpoint sceneFrames (ins : list SceneIn) (r : Rotation) : list Rotation :=
  match ins with
  | [] => []
  | i :: ins' => let r' := SceneGroup_useFrame i r in r' :: sceneFrames ins' r'
  end.

(** Frame inputs whose pointer and gesture coordinates are normalised to
    [-1, 1], as the renderer and the landmark normaliser produce them *)
Definition normalisedInput (i : SceneIn) : Prop :=
  -1 <= sc_mouse_x i <= 1 /\ -1 <= sc_mouse_y i <= 1 /\
  -1 <= gs_x (sc_gestureState i) <= 1 /\ -1 <= gs_y (sc_gestureState i) <= 1.

(** A rotation within the reach of the gesture control *)
Definition withinReach (r : Rotation) : Prop :=
  Rabs (rot_x r) <= 0.5 /\ Rabs (rot_y r) <= 1.5.

End Experience.

(* ================================================================== *)
(** ** [TreeSystem.tsx]: the hero star *)
(* ================================================================== *)

Module HeroStar.

(** [targetPos] for the mode *)
Definition targetPos (mode : AppMode) : Vector3.t :=
  match mode with
  | TREE => Vector3.mk 0 8.8 0
  | SCATTER | FOCUS => Vector3.mk 0 0 0
  | NEW_YEAR => Vector3.mk 0 4.3 0.5
  end.

(** Position, [rotation.y] and uniform scale of the star group *)
Record Star : Type := mkStar { position : Vector3.t; rotation_y : R; scale : R }.

(** The [useFrame] callback, with [time = state.clock.getElapsedTime()] *)
Definition useFrame (mode : AppMode) (time : R) (st : Star) : Star :=
  let lerpSpeed := 0.05 in
  let baseScale :=
    match mode with
    | SCATTER => 0.95
    | FOCUS => 1.15
    | NEW_YEAR => 0.75
    | TREE => 0.75
    end in
  let isSteady := AppMode_eqb mode FOCUS in
  let twinkle := if isSteady then 1.0 else 1.0 + sin (time * 2.5) * 0.08 in
  mkStar (Three.lerp (position st) (targetPos mode) lerpSpeed)
         (time * 0.4)
         (baseScale * twinkle).

(** A run of frames in one mode, at the given clock readings *)
Fixpoint frames (mode : AppMode) (times : list R) (st : Star) : Star :=
  match times with
  | [] => st
  | t :: times' => frames mode times' (useFrame mode t st)
  end.

End HeroStar.

(* ================================================================== *)
(** ** Dragging the caption dialog and the gesture guide *)
(* ================================================================== *)

Module Dialog.

(** [measured || fallback] for an [offsetWidth] that may be missing or 0 *)
Definition orElse (measured : option R) (fallback : R) : R :=
  match measured with
  | Some v => if Req_dec_T v 0 then fallback else v
  | None => fallback
  end.

(** [Math.max(10, Math.min(limit - size - 10, v))] *)
Definition clampAxis (limit size v : R) : R := Rmax 10 (Rmin (limit - size - 10) v).

(** The window and the measured size of the dragged element *)
Record Viewport : Type := mkViewport {
  innerWidth : R;
  innerHeight : R;
  offsetWidth : option R;
  offsetHeight : option R
}.

(** [dialogPos], [isDraggingDialog] and [dialogDragOffset] of [App] *)
Record State : Type := mkState {
  pos : R * R;
  isDragging : bool;
  dragOffset : R * R
}.

(** [onDialogDragStart(e)] for a pointer at ([clientX], [clientY]) *)
Definition onDialogDragStart (clientX clientY : R) (s : State) : State :=
  mkState (pos s) true (clientX - fst (pos s), clientY - snd (pos s)).

(** [handleMove(e)] of the drag effect *)
Definition handleMove (vp : Viewport) (clientX clientY : R) (s : State) : State :=
  if negb (isDragging s) then s
  else
    let newX := clientX - fst (dragOffset s) in
    let newY := clientY - snd (dragOffset s) in
    let w := innerWidth vp in
    let h := innerHeight vp in
    let dw := orElse (offsetWidth vp) 250 in
    let dh := orElse (offsetHeight vp) 140 in
    mkState (clampAxis w dw newX, clampAxis h dh newY) true (dragOffset s).

(** [handleEnd()] *)
Definition handleEnd (s : State) : State := mkState (pos s) false (dragOffset s).

(** [clampToViewport(x, y)] of the first [GestureInfoPanel] *)
Definition clampToViewport (vp : Viewport) (x y : R) : R * R :=
  let w := innerWidth vp in
  let h := innerHeight vp in
  let panelW :=
    orElse (offsetWidth vp)
           (if Rle_dec 1024 w then 460 else if Rle_dec 768 w then 420 else 260) in
  let panelH := orElse (offsetHeight vp) (if Rle_dec 768 w then 120 else 85) in
  (clampAxis w panelW x, clampAxis h panelH y).

(** The element of size [dw] x [dh] at [p] lies inside the window with a
    margin of 10 on every side. *)
Definition onScreen (w h dw dh : R) (p : R * R) : Prop :=
  10 <= fst p /\ fst p + dw <= w - 10 /\ 10 <= snd p /\ snd p + dh <= h - 10.

End Dialog.

(* ================================================================== *)
(** ** Text sampler: scanning the canvas and drawing message points *)
(* ================================================================== *)

Module Raster.

(** [ctx.getImageData(0, 0, 1024, 1024).data]: the channel value stored
    at each index of the 1024 x 1024 RGBA buffer *)
Definition ImageData : Type := nat -> Z.

(** The values [v] of [for (let v = lo; v < hi; v += step)] *)
Definition forRange (lo hi step : nat) : list nat :=
  map (fun a => lo + a * step)%nat (seq 0 ((hi - lo + step - 1) / step)).

(** The two nested scan loops over rows [ylo .. yhi) and columns
    [xlo .. xhi) with step 2: the coordinates [[x, y]] whose red channel
    [pix[(y * 1024 + x) * 4]] is below 128, in scan order *)
Definition scan (xlo xhi ylo yhi : nat) (pix : ImageData) : list (R * R) :=
  flat_map (fun y =>
    flat_map (fun x =>
      let idx := ((y * 1024 + x) * 4)%nat in
      if (pix idx <? 128)%Z then [(INR x, INR y)] else [])
      (forRange xlo xhi 2))
    (forRange ylo yhi 2).

(** [validCoords] of [generateNewYearPoints] in [TreeSystem.tsx]: the
    whole canvas *)
Definition validCoords (pix : ImageData) : list (R * R) := scan 0 1024 0 1024 pix.

(** [decorationPool] of [generateNewYearPoints] in [Ornaments.tsx]: the
    canvas without its margins *)
Definition decorationPool (pix : ImageData) : list (R * R) := scan 50 974 100 924 pix.

(** The canvas handed to [Ornaments.generateNewYearPoints]: none without
    a [document] or a 2d context, otherwise the pool scanned from it *)
Definition ornamentCanvas (canvas : option ImageData) : Ornaments.Canvas :=
  option_map decorationPool canvas.

(** A pixel coordinate pair inside the 1024 x 1024 canvas *)
Definition onCanvas (c : R * R) : Prop :=
  0 <= fst c <= 1024 /\ 0 <= snd c <= 1024.

(** A point of the text plane of side [scale] whose depth is within
    [depth] of [z0] *)
Definition inTextBox (scale z0 depth : R) (v : Vector3.t) : Prop :=
  - scale / 2 <= Vector3.x v <= scale / 2 /\
  - scale / 2 <= Vector3.y v <= scale / 2 /\
  z0 - depth <= Vector3.z v <= z0 + depth.

End Raster.

Module Message.

Local Open Scope rand_scope.

(** [generateNewYearPoints(count, scale, auraStart, zThickness)] of
    [TreeSystem.tsx], one vector per particle instead of three floats;
    [auraStart = None] stands for [Infinity]. *)
Definition generateNewYearPoints (canvas : option Raster.ImageData) (count : nat)
           (scale : R) (auraStart : option nat) (zThickness : R)
  : Rand.M (list Vector3.t) :=
  match canvas with
  | None => Rand.ret (repeat Vector3.zero count)
  | Some pix =>
      let validCoords := Raster.validCoords pix in
      let pool :=
        if (0 <? List.length validCoords)%nat then validCoords else [(512, 512)] in
      Rand.loop count 0 (fun i =>
        r1 <- Rand.random ;;
        match JS.index pool (JS.floor (r1 * INR (List.length pool))) with
        | None => Rand.throw
        | Some coord =>
            let nx := (fst coord / 1024 - 0.5) * scale in
            let ny := (snd coord / 1024 - 0.5) * - scale in
            r2 <- Rand.random ;;
            let nz := (r2 - 0.5) * zThickness in
            if match auraStart with Some a => (a <=? i)%nat | None => false end then
              r3 <- Rand.random ;;
              let angle := r3 * PI * 2 in
              r4 <- Rand.random ;;
              let dist := 0.2 + r4 * 0.5 in
              r5 <- Rand.random ;;
              Rand.ret (Vector3.mk (nx + cos angle * dist)
                                   (ny + sin angle * dist)
                                   (nz + (r5 - 0.5) * 1.5))
            else Rand.ret (Vector3.mk nx ny nz)
        end)
  end.

(** The formation of a photo card, the [useMemo] of [PolaroidPhoto]:
    chaos position, initial rotation and message position for the home
    position [h].  An index outside [rawPoints] reads [undefined], for
    which the [Vector3] constructor takes its default 0. *)
Definition photoFormation (canvas : option Raster.ImageData) (h : Vector3.t)
  : Rand.M (Vector3.t * (R * R * R) * Vector3.t) :=
  c <- TreeSystem.photoChaosPos h ;;
  r3 <- Rand.random ;;
  r4 <- Rand.random ;;
  r5 <- Rand.random ;;
  let rot := ((r3 - 0.5) * 0.3, (r4 - 0.5) * 0.5, (r5 - 0.5) * 0.2) in
  rawPoints <- generateNewYearPoints canvas 100 18 None 0.1 ;;
  r6 <- Rand.random ;;
  let pIdx := JS.floor (r6 * 100) in
  let ny :=
    match JS.index rawPoints pIdx with
    | Some p => Vector3.mk (Vector3.x p) (Vector3.y p) (-0.2)
    | None => Vector3.mk 0 0 (-0.2)
    end in
  Rand.ret (c, rot, ny).


End Message.

(* ================================================================== *)
(** ** Shapes of the tree formations *)
(* ================================================================== *)

Module Shape.

(** A point of the solid cone of height [H] and base radius [R] standing
    on the plane [y = - H / 2] *)
Definition inCone (H R : R) (p : Vector3.t) : Prop :=
  - H / 2 <= Vector3.y p < H / 2 /\
  Vector3.x p * Vector3.x p + Vector3.z p * Vector3.z p
  <= (R * (1 - (Vector3.y p + H / 2) / H)) ^ 2.

(** A point on the surface of that cone *)
Definition onCone (H R : R) (p : Vector3.t) : Prop :=
  - H / 2 <= Vector3.y p < H / 2 /\
  Vector3.x p * Vector3.x p + Vector3.z p * Vector3.z p
  = (R * (1 - (Vector3.y p + H / 2) / H)) ^ 2.

(** The point [p] turned by half a turn about the vertical axis *)
Definition halfTurn (p : Vector3.t) : Vector3.t :=
  Vector3.mk (- Vector3.x p) (Vector3.y p) (- Vector3.z p).

(** The point of the first spiral arm of [generateSpiralData] at
    [progress] along the arm, moved by [spread] away from the axis and by
    [dy] in height: eight turns that climb from -8 to 8 while the radius
    shrinks from 6.8 to 0 *)
Definition spiralPoint (progress spread dy : R) : Vector3.t :=
  let angle := progress * 8 * PI * 2 in
  let radius := 6.8 * (1 - progress) in
  Vector3.mk (cos angle * (radius + spread))
             (progress * 16 - 16 / 2 + dy)
             (sin angle * (radius + spread)).

End Shape.

(* ================================================================== *)
(** ** [Ornaments.tsx]: merging geometries, instance scale *)
(* ================================================================== *)

Module Geometry.

(** A [THREE.BufferGeometry] as [mergeGeometries] reads it: the vertex
    attributes, one entry per vertex, and the index *)
Record BufferGeometry : Type := mkGeometry {
  position : option (list Vector3.t);
  normal : option (list Vector3.t);
  uv : option (list (R * R));
  index : option (list nat)
}.

(** The accumulators [positions], [normals], [uvs], [indices] and
    [vertexOffset]; an entry read past the end of an attribute is
    [undefined] *)
Record Acc : Type := mkAcc {
  positions : list Vector3.t;
  normals : list (option Vector3.t);
  uvs : list (option (R * R));
  indices : list nat;
  vertexOffset : nat
}.

Definition emptyAcc : Acc := mkAcc [] [] [] [] 0.

(** The body of [geometries.forEach] *)
Definition addGeometry (acc : Acc) (geo : option BufferGeometry) : Acc :=
  match geo with
  | None => acc
  | Some g =>
      match position g with
      | None => acc
      | Some posAttr =>
          let count := List.length posAttr in
          mkAcc (positions acc ++ posAttr)
                (normals acc ++
                   match normal g with
                   | Some normAttr => map (fun i => nth_error normAttr i) (seq 0 count)
                   | None => []
                   end)
                (uvs acc ++
                   match uv g with
                   | Some uvAttr => map (fun i => nth_error uvAttr i) (seq 0 count)
                   | None => []
                   end)
                (indices acc ++
                   match index g with
                   | Some indexAttr => map (fun v => v + vertexOffset acc)%nat indexAttr
                   | None => map (fun i => i + vertexOffset acc)%nat (seq 0 count)
                   end)
                (vertexOffset acc + count)
      end
  end.

(** The merged geometry: attributes that were set, and the index *)
Record Merged : Type := mkMerged {
  m_position : option (list Vector3.t);
  m_normal : option (list (option Vector3.t));
  m_uv : option (list (option (R * R)));
  m_index : option (list nat)
}.

(** [mergeGeometries(geometries)] *)
Definition mergeGeometries (geometries : option (list (option BufferGeometry)))
  : Merged :=
  match geometries with
  | None | Some [] => mkMerged None None None None
  | Some gs =>
      let acc := fold_left addGeometry gs emptyAcc in
      mkMerged (Some (positions acc))
               (if (0 <? List.length (normals acc))%nat then Some (normals acc) else None)
               (if (0 <? List.length (uvs acc))%nat then Some (uvs acc) else None)
               (Some (indices acc))
  end.

(** The number of vertices of a geometry that has positions *)
Definition vertexCount (geo : option BufferGeometry) : nat :=
  match geo with
  | Some g => match position g with Some p => List.length p | None => 0%nat end
  | None => 0%nat
  end.

(** The number of index entries a geometry contributes *)
Definition indexCount (geo : option BufferGeometry) : nat :=
  match geo with
  | Some g =>
      match position g, index g with
      | Some _, Some idx => List.length idx
      | Some p, None => List.length p
      | None, _ => 0%nat
      end
  | None => 0%nat
  end.

(** Every index of the geometry names one of its vertices. *)
Definition wellIndexed (geo : option BufferGeometry) : Prop :=
  match geo with
  | Some g =>
      match position g, index g with
      | Some p, Some idx => Forall (fun v => (v < List.length p)%nat) idx
      | _, _ => True
      end
  | None => True
  end.

(** The geometry, if it has positions, has one normal per vertex. *)
Definition hasNormals (geo : option BufferGeometry) : Prop :=
  match geo with
  | Some g =>
      match position g, normal g with
      | Some p, Some n => List.length n = List.length p
      | Some _, None => False
      | None, _ => True
      end
  | None => True
  end.

Definition sum (l : list nat) : nat := fold_right Nat.add 0%nat l.

(** The vertices of a geometry, in order *)
Definition vertices (geo : option BufferGeometry) : list Vector3.t :=
  match geo with
  | Some g => match position g with Some p => p | None => [] end
  | None => []
  end.

(** The normals of a geometry that has positions, in order *)
Definition normalVectors (geo : option BufferGeometry) : list Vector3.t :=
  match geo with
  | Some g =>
      match position g, normal g with
      | Some _, Some n => n
      | _, _ => []
      end
  | None => []
  end.

(** The corners of the faces of a geometry, in drawing order: the vertex
    each index entry names, or every vertex in turn when the geometry has
    no index *)
Definition corners (geo : option BufferGeometry) : list (option Vector3.t) :=
  match geo with
  | Some g =>
      match position g, index g with
      | Some p, Some idx => map (nth_error p) idx
      | Some p, None => map Some p
      | None, _ => []
      end
  | None => []
  end.

(** [nScale] of [updateMesh] for instance [i] *)
Definition instanceScale (scale time n : R) (i : nat) : R :=
  let nScale := scale * (1 + sin (time + INR i) * 0.05) in
  if JS.gt n 0.5 then nScale * (1.0 - (n - 0.5) * 0.5) else nScale.

End Geometry.

(* ================================================================== *)
(** * Properties *)
(* ================================================================== *)

(** ** Numbers *)

Lemma lt_true (a b : R) : JS.lt a b = true <-> a < b.
Proof. unfold JS.lt; destruct (Rlt_dec a b); split; intros; try easy; try discriminate. Qed.

Lemma lt_false (a b : R) : JS.lt a b = false <-> ~ a < b.
Proof. unfold JS.lt; destruct (Rlt_dec a b); split; intros; try easy; try discriminate. Qed.

Lemma gt_true (a b : R) : JS.gt a b = true <-> a > b.
Proof. unfold JS.gt; destruct (Rgt_dec a b); split; intros; try easy; try discriminate. Qed.

Lemma gt_false (a b : R) : JS.gt a b = false <-> ~ a > b.
Proof. unfold JS.gt; destruct (Rgt_dec a b); split; intros; try easy; try discriminate. Qed.

Lemma floor_spec (x : R) : IZR (JS.floor x) <= x < IZR (JS.floor x) + 1.
Proof.
  unfold JS.floor. destruct (base_Int_part x) as [H1 H2]. lra.
Qed.

Lemma floor_unique (x : R) (n : Z) : IZR n <= x < IZR n + 1 -> JS.floor x = n.
Proof.
  intros [H1 H2]. unfold JS.floor. symmetry. apply Int_part_spec. lra.
Qed.

Lemma hypot_axis (a : R) : 0 <= a -> JS.hypot a 0 = a.
Proof.
  intros Ha. unfold JS.hypot.
  replace (a * a + 0 * 0) with (a * a) by ring.
  now apply sqrt_square.
Qed.

Lemma hypot_planeDistance (p q : GestureControl.Landmark) :
  JS.hypot (GestureControl.lx p - GestureControl.lx q)
           (GestureControl.ly p - GestureControl.ly q)
  = Spec.planeDistance p q.
Proof. unfold JS.hypot, Spec.planeDistance. f_equal. ring. Qed.

(** ** Landmark normaliser *)

Lemma summarize_hand_none results :
  Spec.hand results = None -> GestureControl.summarize results = GestureControl.notDetected.
Proof.
  destruct results as [[[|lm rest]]|]; simpl; intros H; try reflexivity; discriminate.
Qed.

Lemma summarize_hand_short results lm :
  Spec.hand results = Some lm -> (List.length lm < 21)%nat ->
  GestureControl.summarize results = GestureControl.notDetected.
Proof.
  destruct results as [[[|lm' rest]]|];
    unfold Spec.hand, GestureControl.summarize;
    cbn [GestureControl.landmarks hd_error]; intros H Hlen; try discriminate.
  injection H as ->.
  destruct (Nat.leb_spec 21 (List.length lm)); [lia | reflexivity].
Qed.

Lemma summarize_hand_full results lm :
  Spec.hand results = Some lm -> (21 <= List.length lm)%nat ->
  GestureControl.summarize results =
  mkGestureState
    ((GestureControl.lx (GestureControl.point lm 9) - 0.5) * -2)
    ((GestureControl.ly (GestureControl.point lm 9) - 0.5) * 2)
    (JS.hypot (GestureControl.lx (GestureControl.point lm 9)
               - GestureControl.lx (GestureControl.point lm 0))
              (GestureControl.ly (GestureControl.point lm 9)
               - GestureControl.ly (GestureControl.point lm 0)))
    true
    (GestureControl.classify lm).
Proof.
  destruct results as [[[|lm' rest]]|];
    unfold Spec.hand, GestureControl.summarize;
    cbn [GestureControl.landmarks hd_error]; intros H Hlen; try discriminate.
  injection H as ->.
  destruct (Nat.leb_spec 21 (List.length lm)); [reflexivity | lia].
Qed.

(** C8. The summary built from a detection result: with no hand, or with
    a hand of fewer than 21 points, it is the not-detected summary
    (isDetected false, x = y = handSize = 0, gesture NONE); with a hand of
    at least 21 points it has isDetected true,
    x = (middleMCP.x - 0.5) * -2, y = (middleMCP.y - 0.5) * 2 and handSize
    the image-plane distance of landmark 9 (middleMCP) from landmark 0
    (wrist).  This summary is what [predictWebcam] emits for the frame. *)
Theorem C8_normalizer_summary :
  forall results : option GestureControl.HandLandmarkerResult,
    GestureControl.predictWebcam (GestureControl.Detected results)
      = Some (GestureControl.summarize results) /\
    (Spec.hand results = None ->
       GestureControl.summarize results = mkGestureState 0 0 0 false NONE) /\
    (forall lm, Spec.hand results = Some lm ->
       ((List.length lm < 21)%nat ->
          GestureControl.summarize results = mkGestureState 0 0 0 false NONE) /\
       ((21 <= List.length lm)%nat ->
          let g := GestureControl.summarize results in
          let middleMCP := nth 9 lm (GestureControl.mkLandmark 0 0 0) in
          let wrist := nth 0 lm (GestureControl.mkLandmark 0 0 0) in
          gs_isDetected g = true /\
          gs_x g = (GestureControl.lx middleMCP - 0.5) * -2 /\
          gs_y g = (GestureControl.ly middleMCP - 0.5) * 2 /\
          gs_handSize g = Spec.planeDistance middleMCP wrist)).
Proof.
  intros results. split; [reflexivity|]. split.
  - apply summarize_hand_none.
  - intros lm Hhand. split; intros Hlen.
    + now apply summarize_hand_short with lm.
    + cbv zeta. rewrite (summarize_hand_full _ _ Hhand Hlen). cbn.
      repeat split; try reflexivity.
      apply hypot_planeDistance.
Qed.

(** ** Gesture classifier *)

Lemma classify_fist lm :
  GestureControl.avgFingerDist lm < 0.23 -> GestureControl.classify lm = FIST.
Proof.
  intros H. unfold GestureControl.classify.
  apply lt_true in H. now rewrite H.
Qed.

Lemma yeah_test_true lm :
  Spec.yeahShape lm ->
  JS.gt (GestureControl.distIndex lm) 0.35 && JS.gt (GestureControl.distMiddle lm) 0.35
  && JS.lt (GestureControl.distRing lm) 0.25 && JS.lt (GestureControl.distPinky lm) 0.25
  = true.
Proof.
  intros (H1 & H2 & H3 & H4).
  apply gt_true in H1, H2. apply lt_true in H3, H4.
  now rewrite H1, H2, H3, H4.
Qed.

Lemma yeah_test_false lm :
  ~ Spec.yeahShape lm ->
  JS.gt (GestureControl.distIndex lm) 0.35 && JS.gt (GestureControl.distMiddle lm) 0.35
  && JS.lt (GestureControl.distRing lm) 0.25 && JS.lt (GestureControl.distPinky lm) 0.25
  = false.
Proof.
  intros H.
  destruct (JS.gt (GestureControl.distIndex lm) 0.35) eqn:E1;
  destruct (JS.gt (GestureControl.distMiddle lm) 0.35) eqn:E2;
  destruct (JS.lt (GestureControl.distRing lm) 0.25) eqn:E3;
  destruct (JS.lt (GestureControl.distPinky lm) 0.25) eqn:E4;
  try reflexivity.
  exfalso. apply H. unfold Spec.yeahShape.
  apply gt_true in E1, E2. apply lt_true in E3, E4. tauto.
Qed.

Lemma classify_not_fist lm :
  ~ GestureControl.avgFingerDist lm < 0.23 ->
  GestureControl.classify lm =
  if JS.gt (GestureControl.distIndex lm) 0.35 && JS.gt (GestureControl.distMiddle lm) 0.35
     && JS.lt (GestureControl.distRing lm) 0.25 && JS.lt (GestureControl.distPinky lm) 0.25
  then YEAH
  else if JS.lt (GestureControl.pinchDist lm) 0.08 then PINCH
  else if JS.gt (GestureControl.avgFingerDist lm) 0.38 then OPEN_PALM
  else NONE.
Proof.
  intros H. unfold GestureControl.classify.
  apply lt_false in H. now rewrite H.
Qed.

(** C4. For a detected hand (at least 21 landmark points) whose distances
    meet the FIST threshold (mean finger distance below 0.23) and the YEAH
    thresholds at once, the classifier answers FIST.  More generally the
    rules are tried in the order FIST, YEAH, PINCH, OPEN_PALM, and NONE is
    the answer when none applies. *)
Theorem C4_classifier_priority :
  forall (results : option GestureControl.HandLandmarkerResult)
         (lm : list GestureControl.Landmark),
    Spec.hand results = Some lm ->
    (21 <= List.length lm)%nat ->
    let gesture := gs_gesture (GestureControl.summarize results) in
    let fist := GestureControl.avgFingerDist lm < 0.23 in
    let yeah := Spec.yeahShape lm in
    let pinch := GestureControl.pinchDist lm < 0.08 in
    let palm := GestureControl.avgFingerDist lm > 0.38 in
    (fist /\ yeah -> gesture = FIST) /\
    (fist -> gesture = FIST) /\
    (~ fist -> yeah -> gesture = YEAH) /\
    (~ fist -> ~ yeah -> pinch -> gesture = PINCH) /\
    (~ fist -> ~ yeah -> ~ pinch -> palm -> gesture = OPEN_PALM) /\
    (~ fist -> ~ yeah -> ~ pinch -> ~ palm -> gesture = NONE).
Proof.
  intros results lm Hhand Hlen. cbv zeta.
  rewrite (summarize_hand_full _ _ Hhand Hlen). cbn [gs_gesture].
  repeat split.
  - intros [Hf _]. now apply classify_fist.
  - apply classify_fist.
  - intros Hf Hy. rewrite (classify_not_fist _ Hf).
    now rewrite (yeah_test_true _ Hy).
  - intros Hf Hy Hp. rewrite (classify_not_fist _ Hf).
    rewrite (yeah_test_false _ Hy).
    apply lt_true in Hp. now rewrite Hp.
  - intros Hf Hy Hp Ho. rewrite (classify_not_fist _ Hf).
    rewrite (yeah_test_false _ Hy).
    apply lt_false in Hp. apply gt_true in Ho. now rewrite Hp, Ho.
  - intros Hf Hy Hp Ho. rewrite (classify_not_fist _ Hf).
    rewrite (yeah_test_false _ Hy).
    apply lt_false in Hp. apply gt_false in Ho. now rewrite Hp, Ho.
Qed.

(** Evaluates a fingertip distance of the sample hand, whose points all
    lie on the horizontal line through the wrist. *)
Ltac sample_distance d :=
  unfold GestureControl.distIndex, GestureControl.distMiddle,
         GestureControl.distRing, GestureControl.distPinky,
         GestureControl.distToWrist, GestureControl.point;
  cbn [nth Sample.fistAndYeah Sample.farTip Sample.nearTip Sample.wristPt
       GestureControl.lx GestureControl.ly];
  match goal with
  | |- JS.hypot (?a - ?b) (?c - ?e) = _ =>
      replace (a - b) with d by lra; replace (c - e) with 0 by lra
  end;
  apply hypot_axis; lra.

Lemma sample_distIndex : GestureControl.distIndex Sample.fistAndYeah = 0.36.
Proof. sample_distance 0.36. Qed.

Lemma sample_distMiddle : GestureControl.distMiddle Sample.fistAndYeah = 0.36.
Proof. sample_distance 0.36. Qed.

Lemma sample_distRing : GestureControl.distRing Sample.fistAndYeah = 0.05.
Proof. sample_distance 0.05. Qed.

Lemma sample_distPinky : GestureControl.distPinky Sample.fistAndYeah = 0.05.
Proof. sample_distance 0.05. Qed.

Lemma sample_fist : GestureControl.avgFingerDist Sample.fistAndYeah < 0.23.
Proof.
  unfold GestureControl.avgFingerDist.
  rewrite sample_distIndex, sample_distMiddle, sample_distRing, sample_distPinky. lra.
Qed.

Lemma sample_yeah : Spec.yeahShape Sample.fistAndYeah.
Proof.
  unfold Spec.yeahShape.
  rewrite sample_distIndex, sample_distMiddle, sample_distRing, sample_distPinky. lra.
Qed.

(** The sample hand meets both thresholds and is classified FIST. *)
Lemma C4_classifier_priority_witness :
  Spec.hand Sample.fistAndYeahResult = Some Sample.fistAndYeah /\
  (21 <= List.length Sample.fistAndYeah)%nat /\
  GestureControl.avgFingerDist Sample.fistAndYeah < 0.23 /\
  Spec.yeahShape Sample.fistAndYeah /\
  gs_gesture (GestureControl.summarize Sample.fistAndYeahResult) = FIST.
Proof.
  split; [reflexivity|]. split; [simpl; lia|].
  split; [exact sample_fist|]. split; [exact sample_yeah|].
  apply (proj1 (C4_classifier_priority Sample.fistAndYeahResult Sample.fistAndYeah
                  eq_refl (le_n 21))).
  split; [exact sample_fist | exact sample_yeah].
Defined.

(** The sample hand run through the normaliser. *)
Lemma C8_normalizer_summary_witness :
  gs_isDetected (GestureControl.summarize Sample.fistAndYeahResult) = true /\
  gs_x (GestureControl.summarize Sample.fistAndYeahResult) = (0.5 - 0.5) * -2 /\
  GestureControl.summarize None = mkGestureState 0 0 0 false NONE.
Proof.
  destruct (C8_normalizer_summary Sample.fistAndYeahResult) as (_ & _ & Hfull).
  destruct (Hfull Sample.fistAndYeah eq_refl) as [_ Hdet].
  destruct (Hdet (le_n 21)) as (H1 & H2 & _).
  split; [exact H1|]. split; [exact H2|].
  exact (proj1 (proj2 (C8_normalizer_summary None)) eq_refl).
Defined.

(** ** Random index selection *)

Lemma floor_index_range (r : R) (n : nat) :
  0 <= r < 1 -> (0 < n)%nat ->
  (0 <= JS.floor (r * INR n) < Z.of_nat n)%Z.
Proof.
  intros [Hr0 Hr1] Hn.
  assert (HN : 0 < INR n) by (apply lt_0_INR; lia).
  destruct (floor_spec (r * INR n)) as [Hlo Hhi].
  split.
  - assert (H : (-1 < JS.floor (r * INR n))%Z); [|lia].
    apply lt_IZR. assert (0 <= r * INR n) by nra. lra.
  - apply lt_IZR. rewrite <- INR_IZR_INZ. nra.
Qed.

Lemma index_in_range {A : Type} (l : list A) (i : Z) :
  (0 <= i < Z.of_nat (List.length l))%Z ->
  exists a, JS.index l i = Some a /\ nth_error l (Z.to_nat i) = Some a.
Proof.
  intros [H0 H1]. unfold JS.index.
  destruct (Z.ltb_spec i 0); [lia|].
  destruct (nth_error l (Z.to_nat i)) as [a|] eqn:E.
  - now exists a.
  - apply nth_error_None in E. lia.
Qed.

Lemma index_empty {A : Type} (i : Z) : JS.index (@nil A) i = None.
Proof.
  unfold JS.index. destruct (i <? 0)%Z; [reflexivity|].
  now destruct (Z.to_nat i).
Qed.

(** [Math.floor(r * n)] is [i] exactly on the i-th of the [n] intervals of
    length [1/n] that partition [0, 1). *)
Lemma floor_uniform_cell (r : R) (n i : nat) :
  (0 < n)%nat ->
  JS.floor (r * INR n) = Z.of_nat i <->
  INR i / INR n <= r < (INR i + 1) / INR n.
Proof.
  intros Hn.
  assert (HN : 0 < INR n) by (apply lt_0_INR; lia).
  assert (E1 : INR i / INR n * INR n = INR i) by (field; lra).
  assert (E2 : (INR i + 1) / INR n * INR n = INR i + 1) by (field; lra).
  split.
  - intros Hf. destruct (floor_spec (r * INR n)) as [Hlo Hhi].
    rewrite Hf, <- INR_IZR_INZ in Hlo, Hhi. split.
    + apply Rmult_le_reg_r with (INR n); [exact HN | lra].
    + apply Rmult_lt_reg_r with (INR n); [exact HN | lra].
  - intros [Hlo Hhi]. apply floor_unique. rewrite <- INR_IZR_INZ. split.
    + rewrite <- E1. apply Rmult_le_compat_r; lra.
    + rewrite <- E2. apply Rmult_lt_compat_r; lra.
Qed.

(** ** Mode state machine *)

Lemma AppMode_eqb_eq (a b : AppMode) : AppMode_eqb a b = true <-> a = b.
Proof. destruct a, b; simpl; split; intros; try reflexivity; discriminate. Qed.

Lemma AppMode_eqb_neq (a b : AppMode) : AppMode_eqb a b = false <-> a <> b.
Proof. destruct a, b; simpl; split; intros; try congruence; try discriminate. Qed.

Lemma handle_editing src k now g s :
  JS.truthy (App.editingId s) = true ->
  App.handleGestureUpdate now g s src k = Ok (s, k).
Proof. intros H. unfold App.handleGestureUpdate. now rewrite H. Qed.

Lemma handle_debounced src k now g s :
  JS.truthy (App.editingId s) = false ->
  (now - App.lastGestureSwitchRef s < 1000)%Z ->
  App.handleGestureUpdate now g s src k = Ok (App.setGestureState g s, k).
Proof.
  intros He Hd. unfold App.handleGestureUpdate. rewrite He.
  cbn [App.setGestureState App.lastGestureSwitchRef].
  apply Z.ltb_lt in Hd. now rewrite Hd.
Qed.

(** A gesture whose target mode [m] is not FOCUS, past the two guards *)
Lemma handle_switch src k now g s m :
  JS.truthy (App.editingId s) = false ->
  (1000 <= now - App.lastGestureSwitchRef s)%Z ->
  (gs_gesture g = FIST /\ m = TREE) \/
  (gs_gesture g = OPEN_PALM /\ m = SCATTER) \/
  (gs_gesture g = YEAH /\ m = NEW_YEAR) ->
  App.handleGestureUpdate now g s src k =
  Ok (if AppMode_eqb (App.mode s) m then App.setGestureState g s
      else App.switchMode m None now (App.setGestureState g s), k).
Proof.
  intros He Hd Hg. unfold App.handleGestureUpdate. rewrite He.
  cbn [App.setGestureState App.lastGestureSwitchRef App.mode].
  apply Z.ltb_ge in Hd. rewrite Hd.
  destruct Hg as [[-> ->]|[[-> ->]|[-> ->]]];
    destruct (AppMode_eqb (App.mode s) _); reflexivity.
Qed.

Lemma handle_none src k now g s :
  gs_gesture g = NONE ->
  App.handleGestureUpdate now g s src k =
  Ok (if JS.truthy (App.editingId s) then s else App.setGestureState g s, k).
Proof.
  intros Hg. unfold App.handleGestureUpdate.
  destruct (JS.truthy (App.editingId s)); [reflexivity|].
  cbn [App.setGestureState App.lastGestureSwitchRef].
  destruct (_ <? 1000)%Z; [reflexivity|]. now rewrite Hg.
Qed.

(** PINCH past the two guards, outside FOCUS, with photos on the tree *)
Lemma handle_pinch_accept src k now g s :
  JS.truthy (App.editingId s) = false ->
  (1000 <= now - App.lastGestureSwitchRef s)%Z ->
  gs_gesture g = PINCH ->
  App.images s <> [] ->
  App.mode s <> FOCUS ->
  App.handleGestureUpdate now g s src k =
  match JS.index (App.images s)
                 (JS.floor (src k * INR (List.length (App.images s)))) with
  | Some img =>
      Ok (App.switchMode FOCUS (Some (img_id img)) now (App.setGestureState g s), S k)
  | None => TypeError
  end.
Proof.
  intros He Hd Hg Hi Hm. unfold App.handleGestureUpdate. rewrite He.
  cbn [App.setGestureState App.lastGestureSwitchRef App.mode App.images].
  apply Z.ltb_ge in Hd. rewrite Hd, Hg.
  destruct (App.images s) as [|i0 rest] eqn:Ei; [congruence|].
  cbn [List.length Nat.ltb Nat.leb].
  apply AppMode_eqb_neq in Hm. rewrite Hm. cbn [negb].
  unfold Rand.bind, Rand.random.
  destruct (JS.index _ _); reflexivity.
Qed.

(** PINCH that changes nothing but the displayed gesture *)
Lemma handle_pinch_ignored src k now g s :
  JS.truthy (App.editingId s) = false ->
  gs_gesture g = PINCH ->
  App.images s = [] \/ App.mode s = FOCUS ->
  App.handleGestureUpdate now g s src k = Ok (App.setGestureState g s, k).
Proof.
  intros He Hg Hor. unfold App.handleGestureUpdate. rewrite He.
  cbn [App.setGestureState App.lastGestureSwitchRef App.mode App.images].
  destruct (_ <? 1000)%Z; [reflexivity|]. rewrite Hg.
  destruct Hor as [-> | ->]; [reflexivity|].
  destruct (0 <? _)%nat; reflexivity.
Qed.

(** Under a valid random source the handler never dereferences
    [undefined]. *)
Lemma handle_total src k now g s :
  Rand.valid src ->
  exists s' k', App.handleGestureUpdate now g s src k = Ok (s', k').
Proof.
  intros Hv.
  destruct (JS.truthy (App.editingId s)) eqn:He.
  { eexists _, _. now apply handle_editing. }
  destruct (Z.lt_ge_cases (now - App.lastGestureSwitchRef s) 1000) as [Hd|Hd].
  { eexists _, _. now apply handle_debounced. }
  destruct (gs_gesture g) eqn:Hg.
  - eexists _, _. apply handle_switch with (m := TREE); auto.
  - eexists _, _. apply handle_switch with (m := SCATTER); auto.
  - destruct (App.images s) as [|i0 rest] eqn:Ei.
    { eexists _, _. apply handle_pinch_ignored; auto. }
    destruct (AppMode_eqb (App.mode s) FOCUS) eqn:Em.
    { apply AppMode_eqb_eq in Em. eexists _, _. apply handle_pinch_ignored; auto. }
    apply AppMode_eqb_neq in Em.
    rewrite handle_pinch_accept; auto; [|rewrite Ei; discriminate].
    destruct (index_in_range (App.images s)
                (JS.floor (src k * INR (List.length (App.images s))))) as (img & Hi & _).
    { apply floor_index_range; [apply Hv | rewrite Ei; simpl; lia]. }
    rewrite Hi. now eexists _, _.
  - eexists _, _. apply handle_switch with (m := NEW_YEAR); auto.
  - eexists _, _. now apply handle_none.
Qed.

(** Every run of the handler either leaves mode, focus selection and
    debounce timestamp alone and draws no random number, or is an accepted
    transition: not editing, at least 1000 ms after the last one, into a
    different mode, stamping the timestamp. *)
Lemma handle_result src k now g s s' k' :
  App.handleGestureUpdate now g s src k = Ok (s', k') ->
  (Spec.modeFields s' = Spec.modeFields s /\ k' = k) \/
  (JS.truthy (App.editingId s) = false /\
   (1000 <= now - App.lastGestureSwitchRef s)%Z /\
   App.mode s' <> App.mode s /\
   App.lastGestureSwitchRef s' = now /\
   Spec.acceptedShape src k g s s' k').
Proof.
  intros H.
  destruct (JS.truthy (App.editingId s)) eqn:He.
  { rewrite handle_editing in H by assumption. injection H as <- <-. now left. }
  destruct (Z.lt_ge_cases (now - App.lastGestureSwitchRef s) 1000) as [Hd|Hd].
  { rewrite handle_debounced in H by assumption. injection H as <- <-. now left. }
  assert (Hsw : forall m,
             (gs_gesture g = FIST /\ m = TREE) \/
             (gs_gesture g = OPEN_PALM /\ m = SCATTER) \/
             (gs_gesture g = YEAH /\ m = NEW_YEAR) ->
             (Spec.modeFields s' = Spec.modeFields s /\ k' = k) \/
             (App.mode s' <> App.mode s /\ App.lastGestureSwitchRef s' = now /\
              App.mode s' = m /\ App.focusId s' = None /\ k' = k)).
  { intros m Hm. rewrite (handle_switch src k now g s m He Hd Hm) in H.
    destruct (AppMode_eqb (App.mode s) m) eqn:Em; injection H as <- <-.
    - now left.
    - right. apply AppMode_eqb_neq in Em. cbn. repeat split; congruence. }
  destruct (gs_gesture g) eqn:Hg.
  - destruct (Hsw TREE) as [Hl|(H1 & H2 & H3 & H4 & H5)]; [tauto | now left |].
    right. repeat split; auto. left. tauto.
  - destruct (Hsw SCATTER) as [Hl|(H1 & H2 & H3 & H4 & H5)]; [tauto | now left |].
    right. repeat split; auto. right; left. tauto.
  - destruct (App.images s) as [|i0 rest] eqn:Ei.
    { rewrite handle_pinch_ignored in H by auto. injection H as <- <-. now left. }
    destruct (AppMode_eqb (App.mode s) FOCUS) eqn:Em.
    { apply AppMode_eqb_eq in Em.
      rewrite handle_pinch_ignored in H by auto. injection H as <- <-. now left. }
    apply AppMode_eqb_neq in Em.
    rewrite handle_pinch_accept in H; auto; [|rewrite Ei; discriminate].
    destruct (JS.index (App.images s) _) as [img|] eqn:Hi; [|discriminate].
    injection H as <- <-. right. cbn. repeat split; auto.
    right; right; right. repeat split; auto.
    + congruence.
    + exists img. now split.
  - destruct (Hsw NEW_YEAR) as [Hl|(H1 & H2 & H3 & H4 & H5)]; [tauto | now left |].
    right. repeat split; auto. right; right; left. tauto.
  - rewrite handle_none, He in H by assumption. injection H as <- <-. now left.
Qed.

(** C5. While the caption dialog is open ([editingId] is set), a gesture
    update returns the state as it was, whatever the gesture and however
    long after the last transition: mode, focus selection and debounce
    timestamp are unchanged, and no random number is drawn. *)
Theorem C5_editing_lock :
  forall (src : Rand.Source) (k : nat) (now : Z) (g : GestureState) (s : App.State),
    JS.truthy (App.editingId s) = true ->
    App.handleGestureUpdate now g s src k = Ok (s, k).
Proof. intros. now apply handle_editing. Qed.

(** C7. Without photos a PINCH is ignored: the handler returns normally,
    with mode, focus selection and debounce timestamp as before. *)
Theorem C7_pinch_without_photos :
  forall (src : Rand.Source) (k : nat) (now : Z) (g : GestureState) (s : App.State),
    gs_gesture g = PINCH ->
    App.images s = [] ->
    exists s',
      App.handleGestureUpdate now g s src k = Ok (s', k) /\
      App.mode s' = App.mode s /\
      App.focusId s' = App.focusId s /\
      App.lastGestureSwitchRef s' = App.lastGestureSwitchRef s.
Proof.
  intros src k now g s Hg Hi.
  destruct (JS.truthy (App.editingId s)) eqn:He.
  - exists s. rewrite handle_editing by assumption. auto.
  - exists (App.setGestureState g s).
    rewrite handle_pinch_ignored by auto. auto.
Qed.

Lemma run_cons e es s src k s' k' l k'' :
  App.step e s src k = Ok (s', k') ->
  App.run es s' src k' = Ok (l, k'') ->
  App.run (e :: es) s src k = Ok (s' :: l, k'').
Proof.
  intros H1 H2. cbn [App.run]. unfold Rand.bind. rewrite H1, H2. reflexivity.
Qed.

(** C3. (i) A gesture update that arrives less than 1000 ms after the last
    accepted transition changes neither mode, focus selection nor debounce
    timestamp.  (ii) The timestamp moves only together with the mode: a
    run of the handler either keeps mode, focus and timestamp, or enters a
    different mode, at least 1000 ms after the previous stamp, and stamps
    the current time.  (iii) From TREE, with the first event at a time [t0]
    at least 1000 ms after the stored timestamp (initially 0), the stream
    OPEN_PALM at [t0], OPEN_PALM at [t0 + 200], FIST at [t0 + 1100] gives
    TREE to SCATTER, then no change, then SCATTER to TREE. *)
Theorem C3_debounce :
  (forall src k now g s,
      (now - App.lastGestureSwitchRef s < 1000)%Z ->
      exists s',
        App.handleGestureUpdate now g s src k = Ok (s', k) /\
        Spec.modeFields s' = Spec.modeFields s) /\
  (forall src k now g s s' k',
      App.handleGestureUpdate now g s src k = Ok (s', k') ->
      Spec.modeFields s' = Spec.modeFields s \/
      (App.mode s' <> App.mode s /\
       (1000 <= now - App.lastGestureSwitchRef s)%Z /\
       App.lastGestureSwitchRef s' = now)) /\
  (forall src k s0 t0 g1 g2 g3,
      App.mode s0 = TREE ->
      JS.truthy (App.editingId s0) = false ->
      (1000 <= t0 - App.lastGestureSwitchRef s0)%Z ->
      gs_gesture g1 = OPEN_PALM -> gs_gesture g2 = OPEN_PALM -> gs_gesture g3 = FIST ->
      exists s1 s2 s3,
        App.run [App.GestureEv t0 g1;
                 App.GestureEv (t0 + 200) g2;
                 App.GestureEv (t0 + 1100) g3] s0 src k
          = Ok ([s1; s2; s3], k) /\
        Spec.modeFields s1 = (SCATTER, None, t0) /\
        Spec.modeFields s2 = (SCATTER, None, t0) /\
        Spec.modeFields s3 = (TREE, None, (t0 + 1100)%Z)).
Proof.
  split; [|split].
  - intros src k now g s Hd.
    destruct (JS.truthy (App.editingId s)) eqn:He.
    + exists s. now rewrite handle_editing.
    + exists (App.setGestureState g s). now rewrite handle_debounced.
  - intros src k now g s s' k' H.
    destruct (handle_result _ _ _ _ _ _ _ H) as [[Hs _]|(_ & Hd & Hm & Hl & _)]; auto.
  - intros src k s0 t0 g1 g2 g3 Hm He Hd Hg1 Hg2 Hg3.
    set (s1 := App.switchMode SCATTER None t0 (App.setGestureState g1 s0)).
    set (s2 := App.setGestureState g2 s1).
    set (s3 := App.switchMode TREE None (t0 + 1100)%Z (App.setGestureState g3 s2)).
    exists s1, s2, s3. repeat split.
    apply run_cons with (k' := k); [|apply run_cons with (k' := k);
                                     [|apply run_cons with (k' := k); [|reflexivity]]].
    + cbn [App.step].
      rewrite (handle_switch src k t0 g1 s0 SCATTER He Hd) by auto.
      now rewrite Hm.
    + cbn [App.step]. apply handle_debounced; [exact He|].
      cbn. lia.
    + cbn [App.step].
      rewrite (handle_switch src k (t0 + 1100) g3 s2 TREE He); [reflexivity | | auto].
      cbn. lia.
Qed.

(** The scenario run from the initial state, first event at 1000 ms. *)
Lemma C3_debounce_witness :
  exists s1 s2 s3,
    App.run [App.GestureEv 1000 Sample.palm;
             App.GestureEv (1000 + 200) Sample.palm;
             App.GestureEv (1000 + 1100) Sample.fist] App.initial Sample.half 0%nat
      = Ok ([s1; s2; s3], 0%nat) /\
    Spec.modeFields s1 = (SCATTER, None, 1000%Z) /\
    Spec.modeFields s2 = (SCATTER, None, 1000%Z) /\
    Spec.modeFields s3 = (TREE, None, (1000 + 1100)%Z).
Proof.
  apply (proj2 (proj2 C3_debounce) Sample.half 0%nat App.initial 1000%Z
               Sample.palm Sample.palm Sample.fist);
    first [reflexivity | cbn; lia].
Defined.

(** The caption dialog is open: a FIST long after the last switch is
    ignored. *)
Lemma C5_editing_lock_witness :
  JS.truthy (App.editingId Sample.captioning) = true /\
  App.handleGestureUpdate 999999 Sample.fist Sample.captioning Sample.half 0%nat
    = Ok (Sample.captioning, 0%nat).
Proof.
  split; [reflexivity|].
  apply (C5_editing_lock Sample.half 0%nat 999999%Z Sample.fist Sample.captioning).
  reflexivity.
Defined.

(** A PINCH in the initial state, which has no photos. *)
Lemma C7_pinch_without_photos_witness :
  exists s',
    App.handleGestureUpdate 5000 Sample.pinch App.initial Sample.half 0%nat
      = Ok (s', 0%nat) /\
    App.mode s' = TREE /\
    App.focusId s' = None /\
    App.lastGestureSwitchRef s' = 0%Z.
Proof.
  apply (C7_pinch_without_photos Sample.half 0%nat 5000%Z Sample.pinch App.initial);
    reflexivity.
Defined.

Lemma half_valid : Rand.valid Sample.half.
Proof. intros k. unfold Sample.half. lra. Qed.

Lemma zeros_valid : Rand.valid Sample.zeros.
Proof. intros k. unfold Sample.zeros. lra. Qed.

(** C6. For a PINCH under a valid random source the handler returns, and:
    (i) it enters FOCUS only if at least one photo exists;
    (ii) when it enters FOCUS it draws one random number [r] and selects
    the photo of index [floor (r * n)] among the [n] photos, an index
    below [n] which is [j] exactly when [r] lies in the j-th of the [n]
    equal cells of [0, 1), so each photo is as likely as any other;
    (iii) it does enter FOCUS when photos exist, no caption is being
    edited, 1000 ms have passed and the mode is not FOCUS;
    (iv) in FOCUS it keeps mode, focus selection and timestamp, and draws
    no random number. *)
Theorem C6_pinch_focus :
  forall (src : Rand.Source) (k : nat) (now : Z) (g : GestureState) (s : App.State),
    Rand.valid src ->
    gs_gesture g = PINCH ->
    exists s' k',
      App.handleGestureUpdate now g s src k = Ok (s', k') /\
      (App.mode s <> FOCUS -> App.mode s' = FOCUS -> App.images s <> []) /\
      (App.mode s <> FOCUS -> App.mode s' = FOCUS ->
       let n := List.length (App.images s) in
       k' = S k /\
       exists i img,
         (i < n)%nat /\
         JS.floor (src k * INR n) = Z.of_nat i /\
         nth_error (App.images s) i = Some img /\
         App.focusId s' = Some (img_id img) /\
         forall j, (j < n)%nat ->
                   (i = j <-> INR j / INR n <= src k < (INR j + 1) / INR n)) /\
      (App.images s <> [] ->
       JS.truthy (App.editingId s) = false ->
       (1000 <= now - App.lastGestureSwitchRef s)%Z ->
       App.mode s <> FOCUS ->
       App.mode s' = FOCUS) /\
      (App.mode s = FOCUS ->
       App.mode s' = FOCUS /\
       App.focusId s' = App.focusId s /\
       App.lastGestureSwitchRef s' = App.lastGestureSwitchRef s /\
       k' = k).
Proof.
  intros src k now g s Hv Hg.
  destruct (handle_total src k now g s Hv) as (s' & k' & Hrun).
  exists s', k'. split; [exact Hrun|].
  pose proof (handle_result _ _ _ _ _ _ _ Hrun) as Hres.
  assert (Hshape : Spec.acceptedShape src k g s s' k' ->
                   App.mode s' = FOCUS /\ App.images s <> [] /\ k' = S k /\
                   exists img,
                     JS.index (App.images s)
                              (JS.floor (src k * INR (List.length (App.images s))))
                       = Some img /\
                     App.focusId s' = Some (img_id img)).
  { intros [(Hc & _)|[(Hc & _)|[(Hc & _)|(_ & H)]]]; first [congruence | exact H]. }
  assert (Hsame : Spec.modeFields s' = Spec.modeFields s ->
                  App.mode s' = App.mode s /\ App.focusId s' = App.focusId s /\
                  App.lastGestureSwitchRef s' = App.lastGestureSwitchRef s).
  { unfold Spec.modeFields. intros E. injection E as -> -> ->. auto. }
  split; [|split; [|split]].
  - intros Hm Hm'.
    destruct Hres as [[E _]|(_ & _ & _ & _ & Hsh)].
    + apply Hsame in E. destruct E as (E & _). congruence.
    + now apply Hshape in Hsh.
  - intros Hm Hm'. cbv zeta.
    destruct Hres as [[E _]|(_ & _ & _ & _ & Hsh)].
    { apply Hsame in E. destruct E as (E & _). congruence. }
    apply Hshape in Hsh. destruct Hsh as (_ & Hne & Hk & img & Hidx & Hfocus).
    split; [exact Hk|].
    assert (Hn : (0 < List.length (App.images s))%nat).
    { destruct (App.images s); [congruence | simpl; lia]. }
    pose proof (floor_index_range (src k) _ (Hv k) Hn) as Hrange.
    set (f := JS.floor (src k * INR (List.length (App.images s)))) in *.
    exists (Z.to_nat f), img.
    destruct (index_in_range (App.images s) f Hrange) as (a & Ha & Hnth).
    rewrite Hidx in Ha. injection Ha as <-.
    split; [lia|]. split; [lia|]. split; [exact Hnth|]. split; [exact Hfocus|].
    intros j Hj. split.
    + intros <-. apply floor_uniform_cell; [exact Hn|]. fold f. lia.
    + intros Hcell. apply floor_uniform_cell in Hcell; [|exact Hn].
      fold f in Hcell. lia.
  - intros Hne He Hd Hm.
    rewrite handle_pinch_accept in Hrun by assumption.
    destruct (JS.index _ _); [|discriminate].
    now injection Hrun as <- _.
  - intros Hm.
    destruct Hres as [[E Hk]|(_ & _ & Hm' & _ & Hsh)].
    + apply Hsame in E. destruct E as (E1 & E2 & E3).
      repeat split; congruence.
    + apply Hshape in Hsh. destruct Hsh as (Hf & _). congruence.
Qed.

(** With the draw 1/2 and three photos the PINCH selects the second one. *)
Example pinch_selects_middle_photo :
  App.handleGestureUpdate 6000 Sample.pinch Sample.scattered Sample.half 0%nat
  = Ok (App.switchMode FOCUS (Some "b"%string) 6000
                       (App.setGestureState Sample.pinch Sample.scattered), 1%nat).
Proof.
  rewrite handle_pinch_accept; try reflexivity; try discriminate.
  cbn [Sample.scattered App.images List.length]. unfold Sample.half.
  rewrite (floor_unique _ 1); [reflexivity|]. simpl INR. lra.
Qed.

(** A second PINCH while focused on photo C leaves the selection alone. *)
Example pinch_while_focused :
  App.handleGestureUpdate 9000 Sample.pinch Sample.focused Sample.half 0%nat
  = Ok (Sample.focused, 0%nat).
Proof. rewrite handle_pinch_ignored; auto. Qed.

(** A PINCH in the scattered sample scene, and one in the focused scene. *)
Lemma C6_pinch_focus_witness :
  (exists s' k',
      App.handleGestureUpdate 6000 Sample.pinch Sample.scattered Sample.half 0%nat
        = Ok (s', k') /\ App.mode s' = FOCUS) /\
  (exists s' k',
      App.handleGestureUpdate 9000 Sample.pinch Sample.focused Sample.half 0%nat
        = Ok (s', k') /\ App.focusId s' = Some "c"%string /\ k' = 0%nat).
Proof.
  split.
  - destruct (C6_pinch_focus Sample.half 0%nat 6000%Z Sample.pinch Sample.scattered
                             half_valid eq_refl)
      as (s' & k' & Hrun & _ & _ & Henter & _).
    exists s', k'. split; [exact Hrun|].
    apply Henter; [discriminate | reflexivity | cbn; lia | discriminate].
  - destruct (C6_pinch_focus Sample.half 0%nat 9000%Z Sample.pinch Sample.focused
                             half_valid eq_refl)
      as (s' & k' & Hrun & _ & _ & _ & Hstay).
    exists s', k'. split; [exact Hrun|].
    destruct (Hstay eq_refl) as (_ & Hf & _ & Hk). split; [exact Hf | exact Hk].
Defined.

(** ** Photo upload *)

Lemma generateTreePosition_run src k :
  App.generateTreePosition src k =
  Ok ((cos (src (S k) * PI * 2)
         * (5.5 * (1 - src k * 14 / 14) * (0.6 + src (S (S k)) * 0.35)),
       src k * 14 - 14 / 2,
       sin (src (S k) * PI * 2)
         * (5.5 * (1 - src k * 14 / 14) * (0.6 + src (S (S k)) * 0.35))),
      S (S (S k))).
Proof. reflexivity. Qed.

Lemma generateTreePosition_cone src k p k' :
  Rand.valid src ->
  App.generateTreePosition src k = Ok (p, k') ->
  Spec.onPhotoCone p.
Proof.
  intros Hv H. rewrite generateTreePosition_run in H. injection H as <- _.
  pose proof (Hv k) as H1. pose proof (Hv (S (S k))) as H3.
  unfold Spec.onPhotoCone. split; [lra|].
  exists (0.6 + src (S (S k)) * 0.35). split; [lra|].
  set (a := src (S k) * PI * 2).
  replace (1 - (src k * 14 - 14 / 2 + 7) / 14) with (1 - src k * 14 / 14) by lra.
  set (r := 5.5 * (1 - src k * 14 / 14) * (0.6 + src (S (S k)) * 0.35)).
  pose proof (sin2_cos2 a) as Hsc. unfold Rsqr in Hsc.
  replace (cos a * r * (cos a * r) + sin a * r * (sin a * r))
    with ((sin a * sin a + cos a * cos a) * r ^ 2) by ring.
  rewrite Hsc. ring.
Qed.

Lemma handleFileUpload_run src k ev s :
  App.hasFile ev = true ->
  exists pos,
    App.generateTreePosition src k = Ok (pos, (k + 3)%nat) /\
    App.handleFileUpload ev s src k =
    Ok (App.mkState TREE None (App.gestureState s)
          (App.images s
           ++ [mkUploadedImage (App.uuid ev) (App.objectURL ev) pos (Some EmptyString)])
          (Some (App.uuid ev))
          (App.innerWidth ev / 2
           - (if JS.lt (App.innerWidth ev) 768 then 250 else 280) / 2,
           App.innerHeight ev
           - (if JS.lt (App.innerWidth ev) 768 then 140 else 160)
           - (if JS.lt (App.innerWidth ev) 768 then 60 else 120))
          EmptyString
          (App.lastGestureSwitchRef s),
        (k + 3)%nat).
Proof.
  intros Hf. eexists. split.
  - rewrite generateTreePosition_run. do 2 f_equal. lia.
  - unfold App.handleFileUpload. rewrite Hf. unfold Rand.bind at 1.
    rewrite generateTreePosition_run. unfold Rand.ret.
    do 2 f_equal. lia.
Qed.

(** C10. An upload event that carries a file draws a home position for the
    new photo (three random numbers; on the photo cone when the source is
    valid), appends the photo to the list, opens the caption dialog for it
    ([editingId] becomes the new id), sets the mode to TREE and clears the
    focus selection.  The debounce timestamp is kept, and the handler reads
    neither it nor the mode nor the focus selection: started from any other
    mode, focus and timestamp it yields the same state with that
    timestamp. *)
Theorem C10_upload_resets_mode :
  forall (src : Rand.Source) (k : nat) (ev : App.UploadEvent) (s : App.State),
    App.hasFile ev = true ->
    exists pos s',
      App.generateTreePosition src k = Ok (pos, (k + 3)%nat) /\
      (Rand.valid src -> Spec.onPhotoCone pos) /\
      App.handleFileUpload ev s src k = Ok (s', (k + 3)%nat) /\
      App.mode s' = TREE /\
      App.focusId s' = None /\
      App.images s' =
        App.images s
        ++ [mkUploadedImage (App.uuid ev) (App.objectURL ev) pos (Some EmptyString)] /\
      App.editingId s' = Some (App.uuid ev) /\
      (App.uuid ev <> EmptyString -> JS.truthy (App.editingId s') = true) /\
      App.lastGestureSwitchRef s' = App.lastGestureSwitchRef s /\
      (forall m f t,
          App.handleFileUpload ev (Spec.withModeFields m f t s) src k
          = Ok (Spec.withModeFields TREE None t s', (k + 3)%nat)).
Proof.
  intros src k ev s Hf.
  destruct (handleFileUpload_run src k ev s Hf) as (pos & Hpos & Hrun).
  eexists pos, _. split; [exact Hpos|]. split.
  { intros Hv. eapply generateTreePosition_cone; eauto. }
  split; [exact Hrun|].
  cbn [App.mode App.focusId App.images App.editingId App.lastGestureSwitchRef].
  repeat split.
  - intros Hne. cbn [JS.truthy].
    destruct (String.eqb_spec (App.uuid ev) EmptyString); [contradiction | reflexivity].
  - intros m f t.
    destruct (handleFileUpload_run src k ev (Spec.withModeFields m f t s) Hf)
      as (pos' & Hpos' & Hrun').
    rewrite Hpos in Hpos'. injection Hpos' as <-.
    rewrite Hrun'. reflexivity.
Qed.

(** An upload into the focused sample scene. *)
Lemma C10_upload_resets_mode_witness :
  exists pos s',
    App.generateTreePosition Sample.half 0%nat = Ok (pos, 3%nat) /\
    App.handleFileUpload Sample.upload Sample.focused Sample.half 0%nat = Ok (s', 3%nat) /\
    App.mode s' = TREE /\
    App.focusId s' = None /\
    App.editingId s' = Some "d"%string /\
    App.lastGestureSwitchRef s' = 7000%Z.
Proof.
  destruct (C10_upload_resets_mode Sample.half 0%nat Sample.upload Sample.focused eq_refl)
    as (pos & s' & Hpos & _ & Hrun & Hm & Hf & _ & He & _ & Hl & _).
  exists pos, s'. repeat split; assumption.
Defined.

(** ** Eased blend weights *)

Lemma lerp_increment (x y t : R) : MathUtils.lerp x y t = x + (y - x) * t.
Proof. unfold MathUtils.lerp. ring. Qed.

Lemma lerp_unit (x y t : R) :
  0 <= t <= 1 -> Blend.inUnit x -> Blend.inUnit y -> Blend.inUnit (MathUtils.lerp x y t).
Proof.
  unfold Blend.inUnit, MathUtils.lerp. intros Ht Hx Hy. split; nra.
Qed.

Lemma targets_unit (mode : AppMode) :
  Blend.inUnit (fst (Blend.targets mode)) /\ Blend.inUnit (snd (Blend.targets mode)).
Proof. unfold Blend.inUnit. destruct mode; cbn; lra. Qed.

Lemma ease_unit (alpha : R) (mode : AppMode) (w : Blend.Weights) :
  0 <= alpha <= 1 -> Blend.weightsInUnit w -> Blend.weightsInUnit (Blend.ease alpha mode w).
Proof.
  intros Ha [Hs Hn]. unfold Blend.ease.
  destruct (targets_unit mode) as [Hts Htn].
  destruct (Blend.targets mode) as [ts tn]. cbn in *.
  split; cbn; now apply lerp_unit.
Qed.

Lemma easeFrames_unit (alpha : R) (modes : list AppMode) :
  0 <= alpha <= 1 ->
  forall w, Blend.weightsInUnit w ->
            Forall Blend.weightsInUnit (Blend.easeFrames alpha modes w).
Proof.
  intros Ha. induction modes as [|m modes IH]; intros w Hw; cbn.
  - constructor.
  - constructor.
    + now apply ease_unit.
    + apply IH. now apply ease_unit.
Qed.

(** A property kept by every frame holds after each frame of a run. *)
Lemma frames_invariant {S : Type} (P : S -> Prop) (useFrame : Blend.FrameIn -> S -> S) :
  (forall i s, P s -> P (useFrame i s)) ->
  forall ins s, P s -> Forall P (Blend.frames useFrame ins s).
Proof.
  intros Hstep. induction ins as [|i ins IH]; intros s Hs; cbn.
  - constructor.
  - constructor; [|apply IH]; now apply Hstep.
Qed.

(** One frame of a callback that eases its weights [w] with factor 0.05 *)
Ltac ease_step w H :=
  match goal with
  | i : Blend.FrameIn |- _ =>
      pose proof (ease_unit 0.05 (Blend.f_mode i) w) as He;
      destruct (Blend.ease 0.05 (Blend.f_mode i) w) as [s n];
      cbn in *; apply He; [lra | exact H]
  end.

Lemma StaticTree_useFrame_unit i st :
  Blend.weightsInUnit (TreeSystem.weights (fst st)) ->
  Blend.weightsInUnit (TreeSystem.weights (fst (TreeSystem.StaticTree_useFrame i st))).
Proof.
  destruct st as [u t]. intros H. unfold TreeSystem.StaticTree_useFrame.
  ease_step (TreeSystem.weights u) H.
Qed.

Lemma GoldenSpirals_useFrame_unit i u :
  Blend.weightsInUnit (TreeSystem.weights u) ->
  Blend.weightsInUnit (TreeSystem.weights (TreeSystem.GoldenSpirals_useFrame i u)).
Proof.
  intros H. unfold TreeSystem.GoldenSpirals_useFrame.
  ease_step (TreeSystem.weights u) H.
Qed.

Lemma Ornaments_useFrame_unit i r :
  Blend.weightsInUnit (Ornaments.weights r) ->
  Blend.weightsInUnit (Ornaments.weights (Ornaments.useFrame i r)).
Proof.
  intros H. unfold Ornaments.useFrame.
  ease_step (Ornaments.weights r) H.
Qed.

(** C2. With a smoothing factor [alpha] in (0, 1), one easing step is
    [weight + (target - weight) * alpha] with target 0 or 1, and over any
    run of frames, whatever the mode on each frame, the scatter weight and
    the message weight stay in [0, 1] when they start there.  The same
    holds for the three callbacks of the code, whose factor is 0.05: the
    foliage uniforms, the spiral uniforms and the ornament refs. *)
Theorem C2_weights_stay_in_unit_interval :
  forall alpha : R,
    0 < alpha < 1 ->
    (forall mode w,
        Blend.ease alpha mode w =
        (fst w + (fst (Blend.targets mode) - fst w) * alpha,
         snd w + (snd (Blend.targets mode) - snd w) * alpha) /\
        (fst (Blend.targets mode) = 0 \/ fst (Blend.targets mode) = 1) /\
        (snd (Blend.targets mode) = 0 \/ snd (Blend.targets mode) = 1)) /\
    (forall modes w0,
        Blend.weightsInUnit w0 ->
        Forall Blend.weightsInUnit (Blend.easeFrames alpha modes w0)) /\
    (forall ins st0,
        Blend.weightsInUnit (TreeSystem.weights (fst st0)) ->
        Forall (fun st => Blend.weightsInUnit (TreeSystem.weights (fst st)))
               (Blend.frames TreeSystem.StaticTree_useFrame ins st0)) /\
    (forall ins u0,
        Blend.weightsInUnit (TreeSystem.weights u0) ->
        Forall (fun u => Blend.weightsInUnit (TreeSystem.weights u))
               (Blend.frames TreeSystem.GoldenSpirals_useFrame ins u0)) /\
    (forall ins r0,
        Blend.weightsInUnit (Ornaments.weights r0) ->
        Forall (fun r => Blend.weightsInUnit (Ornaments.weights r))
               (Blend.frames Ornaments.useFrame ins r0)).
Proof.
  intros alpha Ha. split; [|split; [|split; [|split]]].
  - intros mode w. split; [|destruct mode; cbn; auto].
    unfold Blend.ease. destruct (Blend.targets mode) as [ts tn]. cbn.
    now rewrite !lerp_increment.
  - intros modes w0. apply easeFrames_unit. lra.
  - intros ins st0.
    apply (frames_invariant
             (fun st => Blend.weightsInUnit (TreeSystem.weights (fst st)))).
    apply StaticTree_useFrame_unit.
  - intros ins u0.
    apply (frames_invariant (fun u => Blend.weightsInUnit (TreeSystem.weights u))).
    apply GoldenSpirals_useFrame_unit.
  - intros ins r0.
    apply (frames_invariant (fun r => Blend.weightsInUnit (Ornaments.weights r))).
    apply Ornaments_useFrame_unit.
Qed.

Lemma zero_weights_in_unit : Blend.weightsInUnit (0, 0).
Proof. unfold Blend.weightsInUnit, Blend.inUnit. cbn. lra. Qed.

(** The factor 0.05 of the code, from the initial weights 0, over frames
    that flap through the four modes. *)
Lemma C2_weights_stay_in_unit_interval_witness :
  0 < 0.05 < 1 /\
  Forall Blend.weightsInUnit
         (Blend.easeFrames 0.05 [SCATTER; NEW_YEAR; TREE; FOCUS] (0, 0)) /\
  Forall (fun r => Blend.weightsInUnit (Ornaments.weights r))
         (Blend.frames Ornaments.useFrame Sample.flapping Ornaments.initialRefs).
Proof.
  assert (Ha : 0 < 0.05 < 1) by lra.
  split; [exact Ha|].
  destruct (C2_weights_stay_in_unit_interval 0.05 Ha) as (_ & Hw & _ & _ & Ho).
  split.
  - apply Hw. exact zero_weights_in_unit.
  - apply Ho. exact zero_weights_in_unit.
Defined.

(** ** Nested blend of the three formations *)

Lemma lerpVectors_lerp (v1 v2 : Vector3.t) (alpha : R) :
  Vector3.lerpVectors v1 v2 alpha =
  Vector3.mk (MathUtils.lerp (Vector3.x v1) (Vector3.x v2) alpha)
             (MathUtils.lerp (Vector3.y v1) (Vector3.y v2) alpha)
             (MathUtils.lerp (Vector3.z v1) (Vector3.z v2) alpha).
Proof. unfold Vector3.lerpVectors, MathUtils.lerp. f_equal; ring. Qed.



Lemma lerpVectors_zero (v1 v2 : Vector3.t) : Vector3.lerpVectors v1 v2 0 = v1.
Proof. destruct v1 as [x1 y1 z1]. unfold Vector3.lerpVectors. cbn. f_equal; ring. Qed.








(** ** Chaos formations *)

Lemma spherical_length (r theta phi : R) :
  0 <= r -> Vector3.length (Spec.spherical r theta phi) = r.
Proof.
  intros Hr. unfold Vector3.length, Spec.spherical. cbn.
  pose proof (sin2_cos2 theta) as Ht. pose proof (sin2_cos2 phi) as Hp.
  unfold Rsqr in Ht, Hp.
  replace (r * sin phi * cos theta * (r * sin phi * cos theta)
           + r * sin phi * sin theta * (r * sin phi * sin theta)
           + r * cos phi * (r * cos phi))
    with (r * r * (sin phi * sin phi * (sin theta * sin theta + cos theta * cos theta)
                   + cos phi * cos phi)) by ring.
  rewrite Ht, Rmult_1_r, Hp, Rmult_1_r.
  now apply sqrt_square.
Qed.

(** A loop whose body always returns after [d] draws with a result
    satisfying [P] returns [count] such results after [count * d] draws. *)
Lemma loop_Forall {A : Type} (P : A -> Prop) (body : nat -> Rand.M A)
      (src : Rand.Source) (d : nat) :
  (forall i k, exists a, body i src k = Ok (a, (k + d)%nat) /\ P a) ->
  forall count i k,
  exists l, Rand.loop count i body src k = Ok (l, (k + count * d)%nat) /\
            List.length l = count /\ Forall P l.
Proof.
  intros Hbody. induction count as [|count IH]; intros i k.
  - exists []. cbn. unfold Rand.ret. repeat split; [|constructor].
    do 2 f_equal. lia.
  - destruct (Hbody i k) as (a & Ha & HP).
    destruct (IH (S i) (k + d)%nat) as (l & Hl & Hlen & HF).
    exists (a :: l). cbn [Rand.loop]. unfold Rand.bind at 1. rewrite Ha.
    unfold Rand.bind at 1. rewrite Hl. unfold Rand.ret.
    repeat split.
    + do 2 f_equal. lia.
    + cbn. now rewrite Hlen.
    + now constructor.
Qed.

Lemma length_sqr (v : Vector3.t) :
  Vector3.length v * Vector3.length v
  = Vector3.x v * Vector3.x v + Vector3.y v * Vector3.y v + Vector3.z v * Vector3.z v.
Proof.
  unfold Vector3.length. apply sqrt_sqrt.
  pose proof (Rle_0_sqr (Vector3.x v)). pose proof (Rle_0_sqr (Vector3.y v)).
  pose proof (Rle_0_sqr (Vector3.z v)). unfold Rsqr in *. lra.
Qed.

Lemma normalize_scale_length (v : Vector3.t) (s : R) :
  0 < Vector3.length v -> 0 <= s ->
  Vector3.length (Vector3.multiplyScalar (Vector3.normalize v) s) = s.
Proof.
  intros Hl Hs. unfold Vector3.normalize.
  destruct (Req_dec_T (Vector3.length v) 0) as [E|_]; [lra|].
  pose proof (length_sqr v) as Hsq.
  set (l := Vector3.length v) in *.
  unfold Vector3.length at 1, Vector3.multiplyScalar. cbn.
  replace (Vector3.x v * (1 / l) * s * (Vector3.x v * (1 / l) * s)
           + Vector3.y v * (1 / l) * s * (Vector3.y v * (1 / l) * s)
           + Vector3.z v * (1 / l) * s * (Vector3.z v * (1 / l) * s))
    with (s * s).
  - now apply sqrt_square.
  - transitivity ((Vector3.x v * Vector3.x v + Vector3.y v * Vector3.y v
                   + Vector3.z v * Vector3.z v) * (s * s) / (l * l)).
    + rewrite <- Hsq. field. lra.
    + field. lra.
Qed.

Lemma photoCone_length_pos (h : Vector3.t) :
  Spec.onPhotoCone (Vector3.x h, Vector3.y h, Vector3.z h) -> 0 < Vector3.length h.
Proof.
  intros [Hy (c & Hc & Hxz)].
  assert (Hr : 0 < 5.5 * (1 - (Vector3.y h + 7) / 14) * c) by nra.
  unfold Vector3.length. apply sqrt_lt_R0.
  pose proof (Rle_0_sqr (Vector3.y h)) as Hy2. unfold Rsqr in Hy2. nra.
Qed.

(** A loop whose body always returns after [d] draws, with a result
    that satisfies [P] at its index and its first draw, returns [count]
    results after [count * d] draws, the j-th satisfying [P] at index
    [i + j] and draw [k + j * d]. *)
Lemma loop_draws {A : Type} (P : nat -> nat -> A -> Prop) (body : nat -> Rand.M A)
      (src : Rand.Source) (d : nat) :
  (forall i k, exists a, body i src k = Ok (a, (k + d)%nat) /\ P i k a) ->
  forall count i k,
  exists l, Rand.loop count i body src k = Ok (l, (k + count * d)%nat) /\
            List.length l = count /\
            forall j a, nth_error l j = Some a -> P (i + j)%nat (k + j * d)%nat a.
Proof.
  intros Hbody. induction count as [|count IH]; intros i k.
  - exists []. cbn. unfold Rand.ret. split; [do 2 f_equal; lia|].
    split; [reflexivity|]. intros [|j] a H; discriminate.
  - destruct (Hbody i k) as (a & Ha & HP).
    destruct (IH (S i) (k + d)%nat) as (l & Hl & Hlen & Hnth).
    exists (a :: l). cbn [Rand.loop]. unfold Rand.bind at 1. rewrite Ha.
    unfold Rand.bind at 1. rewrite Hl. unfold Rand.ret.
    split; [do 2 f_equal; lia|]. split; [cbn; now rewrite Hlen|].
    intros [|j] b Hb.
    + cbn in Hb. injection Hb as <-.
      replace (i + 0)%nat with i by lia. replace (k + 0 * d)%nat with k by lia.
      exact HP.
    + cbn in Hb.
      replace (i + S j)%nat with (S i + j)%nat by lia.
      replace (k + S j * d)%nat with (k + d + j * d)%nat by lia.
      now apply Hnth.
Qed.

(** A point drawn in spherical coordinates from three draws in [0, 1):
    its azimuth lies in [0, 2 PI), its polar angle in [0, PI], and its
    norm is the radius drawn, in [base, base + extra). *)
Lemma spherical_draw (base extra u1 u2 u3 : R) :
  0 <= base -> 0 < extra -> 0 <= u1 < 1 -> 0 <= u3 < 1 ->
  0 <= u1 * PI * 2 < 2 * PI /\
  0 <= acos (u2 * 2 - 1) <= PI /\
  Vector3.length (Spec.spherical (base + u3 * extra) (u1 * PI * 2) (acos (u2 * 2 - 1)))
  = base + u3 * extra /\
  base <= base + u3 * extra < base + extra.
Proof.
  intros Hb He H1 H3. pose proof PI_RGT_0 as Hpi.
  assert (Hr : base <= base + u3 * extra < base + extra) by nra.
  split; [nra|]. split; [apply acos_bound|].
  split; [apply spherical_length; lra | exact Hr].
Qed.

Section ValidSource.

(** The random source of the page, whose values lie in [0, 1). *)
Variable src : Rand.Source.
Hypothesis src_valid : Rand.valid src.

Lemma treeDatum_chaos i k :
  exists f, TreeSystem.treeDatum i src k = Ok (f, (k + 8)%nat) /\
            TreeSystem.fo_chaos f
            = Spec.spherical (20 + src (k + 5)%nat * 20) (src (k + 3)%nat * PI * 2)
                             (acos (src (k + 4)%nat * 2 - 1)).
Proof.
  eexists. split.
  - unfold TreeSystem.treeDatum, Rand.bind, Rand.random, Rand.ret.
    do 2 f_equal. lia.
  - cbn [TreeSystem.fo_chaos]. unfold Spec.spherical.
    rewrite ?Nat.add_succ_r, ?Nat.add_0_r. reflexivity.
Qed.

Lemma spiralDatum_chaos count i k :
  exists s, TreeSystem.spiralDatum count i src k = Ok (s, (k + 7)%nat) /\
            TreeSystem.sp_chaos s
            = Vector3.mk ((src (k + 2)%nat - 0.5) * 45) ((src (k + 3)%nat - 0.5) * 45)
                         ((src (k + 4)%nat - 0.5) * 45).
Proof.
  eexists. split.
  - unfold TreeSystem.spiralDatum, Rand.bind, Rand.random, Rand.ret.
    do 2 f_equal. lia.
  - cbn [TreeSystem.sp_chaos].
    rewrite ?Nat.add_succ_r, ?Nat.add_0_r. reflexivity.
Qed.

Lemma ornamentDatum_chaos scatterRadius nyPosList i k :
  exists d, Ornaments.ornamentDatum scatterRadius nyPosList i src k = Ok (d, (k + 8)%nat) /\
            Ornaments.chaosPos d
            = Spec.spherical (scatterRadius + src (k + 4)%nat * 10)
                             (src (k + 2)%nat * PI * 2)
                             (acos (src (k + 3)%nat * 2 - 1)).
Proof.
  eexists. split.
  - unfold Ornaments.ornamentDatum, Rand.bind, Rand.random, Rand.ret.
    do 2 f_equal. lia.
  - cbn [Ornaments.chaosPos]. unfold Spec.spherical.
    rewrite ?Nat.add_succ_r, ?Nat.add_0_r. reflexivity.
Qed.

(** The text sampler never indexes outside its pool; with a canvas it
    draws twice per point, without one not at all. *)
Lemma generateNewYearPoints_draws canvas count scale zOffset zVariation k :
  exists l,
    Ornaments.generateNewYearPoints canvas count scale zOffset zVariation src k
    = Ok (l, (k + match canvas with Some _ => count * 2 | None => 0 end)%nat) /\
    List.length l = count.
Proof.
  unfold Ornaments.generateNewYearPoints.
  destruct canvas as [decorationPool|].
  - set (pool := if (0 <? List.length decorationPool)%nat then decorationPool
                 else [(512, 512)]).
    assert (Hpool : (0 < List.length pool)%nat).
    { unfold pool. destruct (Nat.ltb_spec 0 (List.length decorationPool)); [assumption|].
      cbn. lia. }
    edestruct (loop_Forall (fun _ : Vector3.t => True)) with (d := 2%nat)
      as (l & Hl & Hlen & _); [|exists l; split; [exact Hl | exact Hlen]].
    intros i k0. unfold Rand.bind at 1, Rand.random.
    destruct (index_in_range pool (JS.floor (src k0 * INR (List.length pool))))
      as (coord & Hc & _).
    { apply floor_index_range; [apply src_valid | exact Hpool]. }
    rewrite Hc. eexists. split; [|exact I].
    unfold Rand.bind, Rand.ret. do 2 f_equal. lia.
  - eexists. split; [|apply repeat_length].
    unfold Rand.ret. do 2 f_equal. lia.
Qed.

Lemma photoChaosPos_run h k :
  TreeSystem.photoChaosPos h src k
  = Ok (Vector3.mk
          (Vector3.x (Vector3.multiplyScalar (Vector3.normalize h) (15 + src k * 15)))
          (Vector3.y (Vector3.multiplyScalar (Vector3.normalize h) (15 + src k * 15))
           + (src (k + 1)%nat - 0.5) * 10)
          (Vector3.z (Vector3.multiplyScalar (Vector3.normalize h) (15 + src k * 15))),
        (k + 2)%nat).
Proof.
  unfold TreeSystem.photoChaosPos, Rand.bind, Rand.random, Rand.ret. cbv zeta.
  rewrite ?Nat.add_succ_r, ?Nat.add_0_r. reflexivity.
Qed.

End ValidSource.

(** C9, as the code has it, over real numbers.  Under a valid random
    source, with [k] the number of draws made before the call:
    - the j-th foliage particle of [generateTreeData] has its chaos
      position at spherical coordinates azimuth [u1 * 2 PI] in [0, 2 PI),
      polar angle [acos (2 u2 - 1)] and radius [20 + u3 * 20], where
      [u1], [u2], [u3] are the fourth, fifth and sixth of its eight draws;
      its norm is that radius, in [20, 40);
    - the j-th ornament of [useOrnamentData] likewise with radius
      [scatterRadius + u3 * 10], where [u1], [u2], [u3] are the third,
      fourth and fifth of its eight draws, made after those of the text
      sampler; its norm lies in [scatterRadius, scatterRadius + 10);
    - the j-th spiral particle of [generateSpiralData] has its chaos
      coordinates [(u - 0.5) * 45] for the third, fourth and fifth of its
      seven draws, a point of the cube of half side 22.5 and not of a shell;
    - a photo card has its chaos position on the ray of its home position
      at distance [15 + u1 * 15], in [15, 30), then shifted along y by
      [(u2 - 0.5) * 10], in [-5, 5), for its two draws [u1], [u2]. *)
Theorem C9_chaos_formations :
  forall src : Rand.Source,
    Rand.valid src ->
    (forall count k,
        exists data,
          TreeSystem.generateTreeData count src k = Ok (data, (k + count * 8)%nat) /\
          List.length data = count /\
          forall j f, nth_error data j = Some f ->
            let u1 := src (k + j * 8 + 3)%nat in
            let u2 := src (k + j * 8 + 4)%nat in
            let u3 := src (k + j * 8 + 5)%nat in
            TreeSystem.fo_chaos f
            = Spec.spherical (20 + u3 * 20) (u1 * PI * 2) (acos (u2 * 2 - 1)) /\
            0 <= u1 * PI * 2 < 2 * PI /\ 0 <= acos (u2 * 2 - 1) <= PI /\
            Vector3.length (TreeSystem.fo_chaos f) = 20 + u3 * 20 /\
            20 <= Vector3.length (TreeSystem.fo_chaos f) < 40) /\
    (forall canvas count scatterRadius zBase zVar k,
        0 <= scatterRadius ->
        let k1 := (k + match canvas with Some _ => count * 2 | None => 0 end)%nat in
        exists data,
          Ornaments.useOrnamentData canvas count scatterRadius zBase zVar src k
            = Ok (data, (k1 + count * 8)%nat) /\
          List.length data = count /\
          forall j d, nth_error data j = Some d ->
            let u1 := src (k1 + j * 8 + 2)%nat in
            let u2 := src (k1 + j * 8 + 3)%nat in
            let u3 := src (k1 + j * 8 + 4)%nat in
            Ornaments.chaosPos d
            = Spec.spherical (scatterRadius + u3 * 10) (u1 * PI * 2) (acos (u2 * 2 - 1)) /\
            0 <= u1 * PI * 2 < 2 * PI /\ 0 <= acos (u2 * 2 - 1) <= PI /\
            Vector3.length (Ornaments.chaosPos d) = scatterRadius + u3 * 10 /\
            scatterRadius <= Vector3.length (Ornaments.chaosPos d) < scatterRadius + 10) /\
    (forall count k,
        exists data,
          TreeSystem.generateSpiralData count src k = Ok (data, (k + count * 7)%nat) /\
          List.length data = count /\
          forall j s, nth_error data j = Some s ->
            TreeSystem.sp_chaos s
            = Vector3.mk ((src (k + j * 7 + 2)%nat - 0.5) * 45)
                         ((src (k + j * 7 + 3)%nat - 0.5) * 45)
                         ((src (k + j * 7 + 4)%nat - 0.5) * 45) /\
            Spec.inCube 22.5 (TreeSystem.sp_chaos s)) /\
    (forall h k,
        Spec.onPhotoCone (Vector3.x h, Vector3.y h, Vector3.z h) ->
        let u1 := src k in
        let u2 := src (k + 1)%nat in
        let p := Vector3.multiplyScalar (Vector3.normalize h) (15 + u1 * 15) in
        TreeSystem.photoChaosPos h src k
        = Ok (Vector3.mk (Vector3.x p) (Vector3.y p + (u2 - 0.5) * 10) (Vector3.z p),
              (k + 2)%nat) /\
        Vector3.length p = 15 + u1 * 15 /\
        15 <= Vector3.length p < 30 /\
        - 5 <= (u2 - 0.5) * 10 < 5).
Proof.
  intros src Hv. split; [|split; [|split]].
  - intros count k. unfold TreeSystem.generateTreeData.
    destruct (loop_draws
                (fun (_ : nat) k0 f =>
                   TreeSystem.fo_chaos f
                   = Spec.spherical (20 + src (k0 + 5)%nat * 20) (src (k0 + 3)%nat * PI * 2)
                                    (acos (src (k0 + 4)%nat * 2 - 1)))
                TreeSystem.treeDatum src 8%nat (treeDatum_chaos src)) with
      (count := count) (i := 0%nat) (k := k) as (data & Hd & Hlen & Hnth).
    exists data. split; [exact Hd|]. split; [exact Hlen|].
    intros j f Hj. cbv zeta. specialize (Hnth j f Hj). cbn beta in Hnth.
    destruct (spherical_draw 20 20 (src (k + j * 8 + 3)%nat) (src (k + j * 8 + 4)%nat)
                             (src (k + j * 8 + 5)%nat)) as (Ht & Hp & Hl & Hr);
      [lra | lra | apply Hv | apply Hv |].
    rewrite Hnth.
    split; [reflexivity|]. split; [exact Ht|]. split; [exact Hp|].
    rewrite Hl. split; [reflexivity | lra].
  - intros canvas count scatterRadius zBase zVar k Hr k1.
    unfold Ornaments.useOrnamentData, Rand.bind.
    destruct (generateNewYearPoints_draws src Hv canvas count 18 zBase zVar k)
      as (nyPosList & Hny & _).
    rewrite Hny. fold k1.
    destruct (loop_draws
                (fun (_ : nat) k0 d =>
                   Ornaments.chaosPos d
                   = Spec.spherical (scatterRadius + src (k0 + 4)%nat * 10)
                                    (src (k0 + 2)%nat * PI * 2)
                                    (acos (src (k0 + 3)%nat * 2 - 1)))
                (Ornaments.ornamentDatum scatterRadius nyPosList) src 8%nat
                (ornamentDatum_chaos src scatterRadius nyPosList)) with
      (count := count) (i := 0%nat) (k := k1) as (data & Hd & Hlen & Hnth).
    exists data. split; [exact Hd|]. split; [exact Hlen|].
    intros j d Hj. cbv zeta. specialize (Hnth j d Hj). cbn beta in Hnth.
    destruct (spherical_draw scatterRadius 10 (src (k1 + j * 8 + 2)%nat)
                             (src (k1 + j * 8 + 3)%nat) (src (k1 + j * 8 + 4)%nat))
      as (Ht & Hp & Hl & Hrg); [exact Hr | lra | apply Hv | apply Hv |].
    rewrite Hnth.
    split; [reflexivity|]. split; [exact Ht|]. split; [exact Hp|].
    rewrite Hl. split; [reflexivity | exact Hrg].
  - intros count k. unfold TreeSystem.generateSpiralData.
    destruct (loop_draws
                (fun (_ : nat) k0 s =>
                   TreeSystem.sp_chaos s
                   = Vector3.mk ((src (k0 + 2)%nat - 0.5) * 45)
                                ((src (k0 + 3)%nat - 0.5) * 45)
                                ((src (k0 + 4)%nat - 0.5) * 45))
                (TreeSystem.spiralDatum count) src 7%nat (spiralDatum_chaos src count)) with
      (count := count) (i := 0%nat) (k := k) as (data & Hd & Hlen & Hnth).
    exists data. split; [exact Hd|]. split; [exact Hlen|].
    intros j s Hj. specialize (Hnth j s Hj). cbn beta in Hnth.
    split; [exact Hnth|]. rewrite Hnth. unfold Spec.inCube. cbn.
    pose proof (Hv (k + j * 7 + 2)%nat). pose proof (Hv (k + j * 7 + 3)%nat).
    pose proof (Hv (k + j * 7 + 4)%nat). lra.
  - intros h k Hcone u1 u2 p.
    pose proof (Hv k) as H1. pose proof (Hv (k + 1)%nat) as H2.
    split; [apply photoChaosPos_run|].
    assert (Hl : Vector3.length p = 15 + u1 * 15).
    { unfold p. apply normalize_scale_length;
        [now apply photoCone_length_pos | unfold u1; lra]. }
    split; [exact Hl|]. rewrite Hl. unfold u1, u2. lra.
Qed.

(** Three foliage particles and two spiral particles drawn from the
    constant source 1/2. *)
Lemma C9_chaos_formations_witness :
  (exists data,
      TreeSystem.generateTreeData 3 Sample.half 0%nat = Ok (data, (0 + 3 * 8)%nat) /\
      List.length data = 3%nat /\
      forall j f, nth_error data j = Some f ->
        TreeSystem.fo_chaos f
        = Spec.spherical (20 + Sample.half (0 + j * 8 + 5)%nat * 20)
                         (Sample.half (0 + j * 8 + 3)%nat * PI * 2)
                         (acos (Sample.half (0 + j * 8 + 4)%nat * 2 - 1)) /\
        20 <= Vector3.length (TreeSystem.fo_chaos f) < 40) /\
  (exists data,
      TreeSystem.generateSpiralData 2 Sample.half 0%nat = Ok (data, (0 + 2 * 7)%nat) /\
      List.length data = 2%nat /\
      forall j s, nth_error data j = Some s ->
        Spec.inCube 22.5 (TreeSystem.sp_chaos s)).
Proof.
  destruct (C9_chaos_formations Sample.half half_valid) as (Hf & _ & Hs & _).
  split.
  - destruct (Hf 3%nat 0%nat) as (data & Hd & Hlen & Hnth).
    exists data. split; [exact Hd|]. split; [exact Hlen|].
    intros j f Hj. destruct (Hnth j f Hj) as (Hc & _ & _ & _ & Hn).
    split; [exact Hc | exact Hn].
  - destruct (Hs 2%nat 0%nat) as (data & Hd & Hlen & Hnth).
    exists data. split; [exact Hd|]. split; [exact Hlen|].
    intros j s Hj. exact (proj2 (Hnth j s Hj)).
Defined.

(** C9 as stated fails for the spiral particles: with every draw equal to
    1/2, the one particle of [generateSpiralData 1] has its chaos position
    at the origin, on no shell of positive base radius. *)
Lemma C9_spiral_counterexample :
  exists sp,
    TreeSystem.generateSpiralData 1 Sample.half 0%nat = Ok ([sp], 7%nat) /\
    TreeSystem.sp_chaos sp = Vector3.mk 0 0 0 /\
    Vector3.length (TreeSystem.sp_chaos sp) = 0 /\
    forall base extra, 0 < base -> ~ Spec.onShell base extra (TreeSystem.sp_chaos sp).
Proof.
  eexists. split; [reflexivity|].
  cbn [TreeSystem.sp_chaos]. unfold Sample.half.
  assert (E : Vector3.mk ((0.5 - 0.5) * 45) ((0.5 - 0.5) * 45) ((0.5 - 0.5) * 45)
              = Vector3.mk 0 0 0) by (f_equal; lra).
  rewrite E.
  assert (L : Vector3.length (Vector3.mk 0 0 0) = 0).
  { unfold Vector3.length. cbn.
    replace (0 * 0 + 0 * 0 + 0 * 0) with 0 by ring. apply sqrt_0. }
  split; [reflexivity|]. split; [exact L|].
  intros base extra Hb [Hlo _]. rewrite L in Hlo. lra.
Qed.

(* ================================================================== *)
(** * Further properties of the code *)
(* ================================================================== *)

(** ** Playlist *)

Lemma nextIndex_range (len prev : Z) :
  (0 <= prev < len)%Z -> (0 <= Player.nextIndex len prev < len)%Z.
Proof.
  intros H. unfold Player.nextIndex.
  rewrite Z.rem_mod_nonneg by lia. apply Z.mod_pos_bound. lia.
Qed.

Lemma prevIndex_range (len prev : Z) :
  (0 <= prev < len)%Z -> (0 <= Player.prevIndex len prev < len)%Z.
Proof.
  intros H. unfold Player.prevIndex.
  rewrite Z.rem_mod_nonneg by lia. apply Z.mod_pos_bound. lia.
Qed.

Lemma nextIndex_value (len prev : Z) :
  (0 <= prev < len)%Z ->
  Player.nextIndex len prev = (if (prev + 1 =? len)%Z then 0 else prev + 1)%Z.
Proof.
  intros H. unfold Player.nextIndex. rewrite Z.rem_mod_nonneg by lia.
  destruct (Z.eqb_spec (prev + 1) len) as [E|E].
  - rewrite E. apply Z.mod_same. lia.
  - apply Z.mod_small. lia.
Qed.

Lemma prevIndex_value (len prev : Z) :
  (0 <= prev < len)%Z ->
  Player.prevIndex len prev = (if (prev =? 0)%Z then len - 1 else prev - 1)%Z.
Proof.
  intros H. unfold Player.prevIndex. rewrite Z.rem_mod_nonneg by lia.
  destruct (Z.eqb_spec prev 0) as [E|E].
  - subst prev. replace (0 - 1 + len)%Z with (len - 1)%Z by lia.
    apply Z.mod_small. lia.
  - replace (prev - 1 + len)%Z with (prev - 1 + 1 * len)%Z by lia.
    rewrite Z.mod_add by lia. apply Z.mod_small. lia.
Qed.

(** X1. On a playlist whose current index is in range, Next and Previous
    keep the index in range, wrap around at the two ends, and undo each
    other. *)
Theorem playlist_next_prev_inverse :
  forall s : Player.State,
    (0 <= Player.currentTrackIndex s < Z.of_nat (List.length (Player.playlist s)))%Z ->
    let len := Z.of_nat (List.length (Player.playlist s)) in
    let i := Player.currentTrackIndex s in
    (0 <= Player.currentTrackIndex (Player.handleNextTrack s) < len)%Z /\
    (0 <= Player.currentTrackIndex (Player.handlePrevTrack s) < len)%Z /\
    Player.currentTrackIndex (Player.handleNextTrack s)
      = (if (i + 1 =? len)%Z then 0 else i + 1)%Z /\
    Player.currentTrackIndex (Player.handlePrevTrack s)
      = (if (i =? 0)%Z then len - 1 else i - 1)%Z /\
    Player.handlePrevTrack (Player.handleNextTrack s) = s /\
    Player.handleNextTrack (Player.handlePrevTrack s) = s.
Proof.
  intros [pl i] H. cbn in *.
  set (len := Z.of_nat (List.length pl)) in *.
  split; [now apply nextIndex_range|]. split; [now apply prevIndex_range|].
  split; [now apply nextIndex_value|]. split; [now apply prevIndex_value|].
  unfold Player.handlePrevTrack, Player.handleNextTrack. cbn. fold len.
  split; f_equal.
  - rewrite prevIndex_value by now apply nextIndex_range.
    rewrite nextIndex_value by assumption.
    destruct (Z.eqb_spec (i + 1) len); cbn.
    + lia.
    + destruct (Z.eqb_spec (i + 1) 0); lia.
  - rewrite nextIndex_value by now apply prevIndex_range.
    rewrite prevIndex_value by assumption.
    destruct (Z.eqb_spec i 0); cbn.
    + destruct (Z.eqb_spec (len - 1 + 1) len); lia.
    + destruct (Z.eqb_spec (i - 1 + 1) len); lia.
Qed.

(** The second of three tracks: Next goes to the third, Previous back. *)
Lemma playlist_next_prev_inverse_witness :
  let s := Player.mkState
             [Player.mkTrack "a" "A" "u:a"; Player.mkTrack "b" "B" "u:b";
              Player.mkTrack "c" "C" "u:c"] 1 in
  Player.currentTrackIndex (Player.handleNextTrack s) = 2%Z /\
  Player.handlePrevTrack (Player.handleNextTrack s) = s.
Proof.
  cbv zeta.
  pose proof (playlist_next_prev_inverse
                (Player.mkState
                   [Player.mkTrack "a" "A" "u:a"; Player.mkTrack "b" "B" "u:b";
                    Player.mkTrack "c" "C" "u:c"] 1)) as H.
  cbv zeta in H. destruct H as (_ & _ & Hn & _ & Hpn & _).
  - cbn. lia.
  - split; [exact Hn | exact Hpn].
Defined.

Lemma playlist_step_range (e : Player.Event) (s : Player.State) :
  Player.offered e s ->
  (0 <= Player.currentTrackIndex s < Z.of_nat (List.length (Player.playlist s)))%Z ->
  (0 <= Player.currentTrackIndex (Player.step e s)
   < Z.of_nat (List.length (Player.playlist (Player.step e s))))%Z.
Proof.
  intros Hoff H. destruct e as [| | |idx|files]; cbn [Player.step].
  - cbn. now apply nextIndex_range.
  - cbn. now apply prevIndex_range.
  - cbn. unfold Player.nextIndex. rewrite Z.rem_1_r. lia.
  - cbn in *. lia.
  - unfold Player.handleMusicUpload.
    destruct (0 <? List.length files)%nat; [|exact H].
    cbn. rewrite length_app. lia.
Qed.

(** X2. From the initial one-track playlist, after any run of Next,
    Previous, track-ended, select and import events, the current index is
    within the playlist, so [playlist[currentTrackIndex]] is a track. *)
Theorem playlist_index_in_range :
  forall (es : list Player.Event) (s : Player.State),
    Player.runs Player.initial es s ->
    (0 <= Player.currentTrackIndex s < Z.of_nat (List.length (Player.playlist s)))%Z /\
    exists track, Player.currentTrack s = Some track.
Proof.
  assert (Hgen : forall s0 es s,
             Player.runs s0 es s ->
             (0 <= Player.currentTrackIndex s0
              < Z.of_nat (List.length (Player.playlist s0)))%Z ->
             (0 <= Player.currentTrackIndex s
              < Z.of_nat (List.length (Player.playlist s)))%Z).
  { intros s0 es s Hr. induction Hr as [|s0 e es s' Hoff Hr IH]; intros H.
    - exact H.
    - apply IH. now apply playlist_step_range. }
  intros es s Hr.
  assert (Hrange := Hgen _ _ _ Hr). cbn in Hrange. specialize (Hrange ltac:(lia)).
  split; [exact Hrange|].
  destruct (index_in_range (Player.playlist s) (Player.currentTrackIndex s) Hrange)
    as (track & Ht & _).
  now exists track.
Qed.

(** Two imported files, then Previous from the first track: the index
    wraps to the last track. *)
Lemma playlist_index_in_range_witness :
  exists s track,
    Player.runs Player.initial
                [Player.Import [Player.mkAudioFile "u1" "one.mp3" "blob:1";
                                Player.mkAudioFile "u2" "two.mp3" "blob:2"];
                 Player.Prev] s /\
    Player.currentTrackIndex s = 2%Z /\
    Player.currentTrack s = Some track.
Proof.
  eexists. 
  assert (Hr : Player.runs Player.initial
                [Player.Import [Player.mkAudioFile "u1" "one.mp3" "blob:1";
                                Player.mkAudioFile "u2" "two.mp3" "blob:2"];
                 Player.Prev]
                (Player.step Player.Prev
                   (Player.step (Player.Import
                                   [Player.mkAudioFile "u1" "one.mp3" "blob:1";
                                    Player.mkAudioFile "u2" "two.mp3" "blob:2"])
                                Player.initial))).
  { repeat (constructor; [exact I|]). constructor. }
  destruct (playlist_index_in_range _ _ Hr) as [_ [track Ht]].
  exists track. split; [exact Hr|]. split; [reflexivity | exact Ht].
Defined.

(** X3. The track-ended handler was created by the mount effect, so it
    advances modulo the length of the initial playlist, which is 1: when a
    track ends the index becomes 0 whatever it was and however many tracks
    were imported, whereas the Next button moves from [i] to [i + 1]. *)
Theorem playlist_ended_returns_to_first :
  forall s : Player.State,
    Player.currentTrackIndex (Player.onended s) = 0%Z /\
    Player.playlist (Player.onended s) = Player.playlist s /\
    ((0 <= Player.currentTrackIndex s)%Z ->
     (Player.currentTrackIndex s + 1 < Z.of_nat (List.length (Player.playlist s)))%Z ->
     Player.currentTrackIndex (Player.handleNextTrack s)
       = (Player.currentTrackIndex s + 1)%Z).
Proof.
  intros [pl i]. cbn. split; [|split; [reflexivity|]].
  - unfold Player.nextIndex. apply Z.rem_1_r.
  - intros H0 H1. rewrite nextIndex_value by lia.
    destruct (Z.eqb_spec (i + 1) (Z.of_nat (List.length pl))); lia.
Qed.

(** ** Volume fade *)

Lemma ticks_stopped (n : nat) (target v : R) :
  Audio.ticks n target (Audio.mkFade v false) = Audio.mkFade v false.
Proof. induction n as [|n IH]; [reflexivity | exact IH]. Qed.

Lemma tick_running (target v : R) :
  Audio.tick target (Audio.mkFade v true) =
  if JS.lt (Rabs (target - v)) 0.01 then Audio.mkFade target false
  else Audio.mkFade (v + (target - v) * 0.1) true.
Proof. reflexivity. Qed.

(** After [n] runs of the callback the fade has either finished on the
    target, or the distance to the target has shrunk by [0.9 ^ n] and was
    at least 0.01 before the last run. *)
Lemma ticks_shape (n : nat) (target v : R) :
  Audio.ticks n target (Audio.mkFade v true) = Audio.mkFade target false \/
  (Audio.ticks n target (Audio.mkFade v true)
     = Audio.mkFade (target - (target - v) * 0.9 ^ n) true /\
   ((0 < n)%nat -> 0.01 <= Rabs (target - v) * 0.9 ^ (n - 1))).
Proof.
  revert v. induction n as [|n IH]; intros v.
  - right. split; [|lia]. cbn.
    replace (target - (target - v) * 1) with v by ring. reflexivity.
  - cbn [Audio.ticks]. rewrite tick_running.
    destruct (JS.lt (Rabs (target - v)) 0.01) eqn:E.
    + left. apply ticks_stopped.
    + apply lt_false in E.
      destruct (IH (v + (target - v) * 0.1)) as [Hdone|[Hrun Hbig]].
      * now left.
      * right. split.
        -- assert (E2 : target - (target - (v + (target - v) * 0.1)) * 0.9 ^ n
                        = target - (target - v) * 0.9 ^ S n).
           { cbn [pow].
             replace (target - (v + (target - v) * 0.1)) with (0.9 * (target - v))
               by lra.
             ring. }
           rewrite Hrun, E2. reflexivity.
        -- intros _. replace (S n - 1)%nat with n by lia.
           destruct n as [|n].
           ++ cbn. lra.
           ++ specialize (Hbig ltac:(lia)).
              replace (S n - 1)%nat with n in Hbig by lia.
              replace (target - (v + (target - v) * 0.1))
                with (0.9 * (target - v)) in Hbig by lra.
              rewrite Rabs_mult, (Rabs_pos_eq 0.9) in Hbig by lra.
              cbn [pow]. lra.
Qed.

Lemma pow_09_44 : 0.9 ^ 44 < 0.01.
Proof.
  assert (H4 : 0.9 ^ 4 < 0.6562) by (cbn; lra).
  assert (H8 : 0.9 ^ 8 < 0.4306).
  { replace (0.9 ^ 8) with (0.9 ^ 4 * 0.9 ^ 4) by (cbn; ring).
    assert (0 < 0.9 ^ 4) by (apply pow_lt; lra). nra. }
  assert (H16 : 0.9 ^ 16 < 0.1855).
  { replace (0.9 ^ 16) with (0.9 ^ 8 * 0.9 ^ 8) by (cbn; ring).
    assert (0 < 0.9 ^ 8) by (apply pow_lt; lra). nra. }
  assert (H32 : 0.9 ^ 32 < 0.0345).
  { replace (0.9 ^ 32) with (0.9 ^ 16 * 0.9 ^ 16) by (cbn; ring).
    assert (0 < 0.9 ^ 16) by (apply pow_lt; lra). nra. }
  replace (0.9 ^ 44) with (0.9 ^ 32 * (0.9 ^ 8 * 0.9 ^ 4)) by (cbn; ring).
  assert (0 < 0.9 ^ 4) by (apply pow_lt; lra).
  assert (0 < 0.9 ^ 8) by (apply pow_lt; lra).
  assert (0 < 0.9 ^ 32) by (apply pow_lt; lra).
  assert (0.9 ^ 8 * 0.9 ^ 4 < 0.4306 * 0.6562) by nra.
  nra.
Qed.

Lemma pow_09_unit (n : nat) : 0 < 0.9 ^ n <= 1.
Proof.
  split; [apply pow_lt; lra|].
  induction n as [|n IH]; cbn; [lra|].
  assert (0 < 0.9 ^ n) by (apply pow_lt; lra). nra.
Qed.

(** X4. A volume fade between two volumes of [0, 1] is over after at most
    45 runs of the interval callback (2.25 s): the volume is then exactly
    the target and the interval is cleared.  At every run before that the
    volume lies between the starting volume and the target, hence in
    [0, 1]. *)
Theorem fade_reaches_target :
  forall target v0 : R,
    0 <= target <= 1 -> 0 <= v0 <= 1 ->
    (forall n, (45 <= n)%nat ->
               Audio.ticks n target (Audio.startFade v0) = Audio.mkFade target false) /\
    (forall n,
        Rmin v0 target <= Audio.volume (Audio.ticks n target (Audio.startFade v0))
          <= Rmax v0 target /\
        0 <= Audio.volume (Audio.ticks n target (Audio.startFade v0)) <= 1).
Proof.
  intros target v0 Ht Hv. unfold Audio.startFade.
  assert (Hbetween : forall n,
             Rmin v0 target
             <= Audio.volume (Audio.ticks n target (Audio.mkFade v0 true))
             <= Rmax v0 target).
  { intros n. destruct (ticks_shape n target v0) as [E|[E _]]; rewrite E; cbn.
    - unfold Rmin, Rmax. destruct (Rle_dec v0 target); lra.
    - pose proof (pow_09_unit n) as Hp.
      unfold Rmin, Rmax. destruct (Rle_dec v0 target); split; nra. }
  split.
  - intros n Hn.
    destruct (ticks_shape n target v0) as [E|[_ Hbig]]; [exact E|].
    exfalso. specialize (Hbig ltac:(lia)).
    assert (Hd : Rabs (target - v0) <= 1).
    { unfold Rabs. destruct (Rcase_abs (target - v0)); lra. }
    assert (Hpow : 0.9 ^ (n - 1) <= 0.9 ^ 44).
    { replace (n - 1)%nat with (44 + (n - 45))%nat by lia.
      rewrite pow_add. pose proof (pow_09_unit (n - 45)) as Hp.
      pose proof (pow_09_unit 44) as Hq. nra. }
    pose proof pow_09_44 as H44. pose proof (pow_09_unit (n - 1)) as Hp.
    pose proof (Rabs_pos (target - v0)) as Hpos. nra.
  - intros n. split; [apply Hbetween|].
    specialize (Hbetween n). unfold Rmin, Rmax in Hbetween.
    destruct (Rle_dec v0 target); lra.
Qed.

(** Ducking the music from 0.4 to 0.1 when a photo is focused. *)
Lemma fade_reaches_target_witness :
  Audio.ticks 45 0.1 (Audio.startFade 0.4) = Audio.mkFade 0.1 false /\
  0 <= Audio.volume (Audio.ticks 3 0.1 (Audio.startFade 0.4)) <= 1.
Proof.
  assert (H1 : 0 <= 0.1 <= 1) by lra. assert (H2 : 0 <= 0.4 <= 1) by lra.
  destruct (fade_reaches_target 0.1 0.4 H1 H2) as [Hdone Hin].
  split; [exact (Hdone 45%nat (le_n 45)) | exact (proj2 (Hin 3%nat))].
Defined.

(** ** Caption dialog and the reachable states of the mode machine *)

(** A gesture update writes only the gesture summary, the mode, the focus
    selection and the debounce timestamp. *)
Lemma handle_frame src k now g s s' k' :
  App.handleGestureUpdate now g s src k = Ok (s', k') ->
  App.images s' = App.images s /\ App.editingId s' = App.editingId s /\
  App.dialogPos s' = App.dialogPos s /\ App.nameRef s' = App.nameRef s.
Proof.
  unfold App.handleGestureUpdate.
  destruct (JS.truthy (App.editingId s)).
  { intros H. injection H as <- _. auto. }
  cbn [App.setGestureState App.lastGestureSwitchRef App.mode App.images].
  destruct (_ <? 1000)%Z.
  { intros H. injection H as <- _. cbn. auto. }
  destruct (gs_gesture g);
    repeat match goal with
           | |- context [if ?b then _ else _] => destruct b
           end;
    try (intros H; injection H as <- _; cbn; auto).
  unfold Rand.bind, Rand.random. destruct (JS.index _ _); [|discriminate].
  intros H; injection H as <- _; cbn; auto.
Qed.

Lemma index_some_in {A : Type} (l : list A) (i : Z) (a : A) :
  JS.index l i = Some a -> In a l.
Proof.
  unfold JS.index. destruct (i <? 0)%Z; [discriminate|].
  apply nth_error_In.
Qed.

Lemma truthy_some (id : string) :
  id <> EmptyString -> JS.truthy (Some id) = true.
Proof.
  intros H. cbn. destruct (String.eqb_spec id EmptyString); [contradiction | reflexivity].
Qed.

Lemma last_cons {A : Type} (l : list A) (a d : A) :
  List.last (a :: l) d = List.last l a.
Proof.
  revert a d. induction l as [|b l IH]; intros a d; [reflexivity|].
  change (List.last (a :: b :: l) d) with (List.last (b :: l) d).
  now rewrite !IH.
Qed.

Section Captions.

Variable trim : string -> string.
Variable src : Rand.Source.

Lemma exec_name_changes values rest s k :
  Session.exec trim (map Session.NameChange values ++ rest) s src k =
  Session.exec trim rest
               (fold_left (fun s v => Session.onNameChange v s) values s) src k.
Proof.
  revert s. induction values as [|v values IH]; intros s; [reflexivity|].
  cbn. unfold Rand.bind, Rand.ret. apply IH.
Qed.

Lemma name_changes_fields values s :
  let s' := fold_left (fun s v => Session.onNameChange v s) values s in
  App.mode s' = App.mode s /\ App.focusId s' = App.focusId s /\
  App.gestureState s' = App.gestureState s /\ App.images s' = App.images s /\
  App.editingId s' = App.editingId s /\ App.dialogPos s' = App.dialogPos s /\
  App.lastGestureSwitchRef s' = App.lastGestureSwitchRef s /\
  App.nameRef s' = List.last values (App.nameRef s).
Proof.
  revert s. induction values as [|v values IH]; intros s.
  - cbn. repeat split.
  - cbn [fold_left]. specialize (IH (Session.onNameChange v s)).
    cbv zeta in *. cbn [Session.onNameChange App.mode App.focusId App.gestureState
                        App.images App.editingId App.dialogPos
                        App.lastGestureSwitchRef App.nameRef] in IH.
    destruct IH as (H1 & H2 & H3 & H4 & H5 & H6 & H7 & H8).
    repeat split; try assumption.
    rewrite H8. symmetry. apply last_cons.
Qed.

Lemma filter_fresh id (l : list UploadedImage) (new : UploadedImage) :
  (forall img, In img l -> img_id img <> id) -> img_id new = id ->
  filter (fun img => negb (Session.sameId (img_id img) (Some id))) (l ++ [new]) = l.
Proof.
  intros Hfresh Hnew. rewrite filter_app. cbn. rewrite Hnew, String.eqb_refl. cbn.
  rewrite app_nil_r. induction l as [|a l IH]; [reflexivity|].
  cbn. destruct (String.eqb_spec (img_id a) id) as [E|E].
  - exfalso. apply (Hfresh a); [now left | exact E].
  - cbn. f_equal. apply IH. intros img Hin. apply Hfresh. now right.
Qed.

Lemma map_fresh id name (l : list UploadedImage) (new : UploadedImage) :
  (forall img, In img l -> img_id img <> id) -> img_id new = id ->
  map (fun img =>
         if Session.sameId (img_id img) (Some id)
         then mkUploadedImage (img_id img) (img_url img) (img_position img) (Some name)
         else img) (l ++ [new])
  = l ++ [mkUploadedImage id (img_url new) (img_position new) (Some name)].
Proof.
  intros Hfresh Hnew. rewrite map_app. cbn. rewrite Hnew, String.eqb_refl.
  f_equal. induction l as [|a l IH]; [reflexivity|].
  cbn. destruct (String.eqb_spec (img_id a) id) as [E|E].
  - exfalso. apply (Hfresh a); [now left | exact E].
  - f_equal. apply IH. intros img Hin. apply Hfresh. now right.
Qed.

(** X5. Uploading a photo under a fresh, non-empty id, typing any number
    of captions and then cancelling the dialog leaves the list of photos
    exactly as it was before the upload; the dialog is closed, the caption
    buffer is empty and the debounce timestamp is untouched (the mode stays
    TREE, where the upload put it). *)
Theorem upload_then_cancel_restores_photos :
  forall (k : nat) (ev : App.UploadEvent) (s : App.State) (values : list string),
    App.hasFile ev = true ->
    App.uuid ev <> EmptyString ->
    Session.freshId (App.uuid ev) s ->
    exists s',
      Session.exec trim
        (Session.Upload ev :: map Session.NameChange values ++ [Session.Close]) s src k
        = Ok (s', (k + 3)%nat) /\
      App.images s' = App.images s /\
      App.editingId s' = None /\
      App.nameRef s' = EmptyString /\
      App.mode s' = TREE /\ App.focusId s' = None /\
      App.lastGestureSwitchRef s' = App.lastGestureSwitchRef s.
Proof.
  intros k ev s values Hf Hne Hfresh.
  destruct (handleFileUpload_run src k ev s Hf) as (pos & _ & Hup).
  cbn [Session.exec Session.step]. unfold Rand.bind at 1. rewrite Hup.
  rewrite exec_name_changes.
  match goal with
  | |- context [fold_left ?f values ?u] =>
      set (u0 := u); set (s1 := fold_left f values u0);
      pose proof (name_changes_fields values u0) as Hfields
  end.
  cbv zeta in Hfields. fold s1 in Hfields.
  destruct Hfields as (H1 & H2 & H3 & H4 & H5 & H6 & H7 & H8).
  exists (Session.handleCloseDialog s1).
  split; [reflexivity|].
  unfold Session.handleCloseDialog. rewrite H5. cbn [App.editingId u0].
  rewrite truthy_some by exact Hne. cbn [negb App.images App.editingId App.nameRef
                                         App.mode App.focusId App.lastGestureSwitchRef].
  rewrite H1, H2, H4, H7. cbn [u0 App.images App.mode App.focusId
                               App.lastGestureSwitchRef].
  repeat split. now apply filter_fresh.
Qed.

(** X6. Uploading a photo under a fresh, non-empty id, typing captions and
    submitting appends exactly one photo: it carries the new id, the object
    URL, the drawn home position and the trimmed last caption typed (the
    trimmed empty string when nothing was typed); the photos already on the
    tree are unchanged and the dialog is closed. *)
Theorem upload_then_submit_appends_photo :
  forall (k : nat) (ev : App.UploadEvent) (s : App.State) (values : list string),
    App.hasFile ev = true ->
    App.uuid ev <> EmptyString ->
    Session.freshId (App.uuid ev) s ->
    exists s' pos,
      App.generateTreePosition src k = Ok (pos, (k + 3)%nat) /\
      Session.exec trim
        (Session.Upload ev :: map Session.NameChange values ++ [Session.Submit]) s src k
        = Ok (s', (k + 3)%nat) /\
      App.images s' =
        App.images s
        ++ [mkUploadedImage (App.uuid ev) (App.objectURL ev) pos
                            (Some (trim (List.last values EmptyString)))] /\
      App.editingId s' = None /\
      App.nameRef s' = EmptyString /\
      App.mode s' = TREE /\ App.focusId s' = None.
Proof.
  intros k ev s values Hf Hne Hfresh.
  destruct (handleFileUpload_run src k ev s Hf) as (pos & Hpos & Hup).
  cbn [Session.exec Session.step]. unfold Rand.bind at 1. rewrite Hup.
  rewrite exec_name_changes.
  match goal with
  | |- context [fold_left ?f values ?u] =>
      set (u0 := u); set (s1 := fold_left f values u0);
      pose proof (name_changes_fields values u0) as Hfields
  end.
  cbv zeta in Hfields. fold s1 in Hfields.
  destruct Hfields as (H1 & H2 & H3 & H4 & H5 & H6 & H7 & H8).
  exists (Session.handleNameSubmit trim s1), pos.
  split; [exact Hpos|]. split; [reflexivity|].
  unfold Session.handleNameSubmit. rewrite H5. cbn [App.editingId u0].
  rewrite truthy_some by exact Hne. cbn [negb App.images App.editingId App.nameRef
                                         App.mode App.focusId].
  rewrite H1, H2, H4, H8. cbn [u0 App.images App.mode App.focusId App.nameRef].
  repeat split.
  rewrite (map_fresh (App.uuid ev)); [reflexivity | exact Hfresh | reflexivity].
Qed.

End Captions.

(** A photo dropped on the sample scene, captioned in two strokes, then
    cancelled. *)
Lemma upload_then_cancel_restores_photos_witness :
  exists s',
    Session.exec (fun x => x)
      (Session.Upload Sample.upload
       :: map Session.NameChange ["X"%string; "Xm"%string] ++ [Session.Close])
      Sample.scattered Sample.half 0%nat
      = Ok (s', (0 + 3)%nat) /\
    App.images s' = [Sample.photoA; Sample.photoB; Sample.photoC].
Proof.
  destruct (upload_then_cancel_restores_photos (fun x => x) Sample.half 0%nat
              Sample.upload Sample.scattered ["X"%string; "Xm"%string])
    as (s' & Hrun & Himg & _).
  - reflexivity.
  - discriminate.
  - intros img [<-|[<-|[<-|[]]]]; discriminate.
  - exists s'. split; [exact Hrun | exact Himg].
Defined.

(** The same photo, submitted. *)
Lemma upload_then_submit_appends_photo_witness :
  exists s' pos,
    Session.exec (fun x => x)
      (Session.Upload Sample.upload
       :: map Session.NameChange ["X"%string; "Xm"%string] ++ [Session.Submit])
      Sample.scattered Sample.half 0%nat
      = Ok (s', (0 + 3)%nat) /\
    App.images s' =
      [Sample.photoA; Sample.photoB; Sample.photoC;
       mkUploadedImage "d" "blob:d" pos (Some "Xm"%string)].
Proof.
  destruct (upload_then_submit_appends_photo (fun x => x) Sample.half 0%nat
              Sample.upload Sample.scattered ["X"%string; "Xm"%string])
    as (s' & pos & _ & Hrun & Himg & _).
  - reflexivity.
  - discriminate.
  - intros img [<-|[<-|[<-|[]]]]; discriminate.
  - exists s', pos. split; [exact Hrun | exact Himg].
Defined.

Lemma initial_consistent : Session.consistent App.initial.
Proof.
  unfold Session.consistent. cbn. repeat split; try discriminate; reflexivity.
Qed.

Lemma step_consistent trim src (Hv : Rand.valid src) e s k :
  Session.consistent s ->
  exists s' k', Session.step trim e s src k = Ok (s', k') /\ Session.consistent s'.
Proof.
  intros (Hedit & Hfocus & Hnofocus).
  destruct e as [now g|ev|value| |]; cbn [Session.step].
  - destruct (handle_total src k now g s Hv) as (s' & k' & Hrun).
    exists s', k'. split; [exact Hrun|].
    destruct (handle_frame _ _ _ _ _ _ _ Hrun) as (Himg & Hed & _).
    unfold Session.consistent. rewrite Himg, Hed.
    destruct (handle_result _ _ _ _ _ _ _ Hrun)
      as [[Hsame _]|(He & _ & _ & _ & Hshape)].
    + unfold Spec.modeFields in Hsame. injection Hsame as -> -> _. auto.
    + split; [congruence|].
      destruct Hshape as [(_ & Hm & Hf & _)|[(_ & Hm & Hf & _)|[(_ & Hm & Hf & _)
                         |(_ & Hm & _ & _ & img & Hidx & Hf)]]];
        rewrite Hm, Hf; (split; [|congruence]); try discriminate.
      intros _. exists img. split; [|reflexivity].
      now apply index_some_in in Hidx.
  - destruct (App.hasFile ev) eqn:Hf.
    + destruct (handleFileUpload_run src k ev s Hf) as (pos & _ & Hrun).
      eexists _, _. split; [exact Hrun|].
      unfold Session.consistent. cbn. repeat split; try discriminate; reflexivity.
    + unfold App.handleFileUpload. rewrite Hf.
      eexists _, _. split; [reflexivity|]. unfold Session.consistent. auto.
  - eexists _, _. split; [reflexivity|]. unfold Session.consistent. cbn. auto.
  - eexists _, _. split; [reflexivity|].
    unfold Session.handleNameSubmit.
    destruct (JS.truthy (App.editingId s)) eqn:He; cbn [negb];
      [|unfold Session.consistent; split; [congruence | auto]].
    specialize (Hedit eq_refl).
    assert (Hnone : App.focusId s = None) by (apply Hnofocus; congruence).
    unfold Session.consistent. cbn. rewrite Hedit, Hnone.
    repeat split; try discriminate; reflexivity.
  - eexists _, _. split; [reflexivity|].
    unfold Session.handleCloseDialog.
    destruct (JS.truthy (App.editingId s)) eqn:He; cbn [negb];
      [|unfold Session.consistent; split; [congruence | auto]].
    specialize (Hedit eq_refl).
    assert (Hnone : App.focusId s = None) by (apply Hnofocus; congruence).
    unfold Session.consistent. cbn. rewrite Hedit, Hnone.
    repeat split; try discriminate; reflexivity.
Qed.

(** X7. Under a valid random source, every run of gesture updates,
    uploads, caption edits, submits and cancels from the initial state
    returns normally, and in the state it reaches: the caption dialog is
    open only in TREE mode; in FOCUS mode the focus selection is the id of
    a photo that is on the tree; outside FOCUS mode nothing is selected. *)
Theorem reachable_states_consistent :
  forall (trim : string -> string) (src : Rand.Source) (es : list Session.Event)
         (k : nat),
    Rand.valid src ->
    exists s k',
      Session.exec trim es App.initial src k = Ok (s, k') /\
      (JS.truthy (App.editingId s) = true -> App.mode s = TREE) /\
      (App.mode s = FOCUS ->
       exists img, In img (App.images s) /\ App.focusId s = Some (img_id img)) /\
      (App.mode s <> FOCUS -> App.focusId s = None).
Proof.
  intros trim src es k Hv.
  assert (Hgen : forall es s0 k0,
             Session.consistent s0 ->
             exists s k', Session.exec trim es s0 src k0 = Ok (s, k') /\
                          Session.consistent s).
  { intros es0. induction es0 as [|e es0 IH]; intros s0 k0 H0.
    - exists s0, k0. split; [reflexivity | exact H0].
    - destruct (step_consistent trim src Hv e s0 k0 H0) as (s1 & k1 & Hstep & H1).
      destruct (IH s1 k1 H1) as (s & k' & Hrun & Hs).
      exists s, k'. split; [|exact Hs].
      cbn [Session.exec]. unfold Rand.bind. now rewrite Hstep. }
  destruct (Hgen es App.initial k initial_consistent) as (s & k' & Hrun & Hs).
  exists s, k'. split; [exact Hrun | exact Hs].
Qed.

(** An upload, its caption, then a pinch a minute later. *)
Lemma reachable_states_consistent_witness :
  exists s k',
    Session.exec (fun x => x)
      [Session.Upload Sample.upload; Session.NameChange "Xmas"; Session.Submit;
       Session.Gesture 60000 Sample.pinch] App.initial Sample.half 0%nat
      = Ok (s, k') /\
    (App.mode s = FOCUS ->
     exists img, In img (App.images s) /\ App.focusId s = Some (img_id img)).
Proof.
  destruct (reachable_states_consistent (fun x => x) Sample.half
              [Session.Upload Sample.upload; Session.NameChange "Xmas"; Session.Submit;
               Session.Gesture 60000 Sample.pinch] 0%nat half_valid)
    as (s & k' & Hrun & _ & Hfocus & _).
  exists s, k'. split; [exact Hrun | exact Hfocus].
Defined.

(** ** From a frame to the mode *)

Lemma noHand_summary f :
  Pipeline.noHand f ->
  GestureControl.predictWebcam f = None \/
  GestureControl.predictWebcam f = Some GestureControl.notDetected.
Proof.
  destruct f as [| | |results]; cbn; auto.
  intros H. right. f_equal.
  destruct (Spec.hand results) as [lm|] eqn:E.
  - now apply summarize_hand_short with lm.
  - now apply summarize_hand_none.
Qed.

(** X8. A frame on which no hand is seen (detection not reached, no hand,
    or fewer than 21 points), like switching the webcam off, never changes
    the mode, the focus selection, the debounce timestamp or the photos,
    and draws no random number; outside the caption dialog it leaves the
    displayed gesture summary either untouched or reset to not-detected. *)
Theorem no_hand_no_transition :
  forall (src : Rand.Source) (k : nat) (now : Z) (f : GestureControl.Frame)
         (s : App.State),
    Pipeline.noHand f ->
    (exists s',
        Pipeline.onFrame now f s src k = Ok (s', k) /\
        Spec.modeFields s' = Spec.modeFields s /\
        App.images s' = App.images s /\ App.editingId s' = App.editingId s /\
        (App.gestureState s' = App.gestureState s \/
         App.gestureState s' = GestureControl.notDetected)) /\
    (exists s',
        Pipeline.onStopWebcam now s src k = Ok (s', k) /\
        Spec.modeFields s' = Spec.modeFields s /\
        (JS.truthy (App.editingId s) = false ->
         App.gestureState s' = GestureControl.notDetected)).
Proof.
  intros src k now f s Hno.
  assert (Hnone : App.handleGestureUpdate now GestureControl.notDetected s src k
                  = Ok (if JS.truthy (App.editingId s) then s
                        else App.setGestureState GestureControl.notDetected s, k))
    by (now apply handle_none).
  split.
  - unfold Pipeline.onFrame.
    destruct (noHand_summary f Hno) as [-> | ->].
    + exists s. split; [reflexivity|]. auto.
    + rewrite Hnone. eexists. split; [reflexivity|].
      destruct (JS.truthy (App.editingId s)); cbn; auto.
  - unfold Pipeline.onStopWebcam, GestureControl.stopWebcam. rewrite Hnone.
    eexists. split; [reflexivity|].
    destruct (JS.truthy (App.editingId s)); cbn; split; auto; discriminate.
Qed.

(** A frame whose detection raised, met in the scattered sample scene. *)
Lemma no_hand_no_transition_witness :
  exists s',
    Pipeline.onFrame 99999 GestureControl.DetectThrew Sample.scattered Sample.half 0%nat
      = Ok (s', 0%nat) /\
    Spec.modeFields s' = (SCATTER, None, 5000%Z).
Proof.
  destruct (no_hand_no_transition Sample.half 0%nat 99999%Z GestureControl.DetectThrew
                                  Sample.scattered I)
    as [(s' & Hrun & Hm & _) _].
  exists s'. split; [exact Hrun | exact Hm].
Defined.

(** ** The classifier sees only the shape of the hand *)

Lemma point_map (f : GestureControl.Landmark -> GestureControl.Landmark)
      (lm : list GestureControl.Landmark) (i : nat) :
  (i < List.length lm)%nat ->
  GestureControl.point (map f lm) i = f (GestureControl.point lm i).
Proof.
  intros Hi. unfold GestureControl.point.
  rewrite nth_indep with (d' := f (GestureControl.mkLandmark 0 0 0))
    by (rewrite length_map; exact Hi).
  apply map_nth.
Qed.

Lemma hypot_neg_l (a b : R) : JS.hypot (- a) b = JS.hypot a b.
Proof. unfold JS.hypot. f_equal. ring. Qed.

(** The classifier reads the hand through five distances only. *)
Lemma classify_ext (lm lm' : list GestureControl.Landmark) :
  GestureControl.distIndex lm' = GestureControl.distIndex lm ->
  GestureControl.distMiddle lm' = GestureControl.distMiddle lm ->
  GestureControl.distRing lm' = GestureControl.distRing lm ->
  GestureControl.distPinky lm' = GestureControl.distPinky lm ->
  GestureControl.pinchDist lm' = GestureControl.pinchDist lm ->
  GestureControl.classify lm' = GestureControl.classify lm.
Proof.
  intros H1 H2 H3 H4 H5. unfold GestureControl.classify, GestureControl.avgFingerDist.
  now rewrite H1, H2, H3, H4, H5.
Qed.

(** The planar difference of two points of a hand after every point went
    through [f], when [f] changes such differences by the sign [sg] along
    x and not at all along y *)
Lemma hypot_points_map f sg (lm : list GestureControl.Landmark) (i j : nat) :
  (sg = 1 \/ sg = -1) ->
  (forall p q, GestureControl.lx (f p) - GestureControl.lx (f q)
               = sg * (GestureControl.lx p - GestureControl.lx q)) ->
  (forall p q, GestureControl.ly (f p) - GestureControl.ly (f q)
               = GestureControl.ly p - GestureControl.ly q) ->
  (i < List.length lm)%nat -> (j < List.length lm)%nat ->
  JS.hypot (GestureControl.lx (GestureControl.point (map f lm) i)
            - GestureControl.lx (GestureControl.point (map f lm) j))
           (GestureControl.ly (GestureControl.point (map f lm) i)
            - GestureControl.ly (GestureControl.point (map f lm) j))
  = JS.hypot (GestureControl.lx (GestureControl.point lm i)
              - GestureControl.lx (GestureControl.point lm j))
             (GestureControl.ly (GestureControl.point lm i)
              - GestureControl.ly (GestureControl.point lm j)).
Proof.
  intros Hsg Hx Hy Hi Hj. rewrite !point_map by assumption. rewrite Hx, Hy.
  destruct Hsg as [-> | ->].
  - now rewrite Rmult_1_l.
  - replace (-1 * (GestureControl.lx (GestureControl.point lm i)
                   - GestureControl.lx (GestureControl.point lm j)))
      with (- (GestureControl.lx (GestureControl.point lm i)
               - GestureControl.lx (GestureControl.point lm j))) by ring.
    apply hypot_neg_l.
Qed.

Lemma classify_map f sg (lm : list GestureControl.Landmark) :
  (sg = 1 \/ sg = -1) ->
  (forall p q, GestureControl.lx (f p) - GestureControl.lx (f q)
               = sg * (GestureControl.lx p - GestureControl.lx q)) ->
  (forall p q, GestureControl.ly (f p) - GestureControl.ly (f q)
               = GestureControl.ly p - GestureControl.ly q) ->
  (21 <= List.length lm)%nat ->
  GestureControl.classify (map f lm) = GestureControl.classify lm /\
  JS.hypot (GestureControl.lx (GestureControl.point (map f lm) 9)
            - GestureControl.lx (GestureControl.point (map f lm) 0))
           (GestureControl.ly (GestureControl.point (map f lm) 9)
            - GestureControl.ly (GestureControl.point (map f lm) 0))
  = JS.hypot (GestureControl.lx (GestureControl.point lm 9)
              - GestureControl.lx (GestureControl.point lm 0))
             (GestureControl.ly (GestureControl.point lm 9)
              - GestureControl.ly (GestureControl.point lm 0)).
Proof.
  intros Hsg Hx Hy Hlen. split.
  - apply classify_ext;
      unfold GestureControl.distIndex, GestureControl.distMiddle,
             GestureControl.distRing, GestureControl.distPinky,
             GestureControl.distToWrist, GestureControl.pinchDist;
      apply (hypot_points_map f sg); auto; lia.
  - apply (hypot_points_map f sg); auto; lia.
Qed.

Lemma point_samePlane (lm lm' : list GestureControl.Landmark) :
  Forall2 Hands.samePlanePoint lm lm' ->
  forall i, Hands.samePlanePoint (GestureControl.point lm i) (GestureControl.point lm' i).
Proof.
  unfold GestureControl.point.
  induction 1 as [|p q l l' Hpq _ IH]; intros [|i]; cbn; try (split; reflexivity); auto.
Qed.

Lemma summarize_oneHand (lm : list GestureControl.Landmark) :
  (21 <= List.length lm)%nat ->
  GestureControl.summarize (Hands.oneHand lm) =
  mkGestureState
    ((GestureControl.lx (GestureControl.point lm 9) - 0.5) * -2)
    ((GestureControl.ly (GestureControl.point lm 9) - 0.5) * 2)
    (JS.hypot (GestureControl.lx (GestureControl.point lm 9)
               - GestureControl.lx (GestureControl.point lm 0))
              (GestureControl.ly (GestureControl.point lm 9)
               - GestureControl.ly (GestureControl.point lm 0)))
    true
    (GestureControl.classify lm).
Proof. intros H. now apply summarize_hand_full. Qed.

(** X9. For a detected hand (at least 21 landmarks) the gesture and the
    hand size depend only on the shape of the hand in the image plane:
    moving the whole hand by any offset in x, y and depth leaves them
    unchanged and shifts the pointer by [-2 dx] and [2 dy]; mirroring the
    image left to right leaves them unchanged and negates the pointer x;
    and two hands whose landmarks agree in x and y, whatever their depths,
    give the same summary. *)
Theorem gesture_depends_on_planar_shape :
  forall lm : list GestureControl.Landmark,
    (21 <= List.length lm)%nat ->
    let g := GestureControl.summarize (Hands.oneHand lm) in
    (forall dx dy dz,
        let g' := GestureControl.summarize
                    (Hands.oneHand (map (Hands.translate dx dy dz) lm)) in
        gs_gesture g' = gs_gesture g /\ gs_handSize g' = gs_handSize g /\
        gs_x g' = gs_x g - 2 * dx /\ gs_y g' = gs_y g + 2 * dy) /\
    (let g' := GestureControl.summarize (Hands.oneHand (map Hands.mirror lm)) in
     gs_gesture g' = gs_gesture g /\ gs_handSize g' = gs_handSize g /\
     gs_x g' = - gs_x g /\ gs_y g' = gs_y g) /\
    (forall lm',
        Forall2 Hands.samePlanePoint lm lm' ->
        GestureControl.summarize (Hands.oneHand lm') = g).
Proof.
  intros lm Hlen. cbv zeta. rewrite (summarize_oneHand lm Hlen).
  split; [|split].
  - intros dx dy dz.
    rewrite summarize_oneHand by (rewrite length_map; exact Hlen).
    destruct (classify_map (Hands.translate dx dy dz) 1 lm) as [Hc Hh];
      [auto | intros; cbn; ring | intros; cbn; ring | exact Hlen |].
    cbn [gs_gesture gs_handSize gs_x gs_y].
    repeat split; [exact Hc | exact Hh | | ];
      rewrite point_map by lia; cbn; lra.
  - rewrite summarize_oneHand by (rewrite length_map; exact Hlen).
    destruct (classify_map Hands.mirror (-1) lm) as [Hc Hh];
      [auto | intros; cbn; ring | intros; cbn; ring | exact Hlen |].
    cbn [gs_gesture gs_handSize gs_x gs_y].
    repeat split; [exact Hc | exact Hh | | ];
      rewrite point_map by lia; cbn; lra.
  - intros lm' Hsame.
    assert (Hlen' : (21 <= List.length lm')%nat).
    { rewrite <- (Forall2_length Hsame). exact Hlen. }
    rewrite summarize_oneHand by exact Hlen'.
    pose proof (point_samePlane lm lm' Hsame) as Hpt.
    assert (Hd : forall i j,
               JS.hypot (GestureControl.lx (GestureControl.point lm' i)
                         - GestureControl.lx (GestureControl.point lm' j))
                        (GestureControl.ly (GestureControl.point lm' i)
                         - GestureControl.ly (GestureControl.point lm' j))
               = JS.hypot (GestureControl.lx (GestureControl.point lm i)
                           - GestureControl.lx (GestureControl.point lm j))
                          (GestureControl.ly (GestureControl.point lm i)
                           - GestureControl.ly (GestureControl.point lm j))).
    { intros i j. destruct (Hpt i) as [Hxi Hyi]. destruct (Hpt j) as [Hxj Hyj].
      now rewrite Hxi, Hyi, Hxj, Hyj. }
    destruct (Hpt 9%nat) as [Hx9 Hy9].
    rewrite Hd, <- Hx9, <- Hy9. f_equal.
    apply classify_ext;
      unfold GestureControl.distIndex, GestureControl.distMiddle,
             GestureControl.distRing, GestureControl.distPinky,
             GestureControl.distToWrist, GestureControl.pinchDist;
      apply Hd.
Qed.

(** The sample hand moved a little to the right and mirrored: still a
    fist. *)
Lemma gesture_depends_on_planar_shape_witness :
  gs_gesture (GestureControl.summarize
                (Hands.oneHand (map (Hands.translate 0.1 0 0.3) Sample.fistAndYeah)))
    = gs_gesture (GestureControl.summarize (Hands.oneHand Sample.fistAndYeah)) /\
  gs_gesture (GestureControl.summarize
                (Hands.oneHand (map Hands.mirror Sample.fistAndYeah)))
    = gs_gesture (GestureControl.summarize (Hands.oneHand Sample.fistAndYeah)).
Proof.
  destruct (gesture_depends_on_planar_shape Sample.fistAndYeah (le_n 21))
    as (Ht & Hm & _).
  split.
  - exact (proj1 (Ht 0.1 0 0.3)).
  - exact (proj1 Hm).
Defined.

(** ** Ranges of the pose summary *)

Lemma point_inImage (lm : list GestureControl.Landmark) (i : nat) :
  Hands.inImage lm -> (i < List.length lm)%nat ->
  0 <= GestureControl.lx (GestureControl.point lm i) <= 1 /\
  0 <= GestureControl.ly (GestureControl.point lm i) <= 1.
Proof.
  intros Him Hi. unfold Hands.inImage in Him. rewrite Forall_forall in Him.
  apply Him. unfold GestureControl.point. now apply nth_In.
Qed.

Lemma hypot_unit_square (a b : R) :
  -1 <= a <= 1 -> -1 <= b <= 1 -> 0 <= JS.hypot a b <= sqrt 2.
Proof.
  intros Ha Hb. unfold JS.hypot. split; [apply sqrt_pos|].
  apply sqrt_le_1_alt. nra.
Qed.

(** X10. Whatever the detector returns, if the landmarks of the first hand
    lie in the unit image, the pointer coordinates of the summary lie in
    [-1, 1] and the hand size in [0, sqrt 2]. *)
Theorem summary_in_range :
  forall results : option GestureControl.HandLandmarkerResult,
    (forall lm, Spec.hand results = Some lm -> Hands.inImage lm) ->
    let g := GestureControl.summarize results in
    -1 <= gs_x g <= 1 /\ -1 <= gs_y g <= 1 /\ 0 <= gs_handSize g <= sqrt 2.
Proof.
  intros results Him. cbv zeta.
  assert (Hzero : -1 <= 0 <= 1 /\ -1 <= 0 <= 1 /\ 0 <= 0 <= sqrt 2).
  { pose proof (sqrt_pos 2). lra. }
  destruct (Spec.hand results) as [lm|] eqn:Eh.
  - destruct (Nat.lt_ge_cases (List.length lm) 21) as [Hs|Hl].
    + rewrite (summarize_hand_short _ _ Eh Hs). exact Hzero.
    + rewrite (summarize_hand_full _ _ Eh Hl). cbn [gs_x gs_y gs_handSize].
      destruct (point_inImage lm 9 (Him lm eq_refl)) as [Hx9 Hy9]; [lia|].
      destruct (point_inImage lm 0 (Him lm eq_refl)) as [Hx0 Hy0]; [lia|].
      split; [lra|]. split; [lra|].
      apply hypot_unit_square; lra.
  - rewrite (summarize_hand_none _ Eh). exact Hzero.
Qed.

Lemma sample_inImage : Hands.inImage Sample.fistAndYeah.
Proof.
  unfold Hands.inImage, Sample.fistAndYeah.
  repeat constructor; cbn; lra.
Qed.

(** The sample hand lies in the image. *)
Lemma summary_in_range_witness :
  -1 <= gs_x (GestureControl.summarize Sample.fistAndYeahResult) <= 1 /\
  0 <= gs_handSize (GestureControl.summarize Sample.fistAndYeahResult) <= sqrt 2.
Proof.
  destruct (summary_in_range Sample.fistAndYeahResult) as (Hx & _ & Hs).
  - intros lm H. injection H as <-. exact sample_inImage.
  - split; [exact Hx | exact Hs].
Defined.

(** ** Camera zoom *)

Lemma clamp_range (v lo hi : R) :
  lo <= hi -> lo <= MathUtils.clamp v lo hi <= hi.
Proof.
  intros H. unfold MathUtils.clamp, Rmax, Rmin.
  destruct (Rle_dec hi v); destruct (Rle_dec lo _); lra.
Qed.

Lemma clamp_mono (v1 v2 lo hi : R) :
  v1 <= v2 -> MathUtils.clamp v1 lo hi <= MathUtils.clamp v2 lo hi.
Proof.
  intros H. unfold MathUtils.clamp.
  apply Rle_max_compat_l. now apply Rle_min_compat_l.
Qed.

Lemma targetZ_formula (handSize : R) :
  Experience.targetZ handSize
  = 65 - (MathUtils.clamp handSize 0.08 0.45 - 0.08) * (53 / 0.37).
Proof. unfold Experience.targetZ, Three.mapLinear. lra. Qed.

Lemma targetZ_range (handSize : R) : 12 <= Experience.targetZ handSize <= 65.
Proof.
  rewrite targetZ_formula.
  pose proof (clamp_range handSize 0.08 0.45 ltac:(lra)) as Hc. lra.
Qed.

Lemma zoomStep_range (g : GestureState) (zoom : R) :
  12 <= zoom <= 65 -> 12 <= Experience.zoomStep g zoom <= 65.
Proof.
  intros Hz. unfold Experience.zoomStep, MathUtils.lerp, Experience.baseZ.
  pose proof (targetZ_range (gs_handSize g)) as Ht.
  destruct (gs_isDetected g); lra.
Qed.

(** X11. The zoom target for a detected hand lies in [12, 65], is 65 for
    hands of size at most 0.08 and 12 for hands of size at least 0.45, and
    never grows with the hand size (a larger hand zooms in).  Started within
    [12, 65] (the initial 38 is), the eased zoom distance stays within
    [12, 65] on every frame, whatever is detected. *)
Theorem zoom_stays_in_range :
  forall (gs : list GestureState) (zoom0 : R),
    12 <= zoom0 <= 65 ->
    Forall (fun z => 12 <= z <= 65) (Experience.zoomFrames gs zoom0) /\
    (forall h, 12 <= Experience.targetZ h <= 65) /\
    (forall h, h <= 0.08 -> Experience.targetZ h = 65) /\
    (forall h, 0.45 <= h -> Experience.targetZ h = 12) /\
    (forall h1 h2, h1 <= h2 -> Experience.targetZ h2 <= Experience.targetZ h1).
Proof.
  intros gs zoom0 H0. split; [|split; [|split; [|split]]].
  - revert zoom0 H0. induction gs as [|g gs IH]; intros zoom0 H0; cbn.
    + constructor.
    + constructor; [|apply IH]; now apply zoomStep_range.
  - apply targetZ_range.
  - intros h Hh. rewrite targetZ_formula.
    unfold MathUtils.clamp, Rmax, Rmin.
    destruct (Rle_dec 0.45 h); destruct (Rle_dec 0.08 _); lra.
  - intros h Hh. rewrite targetZ_formula.
    unfold MathUtils.clamp, Rmax, Rmin.
    destruct (Rle_dec 0.45 h); destruct (Rle_dec 0.08 _); lra.
  - intros h1 h2 Hh. rewrite !targetZ_formula.
    pose proof (clamp_mono h1 h2 0.08 0.45 Hh). lra.
Qed.

(** From the initial zoom 38: a near hand, a far hand, then no hand. *)
Lemma zoom_stays_in_range_witness :
  Forall (fun z => 12 <= z <= 65)
         (Experience.zoomFrames
            [mkGestureState 0 0 0.5 true NONE; mkGestureState 0 0 0.05 true NONE;
             mkGestureState 0 0 0 false NONE] Experience.baseZ).
Proof.
  apply (zoom_stays_in_range
           [mkGestureState 0 0 0.5 true NONE; mkGestureState 0 0 0.05 true NONE;
            mkGestureState 0 0 0 false NONE] Experience.baseZ).
  unfold Experience.baseZ. lra.
Defined.

(** ** Camera position *)

Lemma sum_sqr_nonneg (a b c : R) : 0 <= a * a + b * b + c * c.
Proof. nra. Qed.

Lemma length_nonneg (v : Vector3.t) : 0 <= Vector3.length v.
Proof. unfold Vector3.length. apply sqrt_pos. Qed.

Lemma length_multiplyScalar (v : Vector3.t) (f : R) :
  0 <= f -> Vector3.length (Vector3.multiplyScalar v f) = f * Vector3.length v.
Proof.
  intros Hf. unfold Vector3.length, Vector3.multiplyScalar. cbn.
  replace (Vector3.x v * f * (Vector3.x v * f) + Vector3.y v * f * (Vector3.y v * f)
           + Vector3.z v * f * (Vector3.z v * f))
    with (f * f * (Vector3.x v * Vector3.x v + Vector3.y v * Vector3.y v
                   + Vector3.z v * Vector3.z v)) by ring.
  rewrite sqrt_mult; [|nra|apply sum_sqr_nonneg].
  now rewrite sqrt_square.
Qed.

Lemma distanceTo_lerp (a b : Vector3.t) (f : R) :
  0 <= f <= 1 ->
  Three.distanceTo (Three.lerp a b f) b = (1 - f) * Three.distanceTo a b.
Proof.
  intros Hf. unfold Three.distanceTo, Three.lerp. cbn.
  set (dx := Vector3.x a - Vector3.x b).
  set (dy := Vector3.y a - Vector3.y b).
  set (dz := Vector3.z a - Vector3.z b).
  replace (Vector3.x a + (Vector3.x b - Vector3.x a) * f - Vector3.x b)
    with ((1 - f) * dx) by (unfold dx; ring).
  replace (Vector3.y a + (Vector3.y b - Vector3.y a) * f - Vector3.y b)
    with ((1 - f) * dy) by (unfold dy; ring).
  replace (Vector3.z a + (Vector3.z b - Vector3.z a) * f - Vector3.z b)
    with ((1 - f) * dz) by (unfold dz; ring).
  replace ((1 - f) * dx * ((1 - f) * dx) + (1 - f) * dy * ((1 - f) * dy)
           + (1 - f) * dz * ((1 - f) * dz))
    with ((1 - f) * (1 - f) * (dx * dx + dy * dy + dz * dz)) by ring.
  rewrite sqrt_mult; [|nra|apply sum_sqr_nonneg].
  rewrite sqrt_square by lra. reflexivity.
Qed.

Lemma subVectors_origin (p : Vector3.t) :
  Three.subVectors p Experience.defaultLookAt = p.
Proof.
  destruct p as [x y z]. unfold Three.subVectors, Experience.defaultLookAt. cbn.
  f_equal; ring.
Qed.

(** X12. Outside message mode, on a frame where the zoom distance is in
    [12, 65] and the camera is off the origin: if a hand is detected and
    the mode is not FOCUS, the camera moves along the ray from the origin
    through its position (its position is scaled by a positive factor) and
    its distance from the origin is eased by 0.05 toward the new zoom
    distance; otherwise the callback leaves the camera where it is.  In
    both cases [lastMode] records the mode. *)
Theorem gesture_zoom_moves_along_view_ray :
  forall (mode : AppMode) (g : GestureState) (c : Experience.Camera),
    mode <> NEW_YEAR ->
    12 <= Experience.currentZoomZ c <= 65 ->
    0 < Vector3.length (Experience.position c) ->
    let c' := Experience.CameraController_useFrame mode g c in
    Experience.currentZoomZ c' = Experience.zoomStep g (Experience.currentZoomZ c) /\
    Experience.lastMode c' = mode /\
    (gs_isDetected g = true -> mode <> FOCUS ->
     (exists fac, 0 < fac /\
                  Experience.position c'
                  = Vector3.multiplyScalar (Experience.position c) fac) /\
     Vector3.length (Experience.position c')
     = MathUtils.lerp (Vector3.length (Experience.position c))
                      (Experience.currentZoomZ c') 0.05) /\
    (gs_isDetected g = false \/ mode = FOCUS ->
     Experience.position c' = Experience.position c).
Proof.
  intros mode g c Hny Hz Hlen. cbv zeta.
  unfold Experience.CameraController_useFrame.
  apply AppMode_eqb_neq in Hny. rewrite Hny.
  cbn [Experience.currentZoomZ Experience.lastMode Experience.position].
  split; [reflexivity|]. split; [reflexivity|]. split.
  - intros Hdet Hfocus. apply AppMode_eqb_neq in Hfocus. rewrite Hdet, Hfocus.
    cbn [andb negb]. rewrite subVectors_origin.
    pose proof (zoomStep_range g _ Hz) as Hz'.
    set (zoom := Experience.zoomStep g (Experience.currentZoomZ c)) in *.
    set (p := Experience.position c) in *.
    set (len := Vector3.length p) in *.
    set (fac := 1 + (zoom / len - 1) * 0.05).
    assert (Hq : 0 < zoom / len) by (apply Rdiv_lt_0_compat; lra).
    assert (Hfac : 0 < fac) by (unfold fac; lra).
    assert (E : Three.lerp p (Vector3.multiplyScalar (Vector3.normalize p) zoom) 0.05
                = Vector3.multiplyScalar p fac).
    { unfold Vector3.normalize. fold len.
      destruct (Req_dec_T len 0) as [E0|_]; [lra|].
      unfold Three.lerp, Vector3.multiplyScalar, fac. cbn.
      f_equal; field; lra. }
    rewrite E. split.
    + exists fac. now split.
    + rewrite length_multiplyScalar by lra. fold len.
      unfold MathUtils.lerp, fac. field. lra.
  - intros [Hnd | Hf].
    + now rewrite Hnd.
    + subst mode. cbn. now rewrite andb_false_r.
Qed.

(** A hand held close, seen from the initial camera in SCATTER mode. *)
Lemma gesture_zoom_moves_along_view_ray_witness :
  let c' := Experience.CameraController_useFrame
              SCATTER (mkGestureState 0 0 0.45 true NONE) Experience.initialCamera in
  Experience.lastMode c' = SCATTER /\
  Vector3.length (Experience.position c')
  = MathUtils.lerp (Vector3.length (Experience.position Experience.initialCamera))
                   (Experience.currentZoomZ c') 0.05.
Proof.
  cbv zeta.
  assert (Hl : Vector3.length (Experience.position Experience.initialCamera) = 38).
  { unfold Vector3.length. cbn.
    replace (0 * 0 + 0 * 0 + 38 * 38) with (38 * 38) by ring.
    apply sqrt_square. lra. }
  pose proof (gesture_zoom_moves_along_view_ray
                SCATTER (mkGestureState 0 0 0.45 true NONE) Experience.initialCamera)
    as H.
  cbv zeta in H. destruct H as (_ & Hm & Hray & _).
  - discriminate.
  - cbn. unfold Experience.baseZ. lra.
  - rewrite Hl. lra.
  - split; [exact Hm|]. apply Hray; [reflexivity | discriminate].
Defined.

(** X13. In message mode the camera is eased toward the framing point
    [(0, 0, zoom)] and never beyond it: its distance to that point is
    multiplied by 0.85 while [lastMode] is not yet NEW_YEAR and by 0.98
    afterwards, and a camera within 0.01 of the point is left where it is.
    [lastMode] becomes NEW_YEAR only once the camera is within 0.1 of the
    point, and then stays NEW_YEAR. *)
Theorem message_mode_camera_approaches_framing :
  forall (g : GestureState) (c : Experience.Camera),
    let c' := Experience.CameraController_useFrame NEW_YEAR g c in
    let target := Vector3.mk 0 0 (Experience.currentZoomZ c') in
    let d := Three.distanceTo (Experience.position c) target in
    let d' := Three.distanceTo (Experience.position c') target in
    Experience.currentZoomZ c' = Experience.zoomStep g (Experience.currentZoomZ c) /\
    d' <= d /\
    (d > 0.01 ->
     d' = (if AppMode_eqb (Experience.lastMode c) NEW_YEAR then 0.98 else 0.85) * d) /\
    (d <= 0.01 -> Experience.position c' = Experience.position c) /\
    (Experience.lastMode c = NEW_YEAR -> Experience.lastMode c' = NEW_YEAR) /\
    (Experience.lastMode c <> NEW_YEAR ->
     (Experience.lastMode c' = NEW_YEAR <-> d' < 0.1) /\
     (Experience.lastMode c' <> NEW_YEAR -> Experience.lastMode c' = Experience.lastMode c)).
Proof.
  intros g c. cbv zeta. unfold Experience.CameraController_useFrame.
  cbn [AppMode_eqb Experience.currentZoomZ Experience.lastMode Experience.position].
  set (zoom := Experience.zoomStep g (Experience.currentZoomZ c)).
  set (target := Vector3.mk 0 0 zoom).
  set (d := Three.distanceTo (Experience.position c) target).
  assert (Hd0 : 0 <= d) by (unfold d, Three.distanceTo; apply sqrt_pos).
  set (f := if negb (AppMode_eqb (Experience.lastMode c) NEW_YEAR) then 0.15 else 0.02).
  assert (Hf : 0 <= f <= 1) by (unfold f; destruct (negb _); lra).
  assert (Hfac : 1 - f = if AppMode_eqb (Experience.lastMode c) NEW_YEAR
                         then 0.98 else 0.85).
  { unfold f. destruct (AppMode_eqb _ _); cbn; lra. }
  split; [reflexivity|].
  destruct (JS.gt d 0.01) eqn:Egt.
  - apply gt_true in Egt. rewrite distanceTo_lerp by exact Hf. fold d.
    split; [nra|]. split; [intros _; now rewrite Hfac|]. split; [intros; lra|].
    split.
    + intros ->. reflexivity.
    + intros Hnot. apply AppMode_eqb_neq in Hnot. rewrite Hnot. cbn [negb andb].
      destruct (JS.lt ((1 - f) * d) 0.1) eqn:El.
      * apply lt_true in El. split; [tauto | congruence].
      * apply lt_false in El. apply AppMode_eqb_neq in Hnot.
        split; [split; [congruence | lra] | reflexivity].
  - apply gt_false in Egt. fold d.
    split; [lra|]. split; [intros; lra|]. split; [reflexivity|].
    split.
    + intros ->. reflexivity.
    + intros Hnot. apply AppMode_eqb_neq in Hnot. rewrite Hnot. cbn [negb andb].
      destruct (JS.lt d 0.1) eqn:El.
      * apply lt_true in El. split; [tauto | congruence].
      * apply lt_false in El. lra.
Qed.

(** ** Scene rotation *)

Lemma abs_le_iff (x c : R) : Rabs x <= c <-> - c <= x <= c.
Proof.
  split.
  - intros H. unfold Rabs in H. destruct (Rcase_abs x); lra.
  - intros H. apply Rabs_le. exact H.
Qed.

Lemma lerp_abs_bound (x t f c : R) :
  0 <= f <= 1 -> Rabs x <= c -> Rabs t <= c -> Rabs (MathUtils.lerp x t f) <= c.
Proof.
  intros Hf Hx Ht. rewrite abs_le_iff in *. unfold MathUtils.lerp. split; nra.
Qed.

Lemma lerp_to_zero (x f : R) :
  0 <= f <= 1 -> Rabs (MathUtils.lerp x 0 f) = (1 - f) * Rabs x.
Proof.
  intros Hf. unfold MathUtils.lerp.
  replace ((1 - f) * x + f * 0) with ((1 - f) * x) by ring.
  rewrite Rabs_mult, (Rabs_pos_eq (1 - f)) by lra. reflexivity.
Qed.

Lemma scene_step_reach (i : Experience.SceneIn) (r : Experience.Rotation) :
  Experience.normalisedInput i -> Experience.withinReach r ->
  Experience.withinReach (Experience.SceneGroup_useFrame i r).
Proof.
  intros (Hmx & Hmy & Hgx & Hgy) [Hx Hy].
  unfold Experience.SceneGroup_useFrame, Experience.withinReach.
  assert (Hz5 : Rabs 0 <= 0.5) by (rewrite Rabs_R0; lra).
  assert (Hz15 : Rabs 0 <= 1.5) by (rewrite Rabs_R0; lra).
  destruct (AppMode_eqb (Experience.sc_mode i) NEW_YEAR).
  { cbn. split; apply lerp_abs_bound; auto; lra. }
  destruct (Experience.sc_isFrozen i); cbn [negb]; [now split|].
  destruct (AppMode_eqb (Experience.sc_mode i) TREE).
  { cbn. split; apply lerp_abs_bound; auto; lra. }
  cbn. split; apply lerp_abs_bound; auto; try lra;
    destruct (gs_isDetected (Experience.sc_gestureState i));
    apply abs_le_iff; lra.
Qed.

(** X14. With pointer and gesture coordinates in [-1, 1], a scene rotation
    within reach (|x| at most 0.5, |y| at most 1.5; the initial rotation 0
    is) stays within reach on every frame.  A frozen scene (caption dialog
    open or FOCUS mode) outside message mode is not rotated at all; in TREE
    mode and in message mode every component shrinks by the factor 0.95,
    respectively 0.9, per frame; and the roll |z| never grows. *)
Theorem scene_rotation_within_reach :
  forall (ins : list Experience.SceneIn) (r0 : Experience.Rotation),
    Forall Experience.normalisedInput ins ->
    Experience.withinReach r0 ->
    Forall Experience.withinReach (Experience.sceneFrames ins r0) /\
    (forall i r,
        Experience.sc_isFrozen i = true -> Experience.sc_mode i <> NEW_YEAR ->
        Experience.SceneGroup_useFrame i r = r) /\
    (forall i r,
        Experience.sc_mode i = NEW_YEAR \/
        (Experience.sc_mode i = TREE /\ Experience.sc_isFrozen i = false) ->
        let r' := Experience.SceneGroup_useFrame i r in
        let k := if AppMode_eqb (Experience.sc_mode i) NEW_YEAR then 0.9 else 0.95 in
        Rabs (Experience.rot_x r') = k * Rabs (Experience.rot_x r) /\
        Rabs (Experience.rot_y r') = k * Rabs (Experience.rot_y r) /\
        Rabs (Experience.rot_z r') = k * Rabs (Experience.rot_z r)) /\
    (forall i r,
        Rabs (Experience.rot_z (Experience.SceneGroup_useFrame i r))
        <= Rabs (Experience.rot_z r)).
Proof.
  intros ins r0 Hins Hr0. split; [|split; [|split]].
  - revert r0 Hr0. induction Hins as [|i ins Hi _ IH]; intros r0 Hr0; cbn.
    + constructor.
    + constructor; [|apply IH]; now apply scene_step_reach.
  - intros i r Hfrozen Hmode. unfold Experience.SceneGroup_useFrame.
    apply AppMode_eqb_neq in Hmode. now rewrite Hmode, Hfrozen.
  - intros i r Hcase. cbv zeta. unfold Experience.SceneGroup_useFrame.
    destruct Hcase as [Hny | [Htree Hfree]].
    + rewrite Hny. cbn. rewrite !lerp_to_zero by lra.
      repeat split; lra.
    + rewrite Htree, Hfree. cbn. rewrite !lerp_to_zero by lra.
      repeat split; lra.
  - intros i r. unfold Experience.SceneGroup_useFrame.
    pose proof (Rabs_pos (Experience.rot_z r)) as Hp.
    destruct (AppMode_eqb (Experience.sc_mode i) NEW_YEAR).
    { cbn. rewrite lerp_to_zero by lra. lra. }
    destruct (Experience.sc_isFrozen i); cbn [negb]; [lra|].
    destruct (AppMode_eqb (Experience.sc_mode i) TREE);
      cbn; rewrite lerp_to_zero by lra; lra.
Qed.

(** A hand steering the scattered scene to the far right, then a frozen
    frame. *)
Lemma scene_rotation_within_reach_witness :
  Forall Experience.withinReach
         (Experience.sceneFrames
            [Experience.mkSceneIn SCATTER (mkGestureState 1 (-1) 0.2 true NONE)
                                  false 0 0;
             Experience.mkSceneIn FOCUS (mkGestureState 0 0 0 false NONE) true 0.5 0.5]
            (Experience.mkRotation 0 0 0)).
Proof.
  apply (scene_rotation_within_reach
           [Experience.mkSceneIn SCATTER (mkGestureState 1 (-1) 0.2 true NONE)
                                 false 0 0;
            Experience.mkSceneIn FOCUS (mkGestureState 0 0 0 false NONE) true 0.5 0.5]
           (Experience.mkRotation 0 0 0)).
  - repeat constructor; cbn; lra.
  - unfold Experience.withinReach. cbn. rewrite Rabs_R0. lra.
Defined.

(** ** Hero star *)

Lemma star_frames_position (mode : AppMode) (times : list R) (st : HeroStar.Star) :
  Three.distanceTo (HeroStar.position (HeroStar.frames mode times st))
                   (HeroStar.targetPos mode)
  = 0.95 ^ List.length times
    * Three.distanceTo (HeroStar.position st) (HeroStar.targetPos mode).
Proof.
  revert st. induction times as [|t times IH]; intros st.
  - cbn. ring.
  - cbn [HeroStar.frames List.length pow]. rewrite IH.
    unfold HeroStar.useFrame. cbn [HeroStar.position].
    rewrite distanceTo_lerp by lra.
    replace (1 - 0.05) with 0.95 by lra. ring.
Qed.

(** X15. While the mode stays the same, every frame multiplies the
    distance of the hero star from its target for that mode by 0.95, so
    after [n] frames it is [0.95 ^ n] times the initial distance: the star
    approaches the target and never passes it.  After any frame the scale
    of the star lies in [0.69, 1.15], and in FOCUS mode it is exactly
    1.15. *)
Theorem hero_star_approaches_target :
  forall (mode : AppMode) (times : list R) (st : HeroStar.Star),
    Three.distanceTo (HeroStar.position (HeroStar.frames mode times st))
                     (HeroStar.targetPos mode)
    = 0.95 ^ List.length times
      * Three.distanceTo (HeroStar.position st) (HeroStar.targetPos mode) /\
    (forall t,
        0.69 <= HeroStar.scale (HeroStar.useFrame mode t st) <= 1.15 /\
        (mode = FOCUS -> HeroStar.scale (HeroStar.useFrame mode t st) = 1.15)).
Proof.
  intros mode times st. split; [apply star_frames_position|].
  intros t. unfold HeroStar.useFrame. cbn [HeroStar.scale].
  pose proof (SIN_bound (t * 2.5)) as [Hlo Hhi].
  destruct mode; cbn; split; first [nra | intros; discriminate | intros; lra].
Qed.

(** ** Dragging *)

Lemma clampAxis_cases (limit size v : R) :
  (size + 20 <= limit -> 10 <= Dialog.clampAxis limit size v <= limit - size - 10) /\
  (limit < size + 20 -> Dialog.clampAxis limit size v = 10) /\
  (10 <= v <= limit - size - 10 -> Dialog.clampAxis limit size v = v).
Proof.
  unfold Dialog.clampAxis, Rmax, Rmin.
  destruct (Rle_dec (limit - size - 10) v); destruct (Rle_dec 10 _);
    repeat split; intros; lra.
Qed.

Lemma clampAxis_idempotent (limit size v : R) :
  Dialog.clampAxis limit size (Dialog.clampAxis limit size v)
  = Dialog.clampAxis limit size v.
Proof.
  destruct (clampAxis_cases limit size v) as (Hin & Hpin & _).
  destruct (Rle_lt_dec (size + 20) limit) as [Hroom|Hnarrow].
  - exact (proj2 (proj2 (clampAxis_cases limit size _)) (Hin Hroom)).
  - rewrite (Hpin Hnarrow).
    exact (proj1 (proj2 (clampAxis_cases limit size 10)) Hnarrow).
Qed.

(** X16. Dragging the caption dialog: after the pointer went down at
    [(px, py)] and moved to [(cx, cy)], the dialog is at its old position
    plus the pointer displacement whenever that position keeps it on
    screen with a margin of 10; in any case, when the window has room for
    the dialog and its margins the dialog is on screen, and when the window
    is too narrow it is pinned to x = 10.  After the pointer is released a
    move does nothing.  The clamp of the gesture guide is idempotent. *)
Theorem dialog_drag_stays_on_screen :
  forall (vp : Dialog.Viewport) (px py cx cy : R) (s0 : Dialog.State),
    let w := Dialog.innerWidth vp in
    let h := Dialog.innerHeight vp in
    let dw := Dialog.orElse (Dialog.offsetWidth vp) 250 in
    let dh := Dialog.orElse (Dialog.offsetHeight vp) 140 in
    let s' := Dialog.handleMove vp cx cy (Dialog.onDialogDragStart px py s0) in
    let dragged := (fst (Dialog.pos s0) + (cx - px), snd (Dialog.pos s0) + (cy - py)) in
    (Dialog.onScreen w h dw dh dragged -> Dialog.pos s' = dragged) /\
    (dw + 20 <= w -> dh + 20 <= h -> Dialog.onScreen w h dw dh (Dialog.pos s')) /\
    (w < dw + 20 -> fst (Dialog.pos s') = 10) /\
    Dialog.handleMove vp cx cy (Dialog.handleEnd s') = Dialog.handleEnd s' /\
    (forall x y,
        Dialog.clampToViewport vp (fst (Dialog.clampToViewport vp x y))
                               (snd (Dialog.clampToViewport vp x y))
        = Dialog.clampToViewport vp x y).
Proof.
  intros vp px py cx cy s0. cbv zeta.
  unfold Dialog.handleMove, Dialog.onDialogDragStart.
  cbn [Dialog.isDragging Dialog.dragOffset Dialog.pos negb fst snd].
  set (w := Dialog.innerWidth vp). set (h := Dialog.innerHeight vp).
  set (dw := Dialog.orElse (Dialog.offsetWidth vp) 250).
  set (dh := Dialog.orElse (Dialog.offsetHeight vp) 140).
  replace (cx - (px - fst (Dialog.pos s0))) with (fst (Dialog.pos s0) + (cx - px)) by ring.
  replace (cy - (py - snd (Dialog.pos s0))) with (snd (Dialog.pos s0) + (cy - py)) by ring.
  set (nx := fst (Dialog.pos s0) + (cx - px)).
  set (ny := snd (Dialog.pos s0) + (cy - py)).
  destruct (clampAxis_cases w dw nx) as (Hxin & Hxpin & Hxid).
  destruct (clampAxis_cases h dh ny) as (Hyin & _ & Hyid).
  split; [|split; [|split; [|split]]].
  - unfold Dialog.onScreen. cbn. intros (H1 & H2 & H3 & H4).
    rewrite Hxid, Hyid by lra. reflexivity.
  - intros Hw Hh. unfold Dialog.onScreen. cbn.
    specialize (Hxin Hw). specialize (Hyin Hh). lra.
  - exact Hxpin.
  - reflexivity.
  - intros x y. unfold Dialog.clampToViewport. cbn [fst snd].
    now rewrite !clampAxis_idempotent.
Qed.

(** ** Scanning the text canvas *)

Lemma forRange_count (n s a : nat) :
  (0 < s)%nat -> (a < (n + s - 1) / s)%nat <-> (a * s < n)%nat.
Proof.
  intros Hs. split.
  - intros Ha.
    assert (H : ((a + 1) * s <= n + s - 1)%nat).
    { transitivity (((n + s - 1) / s) * s)%nat.
      - apply Nat.mul_le_mono_r. lia.
      - rewrite Nat.mul_comm. apply Nat.Div0.mul_div_le. }
    nia.
  - intros Ha.
    assert (H : (a + 1 <= (n + s - 1) / s)%nat); [|lia].
    apply Nat.div_le_lower_bound; nia.
Qed.

Lemma forRange_In (lo hi step v : nat) :
  (0 < step)%nat ->
  In v (Raster.forRange lo hi step) <->
  (lo <= v < hi)%nat /\ exists a, v = (lo + a * step)%nat.
Proof.
  intros Hs. unfold Raster.forRange. rewrite in_map_iff. split.
  - intros (a & <- & Ha). apply in_seq in Ha.
    assert (Hlt : (a * step < hi - lo)%nat) by (apply forRange_count; [exact Hs | lia]).
    split; [lia | now exists a].
  - intros (Hv & a & ->). exists a. split; [reflexivity|].
    apply in_seq. split; [lia|]. cbn. apply forRange_count; [exact Hs | lia].
Qed.

Lemma scan_In (xlo xhi ylo yhi : nat) (pix : Raster.ImageData) (c : R * R) :
  In c (Raster.scan xlo xhi ylo yhi pix) <->
  exists x y,
    c = (INR x, INR y) /\
    In x (Raster.forRange xlo xhi 2) /\ In y (Raster.forRange ylo yhi 2) /\
    (pix ((y * 1024 + x) * 4)%nat < 128)%Z.
Proof.
  unfold Raster.scan. rewrite in_flat_map. split.
  - intros (y & Hy & Hc). apply in_flat_map in Hc. destruct Hc as (x & Hx & Hc).
    cbv zeta in Hc.
    destruct (Z.ltb_spec (pix ((y * 1024 + x) * 4)%nat) 128) as [Hd|Hd];
      [|contradiction].
    destruct Hc as [<-|[]]. now exists x, y.
  - intros (x & y & -> & Hx & Hy & Hd). exists y. split; [exact Hy|].
    apply in_flat_map. exists x. split; [exact Hx|]. cbv zeta.
    apply Z.ltb_lt in Hd. rewrite Hd. now left.
Qed.

(** X17. The pool scanned for the ornaments holds exactly the pixels
    [(x, y)] with [x] even in [50, 974) and [y] even in [100, 924) whose
    red channel is below 128, and the pool scanned for foliage, spirals and
    photos exactly those with [x] and [y] even in [0, 1024); every pooled
    coordinate therefore lies on the canvas. *)
Theorem scanned_pools_hold_dark_pixels :
  forall (pix : Raster.ImageData) (c : R * R),
    (In c (Raster.decorationPool pix) <->
     exists x y,
       c = (INR x, INR y) /\
       (50 <= x < 974)%nat /\ Nat.even x = true /\
       (100 <= y < 924)%nat /\ Nat.even y = true /\
       (pix ((y * 1024 + x) * 4)%nat < 128)%Z) /\
    (In c (Raster.validCoords pix) <->
     exists x y,
       c = (INR x, INR y) /\
       (x < 1024)%nat /\ Nat.even x = true /\
       (y < 1024)%nat /\ Nat.even y = true /\
       (pix ((y * 1024 + x) * 4)%nat < 128)%Z) /\
    (In c (Raster.decorationPool pix) \/ In c (Raster.validCoords pix) ->
     Raster.onCanvas c).
Proof.
  intros pix c.
  assert (Heven : forall lo v, Nat.even lo = true ->
                    (exists a, v = (lo + a * 2)%nat) <-> (lo <= v)%nat /\ Nat.even v = true).
  { intros lo v Hlo. split.
    - intros (a & ->). split; [lia|].
      rewrite Nat.even_add, Hlo, Nat.even_mul. cbn. now rewrite orb_true_r.
    - intros [Hle Hev]. apply Nat.even_spec in Hev, Hlo.
      destruct Hev as [b ->]. destruct Hlo as [l ->]. exists (b - l)%nat. lia. }
  assert (Hrange : forall lo hi v, Nat.even lo = true ->
                     In v (Raster.forRange lo hi 2)
                     <-> (lo <= v < hi)%nat /\ Nat.even v = true).
  { intros lo hi v Hlo. rewrite forRange_In by lia. rewrite (Heven lo v Hlo). tauto. }
  assert (Hdeco : In c (Raster.decorationPool pix) <->
                  exists x y,
                    c = (INR x, INR y) /\
                    (50 <= x < 974)%nat /\ Nat.even x = true /\
                    (100 <= y < 924)%nat /\ Nat.even y = true /\
                    (pix ((y * 1024 + x) * 4)%nat < 128)%Z).
  { unfold Raster.decorationPool. rewrite scan_In. split.
    - intros (x & y & Hc & Hx & Hy & Hd).
      apply Hrange in Hx; [|reflexivity]. apply Hrange in Hy; [|reflexivity].
      exists x, y. tauto.
    - intros (x & y & Hc & Hx & Hxe & Hy & Hye & Hd). exists x, y.
      split; [exact Hc|]. split; [apply Hrange; [reflexivity | tauto]|].
      split; [apply Hrange; [reflexivity | tauto] | exact Hd]. }
  assert (Hvalid : In c (Raster.validCoords pix) <->
                   exists x y,
                     c = (INR x, INR y) /\
                     (x < 1024)%nat /\ Nat.even x = true /\
                     (y < 1024)%nat /\ Nat.even y = true /\
                     (pix ((y * 1024 + x) * 4)%nat < 128)%Z).
  { unfold Raster.validCoords. rewrite scan_In. split.
    - intros (x & y & Hc & Hx & Hy & Hd).
      apply Hrange in Hx; [|reflexivity]. apply Hrange in Hy; [|reflexivity].
      exists x, y. repeat split; tauto || lia.
    - intros (x & y & Hc & Hx & Hxe & Hy & Hye & Hd). exists x, y.
      split; [exact Hc|]. split; [apply Hrange; [reflexivity | split; [lia | exact Hxe]]|].
      split; [apply Hrange; [reflexivity | split; [lia | exact Hye]] | exact Hd]. }
  split; [exact Hdeco|]. split; [exact Hvalid|].
  assert (Hinr : forall n, (n < 1024)%nat -> 0 <= INR n <= 1024).
  { intros n Hn. split; [apply pos_INR|].
    replace 1024 with (INR 1024) by (rewrite INR_IZR_INZ; reflexivity).
    apply le_INR. lia. }
  intros [H|H].
  - apply Hdeco in H. destruct H as (x & y & -> & Hx & _ & Hy & _).
    split; cbn; apply Hinr; lia.
  - apply Hvalid in H. destruct H as (x & y & -> & Hx & _ & Hy & _).
    split; cbn; apply Hinr; lia.
Qed.

(** ** Sampling the message text *)

(** A loop whose body returns at every index with a result satisfying
    [P] at that index returns [count] results, the j-th satisfying [P]
    at index [i + j]. *)
Lemma loop_nth {A : Type} (P : nat -> A -> Prop) (body : nat -> Rand.M A)
      (src : Rand.Source) :
  (forall i k, exists a k', body i src k = Ok (a, k') /\ P i a) ->
  forall count i k,
  exists l k', Rand.loop count i body src k = Ok (l, k') /\
               List.length l = count /\
               forall j a, nth_error l j = Some a -> P (i + j)%nat a.
Proof.
  intros Hbody. induction count as [|count IH]; intros i k.
  - exists [], k. split; [reflexivity|]. split; [reflexivity|].
    intros [|j] a H; discriminate.
  - destruct (Hbody i k) as (a & k1 & Ha & HP).
    destruct (IH (S i) k1) as (l & k2 & Hl & Hlen & Hnth).
    exists (a :: l), k2. cbn [Rand.loop]. unfold Rand.bind at 1. rewrite Ha.
    unfold Rand.bind at 1. rewrite Hl. unfold Rand.ret.
    split; [reflexivity|]. split; [cbn; now rewrite Hlen|].
    intros [|j] b Hb.
    + cbn in Hb. injection Hb as <-. now rewrite Nat.add_0_r.
    + cbn in Hb. replace (i + S j)%nat with (S i + j)%nat by lia. now apply Hnth.
Qed.

Lemma scan_onCanvas (xlo xhi ylo yhi : nat) (pix : Raster.ImageData) (c : R * R) :
  (xhi <= 1024)%nat -> (yhi <= 1024)%nat ->
  In c (Raster.scan xlo xhi ylo yhi pix) -> Raster.onCanvas c.
Proof.
  intros Hx Hy Hc. apply scan_In in Hc. destruct Hc as (x & y & -> & Hxr & Hyr & _).
  apply forRange_In in Hxr; [|lia]. apply forRange_In in Hyr; [|lia].
  assert (Hinr : forall n, (n < 1024)%nat -> 0 <= INR n <= 1024).
  { intros n Hn. split; [apply pos_INR|].
    replace 1024 with (INR 1024) by (rewrite INR_IZR_INZ; reflexivity).
    apply le_INR. lia. }
  split; cbn; apply Hinr; lia.
Qed.

(** The pool a sampler draws from, scanned or the fallback centre pixel,
    is not empty and lies on the canvas. *)
Lemma pool_onCanvas (scanned : list (R * R)) :
  Forall Raster.onCanvas scanned ->
  let pool := if (0 <? List.length scanned)%nat then scanned else [(512, 512)] in
  (0 < List.length pool)%nat /\ Forall Raster.onCanvas pool.
Proof.
  intros Hs pool. unfold pool.
  destruct (Nat.ltb_spec 0 (List.length scanned)) as [H|H].
  - split; [exact H | exact Hs].
  - split; [cbn; lia|]. constructor; [|constructor].
    unfold Raster.onCanvas. cbn. lra.
Qed.

(** A canvas coordinate maps into the text plane of side [scale]. *)
Lemma canvas_to_plane (scale : R) (c : R * R) :
  0 <= scale -> Raster.onCanvas c ->
  - scale / 2 <= (fst c / 1024 - 0.5) * scale <= scale / 2 /\
  - scale / 2 <= (snd c / 1024 - 0.5) * - scale <= scale / 2.
Proof.
  intros Hs [[Hx0 Hx1] [Hy0 Hy1]].
  assert (Hx : -0.5 <= fst c / 1024 - 0.5 <= 0.5) by lra.
  assert (Hy : -0.5 <= snd c / 1024 - 0.5 <= 0.5) by lra.
  split; nra.
Qed.

(** A draw from a pool on the canvas is a coordinate on the canvas. *)
Lemma pool_draw (pool : list (R * R)) (r : R) :
  (0 < List.length pool)%nat -> Forall Raster.onCanvas pool -> 0 <= r < 1 ->
  exists coord,
    JS.index pool (JS.floor (r * INR (List.length pool))) = Some coord /\
    Raster.onCanvas coord.
Proof.
  intros Hlen Hall Hr.
  destruct (index_in_range pool (JS.floor (r * INR (List.length pool))))
    as (coord & Hc & Hn).
  { now apply floor_index_range. }
  exists coord. split; [exact Hc|].
  rewrite Forall_forall in Hall. apply Hall. eapply nth_error_In. exact Hn.
Qed.



(** ** Home and message positions of the formations *)

Lemma circle_sqr (a r : R) :
  cos a * r * (cos a * r) + sin a * r * (sin a * r) = r * r.
Proof.
  pose proof (sin2_cos2 a) as H. unfold Rsqr in H.
  replace (cos a * r * (cos a * r) + sin a * r * (sin a * r))
    with (r * r * (sin a * sin a + cos a * cos a)) by ring.
  rewrite H. ring.
Qed.

Lemma ornament_points_in_text_box (src : Rand.Source) (pix : Raster.ImageData)
      (count k : nat) (scale zOffset zVariation : R) :
  Rand.valid src -> 0 <= scale -> 0 <= zVariation ->
  exists l k',
    Ornaments.generateNewYearPoints (Some (Raster.decorationPool pix)) count
                                    scale zOffset zVariation src k = Ok (l, k') /\
    List.length l = count /\
    forall j v, nth_error l j = Some v ->
                Raster.inTextBox scale zOffset (zVariation / 2) v.
Proof.
  intros Hv Hs Hz. unfold Ornaments.generateNewYearPoints. cbv zeta.
  destruct (pool_onCanvas (Raster.decorationPool pix)) as [Hlen Hall].
  { apply Forall_forall. intros c Hc.
    apply (scan_onCanvas 50 974 100 924 pix c); [lia | lia | exact Hc]. }
  cbv zeta in Hlen, Hall.
  set (pool := if (0 <? List.length (Raster.decorationPool pix))%nat
               then Raster.decorationPool pix else [(512, 512)]) in *.
  apply (loop_nth (fun (_ : nat) v => Raster.inTextBox scale zOffset (zVariation / 2) v)).
  intros i k0. unfold Rand.bind at 1, Rand.random.
  destruct (pool_draw pool (src k0) Hlen Hall (Hv k0)) as (coord & Hc & Hon).
  rewrite Hc.
  destruct (canvas_to_plane scale coord Hs Hon) as [Hx Hy].
  pose proof (Hv (S k0)) as H2.
  eexists _, _. split; [reflexivity|].
  unfold Raster.inTextBox. cbn. split; [exact Hx|]. split; [exact Hy|]. nra.
Qed.

Lemma ornamentDatum_shape (src : Rand.Source) (scatterRadius : R)
      (nyPosList : list Vector3.t) (i k : nat) :
  Rand.valid src ->
  exists d k',
    Ornaments.ornamentDatum scatterRadius nyPosList i src k = Ok (d, k') /\
    Ornaments.id d = i /\
    Shape.onCone 15 4.8 (Ornaments.treePos d) /\
    Ornaments.nyPos d = nth i nyPosList Vector3.zero.
Proof.
  intros Hv. eexists _, _.
  split; [unfold Ornaments.ornamentDatum, Rand.bind, Rand.random, Rand.ret; reflexivity|].
  cbn [Ornaments.id Ornaments.treePos Ornaments.nyPos].
  split; [reflexivity|]. split; [|reflexivity].
  pose proof (Hv k) as H1. unfold Shape.onCone. cbn [Vector3.x Vector3.y Vector3.z].
  split; [lra|]. rewrite circle_sqr. cbn [pow].
  assert (E : 6.0 * (1 - src k * 15 / 15) * 0.8
              = 4.8 * (1 - (src k * 15 - 15 / 2 + 15 / 2) / 15)) by lra.
  rewrite E, Rmult_1_r. reflexivity.
Qed.

(** X19. The ornaments of [useOrnamentData].  Every ornament carries its
    index as [id]; its home position lies on the surface of the cone of
    height 15 whose radius shrinks from 4.8 at the base to 0 at the tip;
    with a canvas its message position lies in the text plane of side 18 at
    depth [zBase], within [zVar / 2]; without a canvas it is the origin. *)
Theorem ornament_data_shape :
  forall (src : Rand.Source) (canvas : option Raster.ImageData)
         (count k : nat) (scatterRadius zBase zVar : R),
    Rand.valid src -> 0 <= zVar ->
    exists ds k',
      Ornaments.useOrnamentData (Raster.ornamentCanvas canvas) count
                                scatterRadius zBase zVar src k = Ok (ds, k') /\
      List.length ds = count /\
      forall j d, nth_error ds j = Some d ->
        Ornaments.id d = j /\
        Shape.onCone 15 4.8 (Ornaments.treePos d) /\
        match canvas with
        | Some _ => Raster.inTextBox 18 zBase (zVar / 2) (Ornaments.nyPos d)
        | None => Ornaments.nyPos d = Vector3.zero
        end.
Proof.
  intros src canvas count k scatterRadius zBase zVar Hv Hz.
  unfold Ornaments.useOrnamentData.
  assert (Hpts : exists l k1,
             Ornaments.generateNewYearPoints (Raster.ornamentCanvas canvas) count 18
                                             zBase zVar src k = Ok (l, k1) /\
             List.length l = count /\
             forall j v, nth_error l j = Some v ->
               match canvas with
               | Some _ => Raster.inTextBox 18 zBase (zVar / 2) v
               | None => v = Vector3.zero
               end).
  { destruct canvas as [pix|].
    - apply ornament_points_in_text_box; [exact Hv | lra | exact Hz].
    - exists (repeat Vector3.zero count), k. split; [reflexivity|].
      split; [apply repeat_length|].
      intros j v Hj. apply nth_error_In in Hj. now apply repeat_spec in Hj. }
  destruct Hpts as (l & k1 & Hl & Hlen & Hbox).
  unfold Rand.bind at 1. rewrite Hl.
  destruct (loop_nth
              (fun j d => Ornaments.id d = j /\
                          Shape.onCone 15 4.8 (Ornaments.treePos d) /\
                          Ornaments.nyPos d = nth j l Vector3.zero)
              (Ornaments.ornamentDatum scatterRadius l) src) with (count := count)
    (i := 0%nat) (k := k1) as (ds & k2 & Hds & Hdlen & Hd).
  { intros i k0. apply ornamentDatum_shape. exact Hv. }
  exists ds, k2. split; [exact Hds|]. split; [exact Hdlen|].
  intros j d Hj. destruct (Hd j d Hj) as (Hid & Hcone & Hny). cbn in Hid, Hny.
  split; [exact Hid|]. split; [exact Hcone|].
  assert (Hjc : (j < count)%nat).
  { rewrite <- Hdlen. apply nth_error_Some. congruence. }
  assert (Hnth : nth_error l j = Some (Ornaments.nyPos d)).
  { rewrite Hny. apply nth_error_nth'. lia. }
  exact (Hbox j _ Hnth).
Qed.

Lemma ornament_data_shape_witness :
  exists ds k',
    Ornaments.useOrnamentData (Raster.ornamentCanvas None) 2 15 0.1 0.2
                              Sample.half 0%nat = Ok (ds, k') /\
    List.length ds = 2%nat /\
    forall j d, nth_error ds j = Some d ->
      Ornaments.id d = j /\
      Shape.onCone 15 4.8 (Ornaments.treePos d) /\
      Ornaments.nyPos d = Vector3.zero.
Proof.
  apply (ornament_data_shape Sample.half None 2 0 15 0.1 0.2).
  - exact half_valid.
  - lra.
Defined.

Lemma treeDatum_shape (src : Rand.Source) (i k : nat) :
  Rand.valid src ->
  exists f k',
    TreeSystem.treeDatum i src k = Ok (f, k') /\
    Shape.inCone 15 6 (TreeSystem.fo_position f) /\
    0.15 <= TreeSystem.fo_size f < 0.6 /\
    0.1 <= TreeSystem.fo_speed f < 0.6.
Proof.
  intros Hv. eexists _, _.
  split; [unfold TreeSystem.treeDatum, Rand.bind, Rand.random, Rand.ret; reflexivity|].
  cbn [TreeSystem.fo_position TreeSystem.fo_size TreeSystem.fo_speed].
  pose proof (Hv k) as H1. pose proof (Hv (S (S k))) as H3.
  pose proof (Hv (S (S (S (S (S (S k))))))) as H7.
  pose proof (Hv (S (S (S (S (S (S (S k)))))))) as H8.
  split; [|split; lra].
  unfold Shape.inCone. cbn [Vector3.x Vector3.y Vector3.z].
  split; [lra|]. rewrite circle_sqr. cbn [pow].
  replace ((src k * 15 - 15 / 2 + 15 / 2) / 15) with (src k) by field.
  replace (src k * 15 / 15) with (src k) by field.
  assert (Hc : 0 <= 6 * (1 - src k)) by lra.
  assert (Ho : 0 <= src (S (S k)) * (6 * (1 - src k)) <= 6 * (1 - src k)) by nra.
  nra.
Qed.

(** X20. The foliage of [generateTreeData].  Every particle has its home
    position inside the solid cone of height 15 and base radius 6 standing
    on [y = -7.5], a size in [0.15, 0.6) and a speed in [0.1, 0.6). *)
Theorem foliage_inside_cone :
  forall (src : Rand.Source) (count k : nat),
    Rand.valid src ->
    exists l k',
      TreeSystem.generateTreeData count src k = Ok (l, k') /\
      List.length l = count /\
      forall j f, nth_error l j = Some f ->
        Shape.inCone 15 6 (TreeSystem.fo_position f) /\
        0.15 <= TreeSystem.fo_size f < 0.6 /\
        0.1 <= TreeSystem.fo_speed f < 0.6.
Proof.
  intros src count k Hv. unfold TreeSystem.generateTreeData.
  apply (loop_nth (fun (_ : nat) f =>
                     Shape.inCone 15 6 (TreeSystem.fo_position f) /\
                     0.15 <= TreeSystem.fo_size f < 0.6 /\
                     0.1 <= TreeSystem.fo_speed f < 0.6)).
  intros i k0. apply treeDatum_shape. exact Hv.
Qed.

Lemma foliage_inside_cone_witness :
  exists l k',
    TreeSystem.generateTreeData 2 Sample.half 0%nat = Ok (l, k') /\
    List.length l = 2%nat /\
    forall j f, nth_error l j = Some f ->
      Shape.inCone 15 6 (TreeSystem.fo_position f) /\
      0.15 <= TreeSystem.fo_size f < 0.6 /\
      0.1 <= TreeSystem.fo_speed f < 0.6.
Proof.
  apply (foliage_inside_cone Sample.half 2 0). exact half_valid.
Defined.

(** ** The two spiral arms *)

Lemma trunc_nonneg (x : R) : 0 <= x -> JS.trunc x = JS.floor x.
Proof.
  intros Hx. unfold JS.trunc. destruct (Rlt_dec x 0) as [H|H]; [lra | reflexivity].
Qed.

(** [a % b] for a dividend that is not negative and a positive divisor *)
Lemma rem_range (a b : R) : 0 <= a -> 0 < b -> 0 <= JS.rem a b < b.
Proof.
  intros Ha Hb. unfold JS.rem.
  assert (Hq : 0 <= a / b) by (apply Rmult_le_pos; [exact Ha | left; now apply Rinv_0_lt_compat]).
  rewrite (trunc_nonneg _ Hq).
  destruct (floor_spec (a / b)) as [Hlo Hhi].
  assert (E : a / b * b = a) by (field; lra).
  set (q := IZR (JS.floor (a / b))) in *.
  split; nra.
Qed.

Lemma rem_shift (a b : R) (n : Z) :
  0 <= a < b -> (0 <= n)%Z -> JS.rem (a + IZR n * b) b = a.
Proof.
  intros [Ha0 Ha1] Hn. unfold JS.rem.
  assert (Hb : 0 < b) by lra.
  assert (Hn' : 0 <= IZR n) by now apply IZR_le.
  assert (E : (a + IZR n * b) / b = a / b + IZR n) by (field; lra).
  assert (Hq : 0 <= a / b < 1).
  { split.
    - apply Rmult_le_pos; [exact Ha0 | left; now apply Rinv_0_lt_compat].
    - apply Rmult_lt_reg_r with b; [exact Hb|].
      replace (a / b * b) with a by (field; lra). lra. }
  rewrite trunc_nonneg by (rewrite E; lra).
  rewrite (floor_unique ((a + IZR n * b) / b) n) by (rewrite E; lra).
  ring.
Qed.

Lemma spiralDatum_bounds (src : Rand.Source) (count i k : nat) :
  Rand.valid src -> (0 < count)%nat ->
  exists s k',
    TreeSystem.spiralDatum count i src k = Ok (s, k') /\
    - 8.125 <= Vector3.y (TreeSystem.sp_pos s) < 8.125 /\
    Vector3.x (TreeSystem.sp_pos s) * Vector3.x (TreeSystem.sp_pos s)
    + Vector3.z (TreeSystem.sp_pos s) * Vector3.z (TreeSystem.sp_pos s) <= 7 * 7 /\
    0.2 <= TreeSystem.sp_size s < 0.7 /\
    0 <= TreeSystem.sp_phase s < 2 * PI.
Proof.
  intros Hv Hc. eexists _, _.
  split; [unfold TreeSystem.spiralDatum, Rand.bind, Rand.random, Rand.ret; reflexivity|].
  cbn [TreeSystem.sp_pos TreeSystem.sp_size TreeSystem.sp_phase
       Vector3.x Vector3.y Vector3.z].
  assert (Hh : 0 < INR count / 2).
  { assert (0 < INR count) by (apply lt_0_INR; exact Hc). lra. }
  pose proof (rem_range (INR i) (INR count / 2) (pos_INR i) Hh) as Hrem.
  set (h := INR count / 2) in *.
  set (progress := JS.rem (INR i) h / h).
  assert (Hp : 0 <= progress < 1).
  { unfold progress. split.
    - apply Rmult_le_pos; [lra | left; now apply Rinv_0_lt_compat].
    - apply Rmult_lt_reg_r with h; [exact Hh|].
      replace (JS.rem (INR i) h / h * h) with (JS.rem (INR i) h) by (field; lra). lra. }
  pose proof (Hv k) as H1. pose proof (Hv (S k)) as H2.
  pose proof (Hv (S (S (S (S (S k)))))) as H6.
  pose proof (Hv (S (S (S (S (S (S k))))))) as H7.
  pose proof PI_RGT_0 as Hpi.
  split; [lra|]. split; [|split; nra].
  rewrite circle_sqr.
  assert (Hr : - 0.2 <= 6.8 * (1 - progress) + (src k - 0.5) * 0.4 <= 7) by lra.
  nra.
Qed.

(** X21. The spirals of [generateSpiralData].  Every particle has its
    home position at a height in [-8.125, 8.125) and at most 7 from the
    vertical axis, a size in [0.2, 0.7) and a phase in [0, 2 PI). *)
Theorem spiral_particles_bounded :
  forall (src : Rand.Source) (count k : nat),
    Rand.valid src ->
    exists l k',
      TreeSystem.generateSpiralData count src k = Ok (l, k') /\
      List.length l = count /\
      forall j s, nth_error l j = Some s ->
        - 8.125 <= Vector3.y (TreeSystem.sp_pos s) < 8.125 /\
        Vector3.x (TreeSystem.sp_pos s) * Vector3.x (TreeSystem.sp_pos s)
        + Vector3.z (TreeSystem.sp_pos s) * Vector3.z (TreeSystem.sp_pos s) <= 7 * 7 /\
        0.2 <= TreeSystem.sp_size s < 0.7 /\
        0 <= TreeSystem.sp_phase s < 2 * PI.
Proof.
  intros src count k Hv. unfold TreeSystem.generateSpiralData.
  destruct count as [|n].
  - exists [], k. split; [reflexivity|]. split; [reflexivity|].
    intros [|j] s H; discriminate.
  - apply (loop_nth (fun (_ : nat) s =>
       - 8.125 <= Vector3.y (TreeSystem.sp_pos s) < 8.125 /\
       Vector3.x (TreeSystem.sp_pos s) * Vector3.x (TreeSystem.sp_pos s)
       + Vector3.z (TreeSystem.sp_pos s) * Vector3.z (TreeSystem.sp_pos s) <= 7 * 7 /\
       0.2 <= TreeSystem.sp_size s < 0.7 /\
       0 <= TreeSystem.sp_phase s < 2 * PI)).
    intros i k0. apply spiralDatum_bounds; [exact Hv | lia].
Qed.

Lemma spiral_particles_bounded_witness :
  exists l k',
    TreeSystem.generateSpiralData 4 Sample.half 0%nat = Ok (l, k') /\
    List.length l = 4%nat /\
    forall j s, nth_error l j = Some s ->
      - 8.125 <= Vector3.y (TreeSystem.sp_pos s) < 8.125 /\
      Vector3.x (TreeSystem.sp_pos s) * Vector3.x (TreeSystem.sp_pos s)
      + Vector3.z (TreeSystem.sp_pos s) * Vector3.z (TreeSystem.sp_pos s) <= 7 * 7 /\
      0.2 <= TreeSystem.sp_size s < 0.7 /\
      0 <= TreeSystem.sp_phase s < 2 * PI.
Proof.
  apply (spiral_particles_bounded Sample.half 4 0). exact half_valid.
Defined.

(** X22. The two arms of the spiral.  For an even [count = 2 * h],
    particle [i < h] sits on the first arm at progress [i / h], and particle
    [i + h] at the same progress on the second arm, which is the first arm
    turned by half a turn about the vertical axis; each is moved by less
    than 0.2 away from the axis and by less than 0.125 in height. *)
Theorem spiral_arms_opposite :
  forall (src : Rand.Source) (h i k1 k2 : nat),
    Rand.valid src -> (i < h)%nat ->
    exists s1 s2 k1' k2' spread1 dy1 spread2 dy2,
      TreeSystem.spiralDatum (2 * h) i src k1 = Ok (s1, k1') /\
      TreeSystem.spiralDatum (2 * h) (i + h) src k2 = Ok (s2, k2') /\
      - 0.2 <= spread1 < 0.2 /\ - 0.125 <= dy1 < 0.125 /\
      - 0.2 <= spread2 < 0.2 /\ - 0.125 <= dy2 < 0.125 /\
      TreeSystem.sp_pos s1 = Shape.spiralPoint (INR i / INR h) spread1 dy1 /\
      TreeSystem.sp_pos s2
      = Shape.halfTurn (Shape.spiralPoint (INR i / INR h) spread2 dy2).
Proof.
  intros src h i k1 k2 Hv Hi.
  assert (Hh : 0 < INR h) by (apply lt_0_INR; lia).
  assert (Hhalf : INR (2 * h) / 2 = INR h).
  { rewrite mult_INR. cbn [INR]. field. }
  assert (Hih : 0 <= INR i < INR h).
  { split; [apply pos_INR | apply lt_INR; exact Hi]. }
  assert (Hrem1 : JS.rem (INR i) (INR h) = INR i).
  { replace (INR i) with (INR i + IZR 0 * INR h) at 1 by ring.
    apply rem_shift; [exact Hih | lia]. }
  assert (Hrem2 : JS.rem (INR (i + h)) (INR h) = INR i).
  { rewrite plus_INR. replace (INR i + INR h) with (INR i + IZR 1 * INR h) by ring.
    apply rem_shift; [exact Hih | lia]. }
  assert (Hlt1 : JS.lt (INR i) (INR h) = true) by (apply lt_true; lra).
  assert (Hlt2 : JS.lt (INR (i + h)) (INR h) = false).
  { apply lt_false. rewrite plus_INR. lra. }
  eexists _, _, _, _,
    ((src k1 - 0.5) * 0.4), ((src (S k1) - 0.5) * 0.25),
    ((src k2 - 0.5) * 0.4), ((src (S k2) - 0.5) * 0.25).
  split; [unfold TreeSystem.spiralDatum, Rand.bind, Rand.random, Rand.ret; reflexivity|].
  split; [unfold TreeSystem.spiralDatum, Rand.bind, Rand.random, Rand.ret; reflexivity|].
  pose proof (Hv k1) as A1. pose proof (Hv (S k1)) as A2.
  pose proof (Hv k2) as B1. pose proof (Hv (S k2)) as B2.
  split; [lra|]. split; [lra|]. split; [lra|]. split; [lra|].
  cbn [TreeSystem.sp_pos]. rewrite Hhalf, Hlt1, Hlt2, Hrem1, Hrem2.
  unfold Shape.spiralPoint, Shape.halfTurn. cbn [Vector3.x Vector3.y Vector3.z].
  set (p := INR i / INR h).
  split.
  - replace (p * 8 * PI * 2 + 0 * PI) with (p * 8 * PI * 2) by ring.
    reflexivity.
  - replace (p * 8 * PI * 2 + 1 * PI) with (p * 8 * PI * 2 + PI) by ring.
    rewrite neg_cos, neg_sin.
    f_equal; ring.
Qed.

Lemma spiral_arms_opposite_witness :
  exists s1 s2 k1' k2' spread1 dy1 spread2 dy2,
    TreeSystem.spiralDatum (2 * 2) 1 Sample.half 0%nat = Ok (s1, k1') /\
    TreeSystem.spiralDatum (2 * 2) (1 + 2) Sample.half 21%nat = Ok (s2, k2') /\
    - 0.2 <= spread1 < 0.2 /\ - 0.125 <= dy1 < 0.125 /\
    - 0.2 <= spread2 < 0.2 /\ - 0.125 <= dy2 < 0.125 /\
    TreeSystem.sp_pos s1 = Shape.spiralPoint (INR 1 / INR 2) spread1 dy1 /\
    TreeSystem.sp_pos s2
    = Shape.halfTurn (Shape.spiralPoint (INR 1 / INR 2) spread2 dy2).
Proof.
  apply (spiral_arms_opposite Sample.half 2 1 0 21).
  - exact half_valid.
  - lia.
Defined.

(** ** The formation of a photo card *)

Lemma message_core_points (src : Rand.Source) (canvas : option Raster.ImageData)
      (count k : nat) (scale zThickness : R) :
  Rand.valid src -> 0 <= scale -> 0 <= zThickness ->
  exists l,
    Message.generateNewYearPoints canvas count scale None zThickness src k
    = Ok (l, (k + match canvas with Some _ => count * 2 | None => 0 end)%nat) /\
    List.length l = count /\
    Forall (Raster.inTextBox scale 0 (zThickness / 2)) l.
Proof.
  intros Hv Hs Hz. destruct canvas as [pix|].
  - unfold Message.generateNewYearPoints. cbv zeta.
    destruct (pool_onCanvas (Raster.validCoords pix)) as [Hlen Hall].
    { apply Forall_forall. intros c Hc.
      apply (scan_onCanvas 0 1024 0 1024 pix c); [lia | lia | exact Hc]. }
    cbv zeta in Hlen, Hall.
    set (pool := if (0 <? List.length (Raster.validCoords pix))%nat
                 then Raster.validCoords pix else [(512, 512)]) in *.
    apply (loop_Forall (Raster.inTextBox scale 0 (zThickness / 2))).
    intros i k0. unfold Rand.bind at 1, Rand.random.
    destruct (pool_draw pool (src k0) Hlen Hall (Hv k0)) as (coord & Hc & Hon).
    rewrite Hc.
    destruct (canvas_to_plane scale coord Hs Hon) as [Hx Hy].
    pose proof (Hv (S k0)) as H2.
    eexists. split.
    + unfold Rand.bind, Rand.random, Rand.ret. do 2 f_equal. lia.
    + unfold Raster.inTextBox. cbn. split; [exact Hx|]. split; [exact Hy|]. nra.
  - exists (repeat Vector3.zero count). split; [|split].
    + cbn. unfold Rand.ret. do 2 f_equal. lia.
    + apply repeat_length.
    + apply Forall_forall. intros v Hin. apply repeat_spec in Hin. subst v.
      unfold Raster.inTextBox. cbn. lra.
Qed.

(** X23. The formation of a photo card.  The [useMemo] of
    [PolaroidPhoto] always returns, after 206 random draws with a canvas
    and 6 without.  The chaos position is the one [photoChaosPos] draws
    first; the initial rotation is [(u - 0.5)] times 0.3, 0.5 and 0.2 for
    the third, fourth and fifth draw, hence within 0.15, 0.25 and 0.1 of
    zero; the message position is the x and y of the sampled point at index
    [floor (u * 100)], [u] the last draw, of the 100 points the text sampler
    returns from the sixth draw on, at depth -0.2: the index never leaves
    the array and the position lies in the text plane of side 18. *)
Theorem photo_card_formation :
  forall (src : Rand.Source) (canvas : option Raster.ImageData)
         (h : Vector3.t) (k : nat),
    Rand.valid src ->
    let k5 := (k + 5 + match canvas with Some _ => 200 | None => 0 end)%nat in
    exists c rawPoints p,
      TreeSystem.photoChaosPos h src k = Ok (c, (k + 2)%nat) /\
      Message.generateNewYearPoints canvas 100 18 None 0.1 src (k + 5)%nat
      = Ok (rawPoints, k5) /\
      List.length rawPoints = 100%nat /\
      (0 <= JS.floor (src k5 * 100) < 100)%Z /\
      nth_error rawPoints (Z.to_nat (JS.floor (src k5 * 100))) = Some p /\
      Message.photoFormation canvas h src k
      = Ok ((c,
             ((src (k + 2)%nat - 0.5) * 0.3, (src (k + 3)%nat - 0.5) * 0.5,
              (src (k + 4)%nat - 0.5) * 0.2),
             Vector3.mk (Vector3.x p) (Vector3.y p) (-0.2)),
            (k5 + 1)%nat) /\
      Raster.inTextBox 18 (-0.2) 0 (Vector3.mk (Vector3.x p) (Vector3.y p) (-0.2)) /\
      - 0.15 <= (src (k + 2)%nat - 0.5) * 0.3 < 0.15 /\
      - 0.25 <= (src (k + 3)%nat - 0.5) * 0.5 < 0.25 /\
      - 0.1 <= (src (k + 4)%nat - 0.5) * 0.2 < 0.1.
Proof.
  intros src canvas h k Hv k5.
  destruct (message_core_points src canvas 100 (k + 5) 18 0.1 Hv)
    as (l & Hl & Hlen & Hbox); [lra | lra |].
  assert (Ek5 : (k + 5 + match canvas with Some _ => 100 * 2 | None => 0 end)%nat = k5).
  { unfold k5. destruct canvas; reflexivity. }
  rewrite Ek5 in Hl.
  assert (Hidx : (0 <= JS.floor (src k5 * 100) < 100)%Z).
  { replace 100 with (INR 100) by (rewrite INR_IZR_INZ; reflexivity).
    change 100%Z with (Z.of_nat 100).
    apply floor_index_range; [apply Hv | lia]. }
  destruct (index_in_range l (JS.floor (src k5 * 100))) as (p & Hp & Hn).
  { rewrite Hlen. exact Hidx. }
  assert (Hpbox : Raster.inTextBox 18 0 (0.1 / 2) p).
  { rewrite Forall_forall in Hbox. apply Hbox. eapply nth_error_In. exact Hn. }
  eexists _, l, p.
  split; [apply photoChaosPos_run|].
  split; [exact Hl|]. split; [exact Hlen|]. split; [exact Hidx|]. split; [exact Hn|].
  split; [|split].
  - unfold Message.photoFormation. unfold Rand.bind at 1.
    rewrite photoChaosPos_run.
    unfold Rand.bind, Rand.random, Rand.ret.
    replace (S (S (S (k + 2)))) with (k + 5)%nat by lia.
    rewrite Hl, Hp.
    replace (S (k + 2)) with (k + 3)%nat by lia.
    replace (S (k + 3)) with (k + 4)%nat by lia.
    replace (S k5) with (k5 + 1)%nat by lia.
    reflexivity.
  - destruct Hpbox as (Hx & Hy & _). unfold Raster.inTextBox. cbn.
    split; [exact Hx|]. split; [exact Hy|]. lra.
  - pose proof (Hv (k + 2)%nat) as H3. pose proof (Hv (k + 3)%nat) as H4.
    pose proof (Hv (k + 4)%nat) as H5. lra.
Qed.

(** A photo card formed on a canvas whose every pixel is dark *)
Lemma photo_card_formation_witness :
  exists c rawPoints p,
    TreeSystem.photoChaosPos (Vector3.mk 1 0 0) Sample.half 0%nat = Ok (c, (0 + 2)%nat) /\
    Message.generateNewYearPoints (Some (fun _ => 0%Z)) 100 18 None 0.1 Sample.half
                                  (0 + 5)%nat
    = Ok (rawPoints, (0 + 5 + 200)%nat) /\
    nth_error rawPoints (Z.to_nat (JS.floor (Sample.half (0 + 5 + 200)%nat * 100)))
    = Some p /\
    Message.photoFormation (Some (fun _ => 0%Z)) (Vector3.mk 1 0 0) Sample.half 0%nat
    = Ok ((c,
           ((Sample.half (0 + 2)%nat - 0.5) * 0.3, (Sample.half (0 + 3)%nat - 0.5) * 0.5,
            (Sample.half (0 + 4)%nat - 0.5) * 0.2),
           Vector3.mk (Vector3.x p) (Vector3.y p) (-0.2)),
          (0 + 5 + 200 + 1)%nat).
Proof.
  destruct (photo_card_formation Sample.half (Some (fun _ => 0%Z)) (Vector3.mk 1 0 0) 0
                                 half_valid)
    as (c & rawPoints & p & Hc & Hr & _ & _ & Hn & Hf & _).
  exists c, rawPoints, p.
  split; [exact Hc|]. split; [exact Hr|]. split; [exact Hn | exact Hf].
Defined.

(** ** Merging geometries *)

Lemma lookup_all {A : Type} (p : list A) :
  map (nth_error p) (seq 0 (List.length p)) = map Some p.
Proof.
  induction p as [|a p IH]; [reflexivity|].
  cbn [List.length seq map nth_error]. f_equal.
  rewrite <- seq_shift, map_map. exact IH.
Qed.

Lemma lookup_shifted {A : Type} (ps p : list A) (idx : list nat) :
  map (nth_error (ps ++ p)) (map (fun v => v + List.length ps)%nat idx)
  = map (nth_error p) idx.
Proof.
  rewrite map_map. apply map_ext. intros v.
  rewrite nth_error_app2 by lia. f_equal. lia.
Qed.

Lemma lookup_kept {A : Type} (ps p : list A) (idx : list nat) :
  Forall (fun v => (v < List.length ps)%nat) idx ->
  map (nth_error (ps ++ p)) idx = map (nth_error ps) idx.
Proof.
  intros H. apply map_ext_in. intros v Hv.
  rewrite Forall_forall in H. now apply nth_error_app1, H.
Qed.

Lemma addGeometry_step (acc : Geometry.Acc) (geo : option Geometry.BufferGeometry) :
  Geometry.wellIndexed geo ->
  Geometry.vertexOffset acc = List.length (Geometry.positions acc) ->
  Forall (fun v => (v < List.length (Geometry.positions acc))%nat) (Geometry.indices acc) ->
  Geometry.positions (Geometry.addGeometry acc geo)
  = Geometry.positions acc ++ Geometry.vertices geo /\
  Geometry.vertexOffset (Geometry.addGeometry acc geo)
  = List.length (Geometry.positions (Geometry.addGeometry acc geo)) /\
  Forall (fun v => (v < List.length (Geometry.positions (Geometry.addGeometry acc geo)))%nat)
         (Geometry.indices (Geometry.addGeometry acc geo)) /\
  map (nth_error (Geometry.positions (Geometry.addGeometry acc geo)))
      (Geometry.indices (Geometry.addGeometry acc geo))
  = map (nth_error (Geometry.positions acc)) (Geometry.indices acc)
    ++ Geometry.corners geo.
Proof.
  intros Hw Hoff Hidx.
  assert (Hskip :
    Geometry.positions acc = Geometry.positions acc ++ [] /\
    Geometry.vertexOffset acc = List.length (Geometry.positions acc) /\
    Forall (fun v => (v < List.length (Geometry.positions acc))%nat) (Geometry.indices acc) /\
    map (nth_error (Geometry.positions acc)) (Geometry.indices acc)
    = map (nth_error (Geometry.positions acc)) (Geometry.indices acc) ++ []).
  { now rewrite !app_nil_r. }
  destruct geo as [g|]; [|exact Hskip].
  unfold Geometry.addGeometry, Geometry.vertices, Geometry.corners.
  unfold Geometry.wellIndexed in Hw.
  destruct (Geometry.position g) as [p|]; [|exact Hskip].
  cbn [Geometry.positions Geometry.vertexOffset Geometry.indices].
  split; [reflexivity|]. split; [rewrite length_app; lia|].
  rewrite Hoff. rewrite map_app, (lookup_kept _ p _ Hidx).
  destruct (Geometry.index g) as [idx|].
  - split.
    + apply Forall_app. split.
      * eapply Forall_impl; [|exact Hidx]. cbn. intros v Hv. rewrite length_app. lia.
      * apply Forall_map. eapply Forall_impl; [|exact Hw]. cbn.
        intros v Hv. rewrite length_app. lia.
    + now rewrite lookup_shifted.
  - split.
    + apply Forall_app. split.
      * eapply Forall_impl; [|exact Hidx]. cbn. intros v Hv. rewrite length_app. lia.
      * apply Forall_map, Forall_forall. intros v Hv. apply in_seq in Hv.
        rewrite length_app. lia.
    + now rewrite lookup_shifted, lookup_all.
Qed.

Lemma fold_addGeometry (gs : list (option Geometry.BufferGeometry)) :
  forall acc : Geometry.Acc,
  Forall Geometry.wellIndexed gs ->
  Geometry.vertexOffset acc = List.length (Geometry.positions acc) ->
  Forall (fun v => (v < List.length (Geometry.positions acc))%nat) (Geometry.indices acc) ->
  Geometry.positions (fold_left Geometry.addGeometry gs acc)
  = Geometry.positions acc ++ flat_map Geometry.vertices gs /\
  Forall (fun v => (v < List.length (Geometry.positions
                                      (fold_left Geometry.addGeometry gs acc)))%nat)
         (Geometry.indices (fold_left Geometry.addGeometry gs acc)) /\
  map (nth_error (Geometry.positions (fold_left Geometry.addGeometry gs acc)))
      (Geometry.indices (fold_left Geometry.addGeometry gs acc))
  = map (nth_error (Geometry.positions acc)) (Geometry.indices acc)
    ++ flat_map Geometry.corners gs.
Proof.
  induction gs as [|geo gs IH]; intros acc Hw Hoff Hidx.
  - cbn. rewrite !app_nil_r. split; [reflexivity|]. split; [exact Hidx | reflexivity].
  - inversion Hw as [|? ? Hgeo Hrest]; subst.
    destruct (addGeometry_step acc geo Hgeo Hoff Hidx) as (Hp & Ho & Hi & Hc).
    destruct (IH (Geometry.addGeometry acc geo) Hrest Ho Hi) as (Hp' & Hi' & Hc').
    cbn [fold_left flat_map]. split; [|split].
    + rewrite Hp', Hp. now rewrite app_assoc.
    + exact Hi'.
    + rewrite Hc', Hc. now rewrite app_assoc.
Qed.

Lemma vertices_count (gs : list (option Geometry.BufferGeometry)) :
  List.length (flat_map Geometry.vertices gs)
  = Geometry.sum (map Geometry.vertexCount gs).
Proof.
  induction gs as [|geo gs IH]; [reflexivity|].
  cbn [flat_map map]. rewrite length_app, IH. unfold Geometry.sum. cbn [fold_right].
  f_equal. destruct geo as [g|]; [|reflexivity]. cbn.
  now destruct (Geometry.position g).
Qed.

Lemma corners_count (gs : list (option Geometry.BufferGeometry)) :
  List.length (flat_map Geometry.corners gs)
  = Geometry.sum (map Geometry.indexCount gs).
Proof.
  induction gs as [|geo gs IH]; [reflexivity|].
  cbn [flat_map map]. rewrite length_app, IH. unfold Geometry.sum. cbn [fold_right].
  f_equal. destruct geo as [g|]; [|reflexivity]. cbn.
  destruct (Geometry.position g); [|reflexivity].
  destruct (Geometry.index g); now rewrite length_map.
Qed.

(** X24. Merging keeps every face.  For a list of geometries, none of
    which has an index entry beyond its own vertices, [mergeGeometries]
    returns the vertices of the geometries one after the other, and an
    index whose entries all name a merged vertex and, read in order, name
    the same vertices as the corners of the geometries read one after the
    other; geometries that are missing or have no positions contribute
    nothing.  The vertex and index counts are the sums of the counts. *)
Theorem merged_geometry_keeps_faces :
  forall (g : option Geometry.BufferGeometry)
         (gs : list (option Geometry.BufferGeometry)),
    Forall Geometry.wellIndexed (g :: gs) ->
    exists ps idx,
      Geometry.m_position (Geometry.mergeGeometries (Some (g :: gs))) = Some ps /\
      Geometry.m_index (Geometry.mergeGeometries (Some (g :: gs))) = Some idx /\
      ps = flat_map Geometry.vertices (g :: gs) /\
      map (nth_error ps) idx = flat_map Geometry.corners (g :: gs) /\
      Forall (fun v => (v < List.length ps)%nat) idx /\
      List.length ps = Geometry.sum (map Geometry.vertexCount (g :: gs)) /\
      List.length idx = Geometry.sum (map Geometry.indexCount (g :: gs)).
Proof.
  intros g gs Hw.
  destruct (fold_addGeometry (g :: gs) Geometry.emptyAcc Hw) as (Hp & Hi & Hc).
  { reflexivity. }
  { constructor. }
  cbn [Geometry.emptyAcc Geometry.positions Geometry.indices map app] in Hp, Hc.
  exists (Geometry.positions (fold_left Geometry.addGeometry (g :: gs) Geometry.emptyAcc)),
         (Geometry.indices (fold_left Geometry.addGeometry (g :: gs) Geometry.emptyAcc)).
  split; [reflexivity|]. split; [reflexivity|].
  split; [exact Hp|]. split; [exact Hc|]. split; [exact Hi|].
  split.
  - rewrite Hp. apply vertices_count.
  - rewrite <- corners_count, <- Hc. now rewrite length_map.
Qed.

Lemma merged_geometry_keeps_faces_witness :
  exists ps idx,
    Geometry.m_position
      (Geometry.mergeGeometries
         (Some [Some (Geometry.mkGeometry
                        (Some [Vector3.mk 0 0 0; Vector3.mk 1 0 0; Vector3.mk 0 1 0])
                        None None (Some [0; 1; 2]%nat));
                None;
                Some (Geometry.mkGeometry
                        (Some [Vector3.mk 0 0 1; Vector3.mk 1 0 1; Vector3.mk 0 1 1])
                        None None None)])) = Some ps /\
    Geometry.m_index
      (Geometry.mergeGeometries
         (Some [Some (Geometry.mkGeometry
                        (Some [Vector3.mk 0 0 0; Vector3.mk 1 0 0; Vector3.mk 0 1 0])
                        None None (Some [0; 1; 2]%nat));
                None;
                Some (Geometry.mkGeometry
                        (Some [Vector3.mk 0 0 1; Vector3.mk 1 0 1; Vector3.mk 0 1 1])
                        None None None)])) = Some idx /\
    ps = [Vector3.mk 0 0 0; Vector3.mk 1 0 0; Vector3.mk 0 1 0;
          Vector3.mk 0 0 1; Vector3.mk 1 0 1; Vector3.mk 0 1 1] /\
    idx = [0; 1; 2; 3; 4; 5]%nat.
Proof.
  destruct (merged_geometry_keeps_faces
              (Some (Geometry.mkGeometry
                       (Some [Vector3.mk 0 0 0; Vector3.mk 1 0 0; Vector3.mk 0 1 0])
                       None None (Some [0; 1; 2]%nat)))
              [None;
               Some (Geometry.mkGeometry
                       (Some [Vector3.mk 0 0 1; Vector3.mk 1 0 1; Vector3.mk 0 1 1])
                       None None None)])
    as (ps & idx & Hp & Hi & Hps & _).
  - constructor; [|constructor; [|constructor; [|constructor]]]; cbn; auto.
  - exists ps, idx. split; [exact Hp|]. split; [exact Hi|]. split; [exact Hps|].
    cbn in Hi. now injection Hi as <-.
Defined.

Lemma addGeometry_normals (acc : Geometry.Acc) (geo : option Geometry.BufferGeometry) :
  Geometry.hasNormals geo ->
  Geometry.normals (Geometry.addGeometry acc geo)
  = Geometry.normals acc ++ map Some (Geometry.normalVectors geo) /\
  List.length (Geometry.normalVectors geo) = List.length (Geometry.vertices geo).
Proof.
  intros Hn. destruct geo as [g|]; [|cbn; now rewrite app_nil_r].
  unfold Geometry.addGeometry, Geometry.normalVectors, Geometry.vertices.
  unfold Geometry.hasNormals in Hn.
  destruct (Geometry.position g) as [p|]; [|cbn; now rewrite app_nil_r].
  destruct (Geometry.normal g) as [n|]; [|contradiction].
  cbn [Geometry.normals]. split; [|exact Hn].
  rewrite <- Hn. now rewrite lookup_all.
Qed.

Lemma fold_addGeometry_normals (gs : list (option Geometry.BufferGeometry)) :
  forall acc : Geometry.Acc,
  Forall Geometry.hasNormals gs ->
  Geometry.normals (fold_left Geometry.addGeometry gs acc)
  = Geometry.normals acc ++ map Some (flat_map Geometry.normalVectors gs) /\
  List.length (flat_map Geometry.normalVectors gs)
  = List.length (flat_map Geometry.vertices gs).
Proof.
  induction gs as [|geo gs IH]; intros acc Hn.
  - cbn. now rewrite app_nil_r.
  - inversion Hn as [|? ? Hgeo Hrest]; subst.
    destruct (addGeometry_normals acc geo Hgeo) as [Hs Hl].
    destruct (IH (Geometry.addGeometry acc geo) Hrest) as [Hs' Hl'].
    cbn [fold_left flat_map]. split.
    + rewrite Hs', Hs, map_app. now rewrite app_assoc.
    + rewrite !length_app. lia.
Qed.

(** X25. Merged normals stay aligned.  When every geometry that has
    positions has one normal per vertex, the merged geometry has the
    normals of the geometries one after the other, one per merged vertex;
    when there is no vertex at all the normal attribute is not set. *)
Theorem merged_normals_aligned :
  forall (g : option Geometry.BufferGeometry)
         (gs : list (option Geometry.BufferGeometry)),
    Forall Geometry.hasNormals (g :: gs) ->
    Geometry.m_normal (Geometry.mergeGeometries (Some (g :: gs)))
    = (if (0 <? List.length (flat_map Geometry.vertices (g :: gs)))%nat
       then Some (map Some (flat_map Geometry.normalVectors (g :: gs)))
       else None) /\
    List.length (flat_map Geometry.normalVectors (g :: gs))
    = List.length (flat_map Geometry.vertices (g :: gs)).
Proof.
  intros g gs Hn.
  destruct (fold_addGeometry_normals (g :: gs) Geometry.emptyAcc Hn) as [Hs Hl].
  cbn [Geometry.emptyAcc Geometry.normals app] in Hs.
  split; [|exact Hl].
  unfold Geometry.mergeGeometries. cbn [Geometry.m_normal].
  rewrite Hs, length_map, Hl. reflexivity.
Qed.

Lemma merged_normals_aligned_witness :
  Geometry.m_normal
    (Geometry.mergeGeometries
       (Some [Some (Geometry.mkGeometry
                      (Some [Vector3.mk 0 0 0; Vector3.mk 1 0 0; Vector3.mk 0 1 0])
                      (Some [Vector3.mk 0 0 1; Vector3.mk 0 0 1; Vector3.mk 0 0 1])
                      None (Some [0; 1; 2]%nat));
              Some (Geometry.mkGeometry None None None None)]))
  = Some [Some (Vector3.mk 0 0 1); Some (Vector3.mk 0 0 1); Some (Vector3.mk 0 0 1)].
Proof.
  destruct (merged_normals_aligned
              (Some (Geometry.mkGeometry
                       (Some [Vector3.mk 0 0 0; Vector3.mk 1 0 0; Vector3.mk 0 1 0])
                       (Some [Vector3.mk 0 0 1; Vector3.mk 0 0 1; Vector3.mk 0 0 1])
                       None (Some [0; 1; 2]%nat)))
              [Some (Geometry.mkGeometry None None None None)])
    as [H _].
  - constructor; [reflexivity|]. constructor; [exact I | constructor].
  - exact H.
Defined.

(** ** The scale of an ornament instance *)

(** X26. The scale [updateMesh] gives an ornament.  For a message
    weight [n] in [0, 1] the scale of every instance stays between 71.25%
    and 105% of the nominal [scale]; up to [n = 0.5] it stays within 5% of
    it, and at [n = 1] it is at most 78.75% of it. *)
Theorem ornament_scale_bounds :
  forall (scale time n : R) (i : nat),
    0 <= scale -> 0 <= n <= 1 ->
    0.7125 * scale <= Geometry.instanceScale scale time n i <= 1.05 * scale /\
    (n <= 0.5 -> 0.95 * scale <= Geometry.instanceScale scale time n i) /\
    (n = 1 -> Geometry.instanceScale scale time n i <= 0.7875 * scale).
Proof.
  intros scale time n i Hs Hn. unfold Geometry.instanceScale. cbv zeta.
  pose proof (SIN_bound (time + INR i)) as [Hlo Hhi].
  set (w := sin (time + INR i)) in *.
  assert (Hbase : 0.95 * scale <= scale * (1 + w * 0.05) <= 1.05 * scale) by nra.
  destruct (JS.gt n 0.5) eqn:E.
  - apply gt_true in E.
    assert (Hf : 0.75 <= 1.0 - (n - 0.5) * 0.5 <= 1) by lra.
    set (b := scale * (1 + w * 0.05)) in *.
    set (f := 1.0 - (n - 0.5) * 0.5) in *.
    split; [split; nra|]. split; [intros; lra|].
    intros ->. assert (Ef : f = 0.75) by (unfold f; lra). rewrite Ef. lra.
  - apply gt_false in E. split; [lra|]. split; [intros; lra|]. intros ->. lra.
Qed.

Lemma ornament_scale_bounds_witness :
  0.7125 * 0.28 <= Geometry.instanceScale 0.28 0 1 0 <= 1.05 * 0.28 /\
  (1 <= 0.5 -> 0.95 * 0.28 <= Geometry.instanceScale 0.28 0 1 0) /\
  (1 = 1 -> Geometry.instanceScale 0.28 0 1 0 <= 0.7875 * 0.28).
Proof.
  apply (ornament_scale_bounds 0.28 0 1 0); lra.
Defined.
